(** * battle_board: the rules engine and its two agents

    A shallow embedding of [game/character.js], [game/rules.js],
    [game/board.js], [game/ai/basicAI.js] and the playout of
    [game/ai/mctsAI.js].

    JavaScript objects are references.  The units ([Character] objects) are
    the only objects of the engine that are mutated through more than one
    path, so they live in an explicit store (the heap, a list indexed by
    reference) and every board cell holds a reference.  The grid rows, the
    team arrays and the [lastBattle] record are copied by [clone], so they
    are modelled as plain values of the board record. *)

From stdpp Require Import base numbers list strings.

Local Open Scope Z_scope.

(** ** character.js *)

(** The keys of the [CharacterType] table.  The code compares catalog
    entries with [===] (object identity); each key names one object, so
    identity is equality of constructors. *)
Inductive CharacterType : Set :=
  | GENERAL_5 | GENERAL_4 | GENERAL_3 | GENERAL_2 | GENERAL_1
  | COLONEL | LT_COLONEL | MAJOR | CAPTAIN | FIRST_LT | SECOND_LT
  | MASTER_SGT | SGT | CORPORAL
  | BOMB_1 | BOMB_2 | ENGINEER | WUKONG_1 | WUKONG_2 | FLAG | MP.

#[global] Instance CharacterType_eq_dec : EqDecision CharacterType.
Proof. solve_decision. Defined.

(** [a.type === T] *)
Definition type_is (a b : CharacterType) : bool := bool_decide (a = b).

Definition CharacterType_name (t : CharacterType) : string :=
  match t with
  | GENERAL_5 => "원수" | GENERAL_4 => "대장" | GENERAL_3 => "중장"
  | GENERAL_2 => "소장" | GENERAL_1 => "준장" | COLONEL => "대령"
  | LT_COLONEL => "중령" | MAJOR => "소령" | CAPTAIN => "대위"
  | FIRST_LT => "중위" | SECOND_LT => "소위" | MASTER_SGT => "상사"
  | SGT => "중사" | CORPORAL => "하사"
  | BOMB_1 => "폭탄1" | BOMB_2 => "폭탄2" | ENGINEER => "공병"
  | WUKONG_1 => "손오공1" | WUKONG_2 => "손오공2"
  | FLAG => "국기" | MP => "헌병"
  end.

Definition CharacterType_priority (t : CharacterType) : Z :=
  match t with
  | GENERAL_5 => 1 | GENERAL_4 => 2 | GENERAL_3 => 3 | GENERAL_2 => 4
  | GENERAL_1 => 5 | COLONEL => 6 | LT_COLONEL => 7 | MAJOR => 8
  | CAPTAIN => 9 | FIRST_LT => 10 | SECOND_LT => 11 | MASTER_SGT => 12
  | SGT => 13 | CORPORAL => 14
  | BOMB_1 => 0 | BOMB_2 => 0 | ENGINEER => 16
  | WUKONG_1 => 17 | WUKONG_2 => 17 | FLAG => 19 | MP => 18
  end.

Definition CharacterType_isSpecial (t : CharacterType) : bool :=
  match t with
  | BOMB_1 | BOMB_2 | ENGINEER | WUKONG_1 | WUKONG_2 | FLAG | MP => true
  | _ => false
  end.

(** [Object.keys(CharacterType).find(key => CharacterType[key] === type)] *)
Definition typeNameOf (t : CharacterType) : string :=
  match t with
  | GENERAL_5 => "GENERAL_5" | GENERAL_4 => "GENERAL_4"
  | GENERAL_3 => "GENERAL_3" | GENERAL_2 => "GENERAL_2"
  | GENERAL_1 => "GENERAL_1" | COLONEL => "COLONEL"
  | LT_COLONEL => "LT_COLONEL" | MAJOR => "MAJOR" | CAPTAIN => "CAPTAIN"
  | FIRST_LT => "FIRST_LT" | SECOND_LT => "SECOND_LT"
  | MASTER_SGT => "MASTER_SGT" | SGT => "SGT" | CORPORAL => "CORPORAL"
  | BOMB_1 => "BOMB_1" | BOMB_2 => "BOMB_2" | ENGINEER => "ENGINEER"
  | WUKONG_1 => "WUKONG_1" | WUKONG_2 => "WUKONG_2"
  | FLAG => "FLAG" | MP => "MP"
  end.

(** A [Character] object.  [typeName] is computed once by the constructor
    from [type], so it is the derived [typeName] below. *)
Record Character : Set := mkCharacter {
  type : CharacterType;
  playerId : Z;
  isAlive : bool;
  isRevealed : bool;
}.

(** [new Character(type, playerId)] *)
Definition Character_new (t : CharacterType) (p : Z) : Character :=
  mkCharacter t p true false.

Definition typeName (c : Character) : string := typeNameOf (type c).
Definition name (c : Character) : string := CharacterType_name (type c).
Definition priority (c : Character) : Z := CharacterType_priority (type c).
Definition isSpecial (c : Character) : bool := CharacterType_isSpecial (type c).

Definition canMove (c : Character) : bool :=
  negb (type_is (type c) FLAG) && negb (type_is (type c) BOMB_1)
  && negb (type_is (type c) BOMB_2).

Definition set_isAlive (v : bool) (c : Character) : Character :=
  mkCharacter (type c) (playerId c) v (isRevealed c).
Definition set_isRevealed (v : bool) (c : Character) : Character :=
  mkCharacter (type c) (playerId c) (isAlive c) v.

Definition createFullTeam (p : Z) : list Character :=
  map (fun t => Character_new t p)
    [GENERAL_5; GENERAL_4; GENERAL_3; GENERAL_2; GENERAL_1; COLONEL;
     LT_COLONEL; MAJOR; CAPTAIN; FIRST_LT; SECOND_LT; MASTER_SGT; SGT;
     CORPORAL; BOMB_1; BOMB_2; ENGINEER; WUKONG_1; WUKONG_2; FLAG; MP].

(** ** The store of units *)

(** A reference to a [Character] object is its index in the heap.  Objects
    are never freed; allocation appends. *)
Abbreviation ref := nat.
Abbreviation Heap := (list Character).

(** [h !!! r] reads the unit behind [r].  Every reference that a board
    holds points into the store ([boardOk] below), where the lookup is the
    stored unit; the default below is what a reference outside the store
    would read, a dead unit of no player. *)
#[global] Instance Character_inhabited : Inhabited Character :=
  populate (mkCharacter CORPORAL (-1) false false).

(** [character.reveal()] *)
Definition reveal (r : ref) (h : Heap) : Heap := alter (set_isRevealed true) r h.
(** [character.isAlive = false] *)
Definition kill (r : ref) (h : Heap) : Heap := alter (set_isAlive false) r h.

(** ** rules.js *)

Record BattleResult : Set := mkBattleResult {
  attackerSurvives : bool;
  defenderSurvives : bool;
  attackerRevealed : bool;
  defenderRevealed : bool;
}.

(** [new BattleResult(a, d)]: the two reveal flags take their default, true. *)
Definition BattleResult_new (a d : bool) : BattleResult :=
  mkBattleResult a d true true.

Definition bothDie (r : BattleResult) : bool :=
  negb (attackerSurvives r) && negb (defenderSurvives r).
Definition attackerWins (r : BattleResult) : bool :=
  attackerSurvives r && negb (defenderSurvives r).
Definition defenderWins (r : BattleResult) : bool :=
  negb (attackerSurvives r) && defenderSurvives r.

Definition resolveGeneralBattle (attacker defender : Character) : BattleResult :=
  let attackerPriority := priority attacker in
  let defenderPriority := priority defender in
  if attackerPriority <? defenderPriority then BattleResult_new true false
  else if attackerPriority >? defenderPriority then BattleResult_new false true
  else BattleResult_new false false.

Definition isBomb (t : CharacterType) : bool :=
  type_is t BOMB_1 || type_is t BOMB_2.
Definition isWukong (t : CharacterType) : bool :=
  type_is t WUKONG_1 || type_is t WUKONG_2.

Definition topRanks : list CharacterType :=
  [GENERAL_5; GENERAL_4; GENERAL_3; GENERAL_2; GENERAL_1].

(** [topRanks.includes(t)] *)
Definition includes (l : list CharacterType) (t : CharacterType) : bool :=
  existsb (type_is t) l.

(** [null] is [None]. *)
Definition resolveSpecialBattle (attacker defender : Character)
  : option BattleResult :=
  let a := type attacker in
  let d := type defender in
  if type_is d FLAG then Some (BattleResult_new true false)
  else if type_is a ENGINEER && isBomb d then Some (BattleResult_new true false)
  else if type_is d ENGINEER && isBomb a then Some (BattleResult_new false true)
  else if isBomb a && (negb (type_is d BOMB_1) && negb (type_is d BOMB_2)
                       && negb (type_is d ENGINEER))
  then Some (BattleResult_new true false)
  else if isBomb d && (negb (type_is a BOMB_1) && negb (type_is a BOMB_2)
                       && negb (type_is a ENGINEER))
  then Some (BattleResult_new false true)
  else if isWukong a && includes topRanks d then Some (BattleResult_new true false)
  else if isWukong d && includes topRanks a then Some (BattleResult_new false true)
  else None.

(** [resolveBattle(attacker, defender)]: the participants are objects, so
    the function takes their references and returns the store it leaves. *)
Definition resolveBattle (h : Heap) (attacker defender : ref)
  : Heap * BattleResult :=
  if type_is (type (h !!! attacker)) MP then
    let h1 := reveal defender h in
    (h1, resolveGeneralBattle (h1 !!! attacker) (h1 !!! defender))
  else if type_is (type (h !!! defender)) MP then
    let h1 := reveal attacker h in
    (h1, resolveGeneralBattle (h1 !!! attacker) (h1 !!! defender))
  else
    match resolveSpecialBattle (h !!! attacker) (h !!! defender) with
    | Some specialResult => (h, specialResult)
    | None => (h, resolveGeneralBattle (h !!! attacker) (h !!! defender))
    end.

(** ** board.js *)

(** [Position] and [Move] objects, instances of the two classes;
    coordinates are integers.  These are the positions that App,
    [getValidMoves] and [getAllValidMoves] build with [new Position]; the
    plain [{ row, col }] objects that [MCTSAI.getMove] returns are in
    [Dyn] below. *)
Record Position : Set := mkPosition { row : Z; col : Z }.

Definition Position_equals (p other : Position) : bool :=
  (row p =? row other) && (col p =? col other).

Record Move : Set := mkMove { fromPos : Position; toPos : Position }.

(** The record stored in [lastBattle]. *)
Record BattleLog : Set := mkBattleLog {
  log_attacker : string;
  log_defender : string;
  log_attackerSurvives : bool;
  log_defenderSurvives : bool;
  log_attackerRevealed : bool;
  log_defenderRevealed : bool;
}.

(** A cell is [null] ([None]) or a reference to a unit. *)
Abbreviation Cell := (option ref).

(** [winner] and [lastBattle] are [null] ([None]) or a value. *)
Record GameBoard : Set := mkGameBoard {
  board : list (list Cell);
  aiTeam : list ref;
  playerTeam : list ref;
  currentPlayer : Z;
  gameOver : bool;
  winner : option Z;
  lastBattle : option BattleLog;
}.

Definition ROWS : Z := 9.
Definition COLS : Z := 7.

Definition isValidPosition (pos : Position) : bool :=
  (0 <=? row pos) && (row pos <? ROWS) && (0 <=? col pos) && (col pos <? COLS).

(** [this.board[r][c]].  The grid always has 9 rows of 7 cells ([gridOk]
    below: the constructor builds it and every later write is a cell
    assignment), so the lookups inside always succeed. *)
Definition cellAt (g : list (list Cell)) (r c : nat) : Cell :=
  match g !! r with
  | Some cells => match cells !! c with Some x => x | None => None end
  | None => None
  end.

(** [this.board[pos.row][pos.col] = v]; only ever executed at a position
    that passed [isValidPosition]. *)
Definition setCell (g : list (list Cell)) (pos : Position) (v : Cell)
  : list (list Cell) :=
  alter (fun cells => <[Z.to_nat (col pos) := v]> cells) (Z.to_nat (row pos)) g.

Definition getCharacter (b : GameBoard) (pos : Position) : Cell :=
  if negb (isValidPosition pos) then None
  else cellAt (board b) (Z.to_nat (row pos)) (Z.to_nat (col pos)).

Definition directions : list (Z * Z) := [(-1, 0); (1, 0); (0, -1); (0, 1)].

Definition getValidMoves (h : Heap) (b : GameBoard) (pos : Position)
  : list Move :=
  match getCharacter b pos with
  | None => []
  | Some r =>
    let character := h !!! r in
    if negb (isAlive character) then []
    else if negb (canMove character) then []
    else if negb (playerId character =? currentPlayer b) then []
    else
      flat_map (fun d : Z * Z =>
        let newPos := mkPosition (row pos + fst d) (col pos + snd d) in
        if negb (isValidPosition newPos) then []
        else match getCharacter b newPos with
             | None => [mkMove pos newPos]
             | Some t =>
               if negb (playerId (h !!! t) =? playerId character)
               then [mkMove pos newPos] else []
             end) directions
  end.

Definition set_board (g : list (list Cell)) (b : GameBoard) : GameBoard :=
  mkGameBoard g (aiTeam b) (playerTeam b) (currentPlayer b) (gameOver b)
    (winner b) (lastBattle b).
Definition set_currentPlayer (p : Z) (b : GameBoard) : GameBoard :=
  mkGameBoard (board b) (aiTeam b) (playerTeam b) p (gameOver b)
    (winner b) (lastBattle b).
Definition set_lastBattle (l : option BattleLog) (b : GameBoard) : GameBoard :=
  mkGameBoard (board b) (aiTeam b) (playerTeam b) (currentPlayer b)
    (gameOver b) (winner b) l.
Definition set_gameOver (v : bool) (w : option Z) (b : GameBoard) : GameBoard :=
  mkGameBoard (board b) (aiTeam b) (playerTeam b) (currentPlayer b) v w
    (lastBattle b).

(** [validMoves.some(m => m.fromPos.equals(move.fromPos) &&
    m.toPos.equals(move.toPos))] *)
Definition isValidIn (validMoves : list Move) (move : Move) : bool :=
  existsb (fun m => Position_equals (fromPos m) (fromPos move)
                    && Position_equals (toPos m) (toPos move)) validMoves.

(** The battle branch of [makeMove], statement by statement. *)
Definition applyBattle (h : Heap) (b : GameBoard) (move : Move)
    (character target : ref) : Heap * GameBoard :=
  let '(h, battleResult) := resolveBattle h character target in
  let b := set_lastBattle (Some (mkBattleLog
             (name (h !!! character)) (name (h !!! target))
             (attackerSurvives battleResult) (defenderSurvives battleResult)
             (attackerRevealed battleResult) (defenderRevealed battleResult))) b in
  let '(h, b) :=
    if negb (attackerSurvives battleResult)
    then (kill character h, set_board (setCell (board b) (fromPos move) None) b)
    else (h, b) in
  let '(h, b) :=
    if negb (defenderSurvives battleResult)
    then (kill target h, set_board (setCell (board b) (toPos move) None) b)
    else (h, b) in
  let b :=
    if attackerSurvives battleResult then
      let b := set_board (setCell (board b) (toPos move) (Some character)) b in
      if negb (Position_equals (fromPos move) (toPos move))
      then set_board (setCell (board b) (fromPos move) None) b else b
    else b in
  let h := if attackerRevealed battleResult then reveal character h else h in
  let h := if defenderRevealed battleResult then reveal target h else h in
  let b :=
    if type_is (type (h !!! target)) FLAG && negb (isAlive (h !!! target))
    then set_gameOver true (Some (playerId (h !!! character))) b else b in
  (h, b).

(** [makeMove(move)] for a move whose two positions are [Position]
    instances, on which [equals] never fails; it returns the boolean
    together with the store and the board it leaves.  [Dyn.makeMove] below
    is the same method on whatever object the caller passes. *)
Definition makeMove (h : Heap) (b : GameBoard) (move : Move)
  : Heap * GameBoard * bool :=
  match getCharacter b (fromPos move) with
  | None => (h, b, false)
  | Some character =>
    let validMoves := getValidMoves h b (fromPos move) in
    if negb (isValidIn validMoves move) then (h, b, false)
    else
      let '(h, b) :=
        match getCharacter b (toPos move) with
        | None =>
          let b := set_board (setCell (board b) (toPos move) (Some character)) b in
          let b := set_board (setCell (board b) (fromPos move) None) b in
          (h, set_lastBattle None b)
        | Some target => applyBattle h b move character target
        end in
      (h, set_currentPlayer (1 - currentPlayer b) b, true)
  end.

(** ** board.js: the arguments as objects *)

(** The engine reads [row] and [col] of the positions it receives and,
    in [makeMove], calls the method [equals] on them.  A position object
    is an instance of [Position] or a plain object [{ row, col }] without
    methods: App passes instances, and [MCTSAI.getMove] returns
    [{ fromPos: { row, col }, toPos: { row, col } }], which App's
    [makeAIMove] hands to [makeMove]. *)
Module Dyn.

Inductive PositionObject : Set :=
  | Instance (p : Position)
  | Plain (r c : Z).

(** [pos.row] and [pos.col] *)
Definition coords (pos : PositionObject) : Position :=
  match pos with
  | Instance p => p
  | Plain r c => mkPosition r c
  end.

(** A move object, [new Move(fromPos, toPos)] or [{ fromPos, toPos }]. *)
Record MoveObject : Set := mkMoveObject {
  fromPos : PositionObject;
  toPos : PositionObject;
}.

Inductive Error : Set := TypeError.

(** How a call ends: it returns a value or throws. *)
Inductive Completion (A : Type) : Type :=
  | Returns (a : A)
  | Throws (e : Error).
Arguments Returns {A} a.
Arguments Throws {A} e.

(** [pos.equals(other)]: the method exists on instances only; calling it
    on a plain object is [TypeError: pos.equals is not a function]. *)
Definition equals (pos other : PositionObject) : Completion bool :=
  match pos with
  | Instance p => Returns (Position_equals p (coords other))
  | Plain _ _ => Throws TypeError
  end.

(** [getValidMoves(pos)]: every move is [new Move(pos, newPos)], which
    holds the caller's [pos] itself and a new instance [newPos]. *)
Definition getValidMoves (h : Heap) (b : GameBoard) (pos : PositionObject)
  : list MoveObject :=
  map (fun m : Move =>
         match m with
         | mkMove _ newPos => mkMoveObject pos (Instance newPos)
         end)
      (getValidMoves h b (coords pos)).

(** [validMoves.some(m => m.fromPos.equals(move.fromPos) &&
    m.toPos.equals(move.toPos))]: [&&] evaluates its right side only when
    the left one is true, and an exception ends the scan. *)
Fixpoint isValidIn (validMoves : list MoveObject) (move : MoveObject)
  : Completion bool :=
  match validMoves with
  | [] => Returns false
  | m :: validMoves' =>
    match equals (fromPos m) (fromPos move) with
    | Throws e => Throws e
    | Returns false => isValidIn validMoves' move
    | Returns true =>
      match equals (toPos m) (toPos move) with
      | Throws e => Throws e
      | Returns false => isValidIn validMoves' move
      | Returns true => Returns true
      end
    end
  end.

(** [makeMove(move)], statement by statement.  Past the validity test
    [move.fromPos] is an instance, or [equals] would have thrown; the
    battle branch is [applyBattle] on the coordinates. *)
Definition makeMove (h : Heap) (b : GameBoard) (move : MoveObject)
  : Heap * GameBoard * Completion bool :=
  match getCharacter b (coords (fromPos move)) with
  | None => (h, b, Returns false)
  | Some character =>
    let validMoves := getValidMoves h b (fromPos move) in
    match isValidIn validMoves move with
    | Throws e => (h, b, Throws e)
    | Returns false => (h, b, Returns false)
    | Returns true =>
      let from := coords (fromPos move) in
      let to := coords (toPos move) in
      let '(h, b) :=
        match getCharacter b to with
        | None =>
          let b := set_board (setCell (board b) to (Some character)) b in
          let b := set_board (setCell (board b) from None) b in
          (h, set_lastBattle None b)
        | Some target => applyBattle h b (mkMove from to) character target
        end in
      (h, set_currentPlayer (1 - currentPlayer b) b, Returns true)
    end
  end.

End Dyn.

(** All cells of the grid in the order of the two nested [for] loops. *)
Definition allPositions : list Position :=
  flat_map (fun r => map (fun c => mkPosition (Z.of_nat r) (Z.of_nat c))
                         (seq 0 (Z.to_nat COLS)))
           (seq 0 (Z.to_nat ROWS)).

Definition getAllValidMoves (h : Heap) (b : GameBoard) (pid : Z)
  : list (Position * Move) :=
  flat_map (fun pos =>
    match getCharacter b pos with
    | Some r =>
      let character := h !!! r in
      if isAlive character && (playerId character =? pid)
      then map (fun move => (pos, move)) (getValidMoves h b pos)
      else []
    | None => []
    end) allPositions.

Definition isGameOver (b : GameBoard) : bool := gameOver b.
Definition getWinner (b : GameBoard) : option Z := winner b.

(** [new GameBoard()]: allocates the 42 units of the two teams (the AI's
    first) and returns the empty 9x7 board. *)
Definition GameBoard_new (h : Heap) : Heap * GameBoard :=
  let ai := createFullTeam 0 in
  let pl := createFullTeam 1 in
  let aiRefs := seq (length h) (length ai) in
  let plRefs := seq (length h + length ai)%nat (length pl) in
  (h ++ ai ++ pl,
   mkGameBoard (replicate (Z.to_nat ROWS) (replicate (Z.to_nat COLS) None))
     aiRefs plRefs 1 false None None).

(** [[array[i], array[j]] = [array[j], array[i]]] *)
Definition swap (array : list nat) (i j : nat) : list nat :=
  match array !! i, array !! j with
  | Some x, Some y => <[j := x]> (<[i := y]> array)
  | _, _ => array
  end.

(** The Fisher-Yates loop from index [i] down to 1.  [Math.random()] is
    the oracle [rnd]: the draw made at index [i] is [rnd i], so that
    [Math.floor(Math.random() * (i + 1))] is [rnd i mod (i + 1)]. *)
Fixpoint shuffle_from (rnd : nat -> nat) (i : nat) (array : list nat)
  : list nat :=
  match i with
  | O => array
  | S k => shuffle_from rnd k (swap array i (rnd i mod (i + 1))%nat)
  end.

Definition shuffle (rnd : nat -> nat) (array : list nat) : list nat :=
  shuffle_from rnd (length array - 1)%nat array.

(** One of the two placement loops of [setupBoard]: [idx] runs over the 21
    cells of three rows starting at [firstRow], row by row.  A cell whose
    index lands outside [positions] or [team] would receive [undefined];
    the only caller passes no argument, so both are permutations of 0..20
    and the model writes the empty cell there. *)
Definition placeTeam (g : list (list Cell)) (firstRow : Z)
    (positions : list nat) (team : list ref) : list (list Cell) :=
  fold_left (fun g idx =>
      let pos := mkPosition (firstRow + Z.of_nat (idx / Z.to_nat COLS)%nat)
                            (Z.of_nat (idx mod Z.to_nat COLS)%nat) in
      setCell g pos (positions !! idx ≫= fun charIdx => team !! charIdx))
    (seq 0 21) g.

(** [setupBoard(playerPositions = null)]; [rndAi] and [rndPl] are the draws
    of the two shuffles. *)
Definition setupBoard (rndAi rndPl : nat -> nat)
    (playerPositions : option (list nat)) (b : GameBoard) : GameBoard :=
  let aiPositions := shuffle rndAi (seq 0 21) in
  let g := placeTeam (board b) 0 aiPositions (aiTeam b) in
  let playerPositions :=
    match playerPositions with
    | Some l => l
    | None => shuffle rndPl (seq 0 21)
    end in
  let g := placeTeam g (ROWS - 3) playerPositions (playerTeam b) in
  set_board g b.

(** [clone()]: builds a new board (which allocates two fresh teams that are
    dropped at once), then copies the rows, the team arrays and the scalar
    fields.  The cells and the team arrays hold the same references. *)
Definition clone (h : Heap) (b : GameBoard) : Heap * GameBoard :=
  let '(h, newBoard) := GameBoard_new h in
  let newBoard := set_board (map (fun cells => cells) (board b)) newBoard in
  let newBoard :=
    mkGameBoard (board newBoard) (aiTeam b) (playerTeam b)
      (currentPlayer newBoard) (gameOver newBoard) (winner newBoard)
      (lastBattle newBoard) in
  let newBoard := set_currentPlayer (currentPlayer b) newBoard in
  let newBoard := set_gameOver (gameOver b) (winner b) newBoard in
  let newBoard :=
    set_lastBattle (match lastBattle b with
                    | Some l => Some l
                    | None => None
                    end) newBoard in
  (h, newBoard).

(** A cell of [getBoardState]'s result; [priority: null] is [None]. *)
Record CellView : Set := mkCellView {
  view_name : string;
  view_type : string;
  view_player_id : Z;
  view_is_alive : bool;
  view_is_revealed : bool;
  view_priority : option Z;
}.

Definition viewCell (h : Heap) (forPlayer : Z) (c : Cell) : option CellView :=
  match c with
  | None => None
  | Some r =>
    let character := h !!! r in
    if (playerId character =? forPlayer) || isRevealed character then
      Some (mkCellView (name character) (typeName character)
              (playerId character) (isAlive character)
              (isRevealed character) (Some (priority character)))
    else
      Some (mkCellView "???" "HIDDEN" (playerId character)
              (isAlive character) false None)
  end.

Definition getBoardState (h : Heap) (b : GameBoard) (forPlayer : Z)
  : list (list (option CellView)) :=
  map (fun r => map (fun c => viewCell h forPlayer (cellAt (board b) r c))
                    (seq 0 (Z.to_nat COLS)))
      (seq 0 (Z.to_nat ROWS)).

(** [array[Math.floor(Math.random() * array.length)]] with the draw [rnd];
    [undefined] on the empty array is [None]. *)
Definition randomChoice {A : Type} (rnd : nat) (array : list A) : option A :=
  array !! (rnd mod length array)%nat.

(** ** ai/basicAI.js *)

Module BasicAI.

Definition findFlagCaptureMoves (h : Heap) (b : GameBoard)
    (allMoves : list (Position * Move)) : list Move :=
  flat_map (fun item : Position * Move =>
    let move := snd item in
    match getCharacter b (toPos move) with
    | Some target =>
      if type_is (type (h !!! target)) FLAG then [move] else []
    | None => []
    end) allMoves.

(** An entry [{ move, priority }] of [winningMoves]. *)
Definition WinningMove : Set := (Move * Z)%type.

(** One turn of the loop of [findWinningBattles].  Every origin in
    [allMoves] holds a unit, so the attacker is never [null]. *)
Definition winningStep (b : GameBoard) (acc : Heap * list WinningMove)
    (item : Position * Move) : Heap * list WinningMove :=
  let '(h, winningMoves) := acc in
  let '(pos, move) := item in
  match getCharacter b pos, getCharacter b (toPos move) with
  | Some attacker, Some target =>
    let '(h, result) := resolveBattle h attacker target in
    if attackerWins result then
      let targetPriority :=
        if isRevealed (h !!! target) then priority (h !!! target) else 10 in
      (h, winningMoves ++ [(move, targetPriority)])
    else (h, winningMoves)
  | _, _ => (h, winningMoves)
  end.

Definition findWinningBattles (h : Heap) (b : GameBoard)
    (allMoves : list (Position * Move)) : Heap * list WinningMove :=
  fold_left (winningStep b) allMoves (h, []).

(** [winningBattles.sort((a, b) => b.priority - a.priority)]: the sort is
    stable, and [a] stays before [b] unless the comparator is positive. *)
Fixpoint insertSorted (a : WinningMove) (l : list WinningMove)
  : list WinningMove :=
  match l with
  | [] => [a]
  | b :: l' =>
    if snd b - snd a <=? 0 then a :: b :: l' else b :: insertSorted a l'
  end.

Definition sortByPriority (l : list WinningMove) : list WinningMove :=
  foldr insertSorted [] l.

Definition isAdjacent (pos1 pos2 : Position) : bool :=
  Z.abs (row pos1 - row pos2) + Z.abs (col pos1 - col pos2) =? 1.

Definition findMyFlag (self : Z) (h : Heap) (b : GameBoard)
  : option Position :=
  head (filter (fun pos =>
    match getCharacter b pos with
    | Some r => (playerId (h !!! r) =? self) && type_is (type (h !!! r)) FLAG
    | None => false
    end = true) allPositions).

Definition findDefensiveMoves (self : Z) (h : Heap) (b : GameBoard)
    (allMoves : list (Position * Move)) : list Move :=
  match findMyFlag self h b with
  | None => []
  | Some flagPos =>
    flat_map (fun item : Position * Move =>
      if isAdjacent (toPos (snd item)) flagPos then [snd item] else [])
      allMoves
  end.

Definition safeStep (b : GameBoard) (acc : Heap * list Move)
    (item : Position * Move) : Heap * list Move :=
  let '(h, safeMoves) := acc in
  let '(pos, move) := item in
  match getCharacter b pos, getCharacter b (toPos move) with
  | Some attacker, Some target =>
    if negb (isRevealed (h !!! target)) then
      if priority (h !!! attacker) <=? 8
      then (h, safeMoves ++ [move]) else (h, safeMoves)
    else
      let '(h, result) := resolveBattle h attacker target in
      if negb (defenderWins result)
      then (h, safeMoves ++ [move]) else (h, safeMoves)
  | _, _ => (h, safeMoves)
  end.

Definition findSafeAttacks (h : Heap) (b : GameBoard)
    (allMoves : list (Position * Move)) : Heap * list Move :=
  fold_left (safeStep b) allMoves (h, []).

Definition findForwardMoves (self : Z) (b : GameBoard)
    (allMoves : list (Position * Move)) : list Move :=
  let direction := if self =? 0 then 1 else -1 in
  flat_map (fun item : Position * Move =>
    let move := snd item in
    match getCharacter b (toPos move) with
    | Some _ => []
    | None =>
      if (row (toPos move) - row (fromPos move)) * direction >? 0
      then [move] else []
    end) allMoves.

(** [getMove(board)] for the agent playing [self]; [rnd] is the draw of
    the one [randomChoice] a call can reach.  [null] is [None]. *)
Definition getMove (self : Z) (rnd : nat) (h : Heap) (b : GameBoard)
  : Heap * option Move :=
  let allMoves := getAllValidMoves h b self in
  if (length allMoves =? 0)%nat then (h, None)
  else
    let flagCaptureMoves := findFlagCaptureMoves h b allMoves in
    if (0 <? length flagCaptureMoves)%nat
    then (h, randomChoice rnd flagCaptureMoves)
    else
      let '(h, winningBattles) := findWinningBattles h b allMoves in
      if (0 <? length winningBattles)%nat
      then (h, fst <$> head (sortByPriority winningBattles))
      else
        let defensiveMoves := findDefensiveMoves self h b allMoves in
        if (0 <? length defensiveMoves)%nat
        then (h, randomChoice rnd defensiveMoves)
        else
          let '(h, safeAttacks) := findSafeAttacks h b allMoves in
          if (0 <? length safeAttacks)%nat
          then (h, randomChoice rnd safeAttacks)
          else
            let forwardMoves := findForwardMoves self b allMoves in
            if (0 <? length forwardMoves)%nat
            then (h, randomChoice rnd forwardMoves)
            else (h, randomChoice rnd (map snd allMoves)).

End BasicAI.

(** ** ai/mctsAI.js: the playout *)

Module MCTSAI.

Definition selectSimulationMove (rnd : nat) (h : Heap) (b : GameBoard)
    (allMoves : list (Position * Move)) : option Move :=
  match BasicAI.findFlagCaptureMoves h b allMoves with
  | move :: _ => Some move
  | [] =>
    if (0 <? length allMoves)%nat
    then randomChoice rnd (map snd allMoves) else None
  end.

(** The [while] loop of [simulate].  [remaining] is [maxMoves - moves],
    the number of turns the test [moves < maxMoves] still allows; the
    draw of ply [moves] is [rnd moves].  Returns the store, the board and
    the counter [moves] at the exit of the loop. *)
Fixpoint simulateLoop (rnd : nat -> nat) (remaining moves : nat)
    (h : Heap) (simBoard : GameBoard) : Heap * GameBoard * nat :=
  match remaining with
  | O => (h, simBoard, moves)
  | S remaining' =>
    if isGameOver simBoard then (h, simBoard, moves)
    else
      let allMoves := getAllValidMoves h simBoard (currentPlayer simBoard) in
      if (length allMoves =? 0)%nat then (h, simBoard, moves)
      else
        let '(h, simBoard) :=
          match selectSimulationMove (rnd moves) h simBoard allMoves with
          | Some move => fst (makeMove h simBoard move)
          | None => (h, simBoard)
          end in
        simulateLoop rnd remaining' (S moves) h simBoard
  end.

(** The draw is reported as [-1]. *)
Definition outcome (simBoard : GameBoard) : option Z :=
  if isGameOver simBoard then getWinner simBoard else Some (-1).

(** [simulate(board, maxMoves = 100)]; an omitted [maxMoves] is [None]. *)
Definition simulate (rnd : nat -> nat) (h : Heap) (b : GameBoard)
    (maxMoves : option nat) : Heap * option Z :=
  let maxMoves := default 100%nat maxMoves in
  let '(h, simBoard) := clone h b in
  let '(h, simBoard, moves) := simulateLoop rnd maxMoves 0 h simBoard in
  (h, outcome simBoard).

End MCTSAI.

(** ** components/Board.jsx and App.jsx: what the player sees and clicks *)

(** An entry [{ to_row, to_col }] of the [validMoves] state. *)
Record Dest : Set := mkDest { to_row : Z; to_col : Z }.

(** An entry of [gameState.valid_moves]. *)
Record MoveView : Set := mkMoveView {
  mv_from_row : Z;
  mv_from_col : Z;
  mv_to_row : Z;
  mv_to_col : Z;
}.

(** The object that [updateGameState] stores in [gameState]. *)
Record GameState : Set := mkGameState {
  gs_board : list (list (option CellView));
  gs_current_player : Z;
  gs_game_over : bool;
  gs_winner : option Z;
  gs_last_battle : option BattleLog;
  gs_valid_moves : list MoveView;
}.

(** [updateGameState(board)]; the value is what [setGameState] receives. *)
Definition updateGameState (h : Heap) (b : GameBoard) : GameState :=
  let boardState := getBoardState h b 1 in
  let moves :=
    if (currentPlayer b =? 1) && negb (gameOver b)
    then map (fun item : Position * Move =>
                let move := snd item in
                mkMoveView (row (fromPos move)) (col (fromPos move))
                           (row (toPos move)) (col (toPos move)))
             (getAllValidMoves h b 1)
    else [] in
  mkGameState boardState (currentPlayer b) (gameOver b) (winner b)
    (lastBattle b) moves.

(** [fetchValidMoves(row, col)]; the value is what [setValidMoves]
    receives.  Rows and columns of the screen are array indices. *)
Definition fetchValidMoves (h : Heap) (b : GameBoard) (r c : nat) : list Dest :=
  map (fun move => mkDest (row (toPos move)) (col (toPos move)))
      (getValidMoves h b (mkPosition (Z.of_nat r) (Z.of_nat c))).

(** [isValidMove(row, col)] of the Board component, and the same test in
    [handleCellClick]. *)
Definition isValidMove (validMoves : list Dest) (r c : nat) : bool :=
  existsb (fun m => (to_row m =? Z.of_nat r) && (to_col m =? Z.of_nat c))
          validMoves.

(** [isSelected(row, col)] *)
Definition isSelected (selectedCell : option (nat * nat)) (r c : nat) : bool :=
  match selectedCell with
  | Some (sr, sc) => (sr =? r)%nat && (sc =? c)%nat
  | None => false
  end.

(** [getCharacterDisplay(cell)] *)
Definition getCharacterDisplay (cell : option CellView) : string :=
  match cell with
  | None => ""
  | Some v => if String.eqb (view_type v) "HIDDEN" then "???" else view_name v
  end.

(** What a call of [handleCellClick] does: it returns at once, clears the
    selection, calls [makeMove(fromRow, fromCol, toRow, toCol)], or selects
    the cell and calls [fetchValidMoves] for it. *)
Inductive Click : Set :=
  | ClickIgnored
  | ClickDeselect
  | ClickMove (fromRow fromCol toRow toCol : nat)
  | ClickSelect (r c : nat).

(** [handleCellClick(row, col)] over the state of the hooks.  [gameBoard]
    and [gameState] are set together by [startNewGame], so one option
    stands for both; the click comes from a rendered cell, so [row] and
    [col] index the 9x7 grid of [gameState.board]. *)
Definition handleCellClick (gameState : option GameState)
    (selectedCell : option (nat * nat)) (validMoves : list Dest)
    (loading : bool) (r c : nat) : Click :=
  match gameState with
  | None => ClickIgnored
  | Some gameState =>
    if gs_game_over gameState || negb (gs_current_player gameState =? 1)
       || loading
    then ClickIgnored
    else
      let cell :=
        match gs_board gameState !! r with
        | Some cells => match cells !! c with Some x => x | None => None end
        | None => None
        end in
      if isSelected selectedCell r c then ClickDeselect
      else
        match selectedCell with
        | Some (sr, sc) =>
          if isValidMove validMoves r c then ClickMove sr sc r c
          else
            match cell with
            | Some v =>
              if (view_player_id v =? 1) && view_is_alive v
              then ClickSelect r c else ClickDeselect
            | None => ClickDeselect
            end
        | None =>
          match cell with
          | Some v =>
            if (view_player_id v =? 1) && view_is_alive v
            then ClickSelect r c else ClickDeselect
          | None => ClickDeselect
          end
        end
  end.

(** ** App.jsx: a game against the basic agent *)

Module App.

(** [makeAIMove()] with [ai = new BasicAI(0)], the agent of the basic
    difficulty; [rnd] is the draw of the agent.  The agent returns one of
    the [Move] objects of [getAllValidMoves], whose positions are
    instances. *)
Definition makeAIMove (rnd : nat) (h : Heap) (gameBoard : GameBoard)
  : Heap * GameBoard :=
  let '(h, aiMove) := BasicAI.getMove 0 rnd h gameBoard in
  match aiMove with
  | Some move => fst (makeMove h gameBoard move)
  | None => (h, gameBoard)
  end.

(** [makeMove(fromRow, fromCol, toRow, toCol)], with the timers run in
    the order they are set: the player's move, then the agent's reply
    when it is the agent's turn and the game is not over.  [loading]
    keeps clicks out in between. *)
Definition makeMove (rnd : nat) (h : Heap) (gameBoard : GameBoard)
    (fromRow fromCol toRow toCol : nat) : Heap * GameBoard :=
  let fromPos := mkPosition (Z.of_nat fromRow) (Z.of_nat fromCol) in
  let toPos := mkPosition (Z.of_nat toRow) (Z.of_nat toCol) in
  let move := mkMove fromPos toPos in
  let '(h, gameBoard, success) := makeMove h gameBoard move in
  if success then
    if (currentPlayer gameBoard =? 0) && negb (gameOver gameBoard)
    then makeAIMove rnd h gameBoard
    else (h, gameBoard)
  else (h, gameBoard).

(** One call of App's [makeMove] and the draw of the reply. *)
Record Call : Set := mkCall {
  fromRow : nat;
  fromCol : nat;
  toRow : nat;
  toCol : nat;
  draw : nat;
}.

(** A game: the successive calls of App's [makeMove] on one board. *)
Fixpoint play (h : Heap) (gameBoard : GameBoard) (calls : list Call)
  : Heap * GameBoard :=
  match calls with
  | [] => (h, gameBoard)
  | c :: calls' =>
    let '(h, gameBoard) :=
      makeMove (draw c) h gameBoard (fromRow c) (fromCol c) (toRow c)
        (toCol c) in
    play h gameBoard calls'
  end.

End App.

(** ** Mid-game positions used to run the code *)

Module Positions.

(** References into the store of a fresh game: the AI's team is
    allocated first, each team in the order of [createFullTeam]. *)
Definition aiUnit (k : nat) : ref := k.
Definition playerUnit (k : nat) : ref := (21 + k)%nat.
Definition iCOLONEL : nat := 5%nat.
Definition iMAJOR : nat := 7%nat.
Definition iCAPTAIN : nat := 8%nat.
Definition iSECOND_LT : nat := 10%nat.
Definition iSGT : nat := 12%nat.
Definition iCORPORAL : nat := 13%nat.
Definition iENGINEER : nat := 16%nat.
Definition iFLAG : nat := 19%nat.
Definition iMP : nat := 20%nat.

Definition at_ (r c : Z) : Position := mkPosition r c.

(** The position reached from a fresh game when only the units of
    [placed] are left on the grid, those of [shown] among them having
    been in a battle; every other unit was captured (dead and shown). *)
Definition midgame (placed : list (Position * ref)) (shown : list ref)
    (toMove : Z) : Heap * GameBoard :=
  let '(h, b) := GameBoard_new [] in
  let isIn (l : list ref) (r : ref) := existsb (Nat.eqb r) l in
  let h := imap (fun r c =>
             if isIn (map snd placed) r
             then (if isIn shown r then set_isRevealed true c else c)
             else set_isRevealed true (set_isAlive false c)) h in
  let g := fold_left (fun g item => setCell g (fst item) (Some (snd item)))
             placed (board b) in
  (h, set_currentPlayer toMove (set_board g b)).

(** The player's military police next to the AI's captain, with both
    flags far away; the player is to move. *)
Definition policeDuel : Heap * GameBoard :=
  midgame [(at_ 0 0, aiUnit iFLAG); (at_ 4 3, aiUnit iCAPTAIN);
           (at_ 5 3, playerUnit iMP); (at_ 8 6, playerUnit iFLAG)]
          [] 1.
Definition policeAttack : Move := mkMove (at_ 5 3) (at_ 4 3).

(** The player's sergeant stands below the AI's flag; the AI still has a
    major in the middle of the board. *)
Definition flagInReach : Heap * GameBoard :=
  midgame [(at_ 0 3, aiUnit iFLAG); (at_ 1 3, playerUnit iSGT);
           (at_ 4 4, aiUnit iMAJOR); (at_ 7 0, playerUnit iCAPTAIN);
           (at_ 8 6, playerUnit iFLAG)]
          [] 1.
Definition flagCapture : Move := mkMove (at_ 1 3) (at_ 0 3).
Definition majorAdvance : Move := mkMove (at_ 4 4) (at_ 5 4).

(** The AI's captain between two shown enemy units, a second
    lieutenant above and a corporal below; the AI is to move. *)
Definition twoPreys : Heap * GameBoard :=
  midgame [(at_ 0 0, aiUnit iFLAG); (at_ 3 3, playerUnit iSECOND_LT);
           (at_ 4 3, aiUnit iCAPTAIN); (at_ 5 3, playerUnit iCORPORAL);
           (at_ 8 6, playerUnit iFLAG)]
          [playerUnit iSECOND_LT; playerUnit iCORPORAL] 0.

(** The AI's military police above the player's hidden corporal and the
    AI's captain to the left of it, with the player's hidden sergeant
    below the captain; the AI is to move. *)
Definition policeScout : Heap * GameBoard :=
  midgame [(at_ 0 0, aiUnit iFLAG); (at_ 3 3, aiUnit iMP);
           (at_ 4 2, aiUnit iCAPTAIN); (at_ 4 3, playerUnit iCORPORAL);
           (at_ 5 2, playerUnit iSGT); (at_ 8 6, playerUnit iFLAG)]
          [] 0.

(** Two positions that differ only in the kind of a hidden AI unit: the
    same cell holds the AI's colonel in one and its engineer in the
    other. *)
Definition hiddenColonel : Heap * GameBoard :=
  midgame [(at_ 0 0, aiUnit iFLAG); (at_ 2 2, aiUnit iCOLONEL);
           (at_ 6 2, playerUnit iMAJOR); (at_ 8 6, playerUnit iFLAG)]
          [] 1.
Definition hiddenEngineer : Heap * GameBoard :=
  midgame [(at_ 0 0, aiUnit iFLAG); (at_ 2 2, aiUnit iENGINEER);
           (at_ 6 2, playerUnit iMAJOR); (at_ 8 6, playerUnit iFLAG)]
          [] 1.

End Positions.

(** ** Two boards that look the same to a viewer *)

(** Two units are alike for [forPlayer]: same owner, same [isAlive], same
    [isRevealed], and the same kind unless the unit is hidden from
    [forPlayer] (owned by someone else and not revealed). *)
Definition sameToViewer (forPlayer : Z) (c1 c2 : Character) : bool :=
  (playerId c1 =? playerId c2)
  && eqb (isAlive c1) (isAlive c2)
  && eqb (isRevealed c1) (isRevealed c2)
  && (if (playerId c1 =? forPlayer) || isRevealed c1
      then type_is (type c1) (type c2) else true).

Definition cellsAgree (forPlayer : Z) (h1 h2 : Heap) (x1 x2 : Cell) : bool :=
  match x1, x2 with
  | None, None => true
  | Some r1, Some r2 => sameToViewer forPlayer (h1 !!! r1) (h2 !!! r2)
  | _, _ => false
  end.

(** The two boards agree cell by cell over the 9x7 grid. *)
Definition agreeFor (forPlayer : Z) (h1 : Heap) (b1 : GameBoard)
    (h2 : Heap) (b2 : GameBoard) : bool :=
  forallb (fun r =>
    forallb (fun c =>
      cellsAgree forPlayer h1 h2 (cellAt (board b1) r c) (cellAt (board b2) r c))
      (seq 0 (Z.to_nat COLS)))
    (seq 0 (Z.to_nat ROWS)).

(** The placeholder shown for a hidden unit: a function of its owner and
    of [isAlive] alone. *)
Definition hiddenView (owner : Z) (alive : bool) : CellView :=
  mkCellView "???" "HIDDEN" owner alive false None.

(** ** Invariants of play *)

(** Every unit is owned by player 0 or player 1. *)
Definition ownersOk (h : Heap) : bool :=
  forallb (fun c => (playerId c =? 0) || (playerId c =? 1)) h.

(** A game that is over has player 0 or player 1 as its winner. *)
Definition winnerOk (b : GameBoard) : bool :=
  if gameOver b
  then match winner b with
       | Some w => (w =? 0) || (w =? 1)
       | None => false
       end
  else true.

(** ** The store and the entries of the guaranteed-win scan *)

(** The store during the simulated battles: kinds never change and a
    revealed unit stays revealed. *)
Definition laterStore (h h' : Heap) : Prop :=
  ∀ x, type (h' !!! x) = type (h !!! x)
       ∧ (isRevealed (h !!! x) = true → isRevealed (h' !!! x) = true).

(** What an entry of [winningMoves] records, in terms of the store [h]
    at the call. *)
Definition winningEntry (h : Heap) (b : GameBoard) (allMoves : list (Position * Move))
    (e : BasicAI.WinningMove) : Prop :=
  ∃ pos attacker target,
    (pos, fst e) ∈ allMoves
    ∧ getCharacter b pos = Some attacker
    ∧ getCharacter b (toPos (fst e)) = Some target
    ∧ attackerWins (snd (resolveBattle h attacker target)) = true
    ∧ (snd e = priority (h !!! target)
       ∨ snd e = 10 ∧ isRevealed (h !!! target) = false).

(** The guaranteed wins as a list, without the store.  A target has
    been scouted by the listed moves [items] when one of them is an attack
    of a military police on it: the simulated battle reveals it. *)
Definition policeScouted (h : Heap) (b : GameBoard)
    (items : list (Position * Move)) (target : ref) : bool :=
  existsb (fun item : Position * Move =>
    match getCharacter b (fst item), getCharacter b (toPos (snd item)) with
    | Some a, Some t => type_is (type (h !!! a)) MP && (t =? target)%nat
    | _, _ => false
    end) items.

(** The value of an attack on [target] once the moves [scanned] have been
    looked at: the priority number of a target that is revealed in [h] or
    scouted, and 10 for any other. *)
Definition winningValue (h : Heap) (b : GameBoard)
    (scanned : list (Position * Move)) (target : ref) : Z :=
  if isRevealed (h !!! target) || policeScouted h b scanned target
  then priority (h !!! target) else 10.

(** The attacks among [later] that the attacker wins, in the order of
    the list, each with its value after the moves [earlier] and itself. *)
Fixpoint winningList (h : Heap) (b : GameBoard)
    (earlier later : list (Position * Move)) : list BasicAI.WinningMove :=
  match later with
  | [] => []
  | item :: later' =>
    let scanned := earlier ++ [item] in
    match getCharacter b (fst item), getCharacter b (toPos (snd item)) with
    | Some attacker, Some target =>
      if attackerWins (snd (resolveBattle h attacker target))
      then [(snd item, winningValue h b scanned target)] else []
    | _, _ => []
    end ++ winningList h b scanned later'
  end.

(** The grid keeps its 9x7 shape and every cell holds [null] or a unit of
    a store of [n] units. *)
Definition cellOk (n : nat) (x : Cell) : bool :=
  match x with
  | Some r => (r <? n)%nat
  | None => true
  end.

Definition gridOk (n : nat) (g : list (list Cell)) : bool :=
  (length g =? Z.to_nat ROWS)%nat
  && forallb (fun cells => (length cells =? Z.to_nat COLS)%nat
                           && forallb (cellOk n) cells) g.

Definition boardOk (h : Heap) (b : GameBoard) : bool :=
  gridOk (length h) (board b).

(** Positions and moves are compared by their coordinates. *)
#[global] Instance Position_eq_dec : EqDecision Position.
Proof. solve_decision. Defined.

#[global] Instance Move_eq_dec : EqDecision Move.
Proof. solve_decision. Defined.

(** The distance [|dr| + |dc|] between two cells. *)
Definition manhattan (p q : Position) : Z :=
  Z.abs (row p - row q) + Z.abs (col p - col q).

(** [h'] is [h] after some calls of [reveal()]: the same units, with the
    same kind, owner and [isAlive], and every revealed unit still
    revealed. *)
Definition revealsOnly (h h' : Heap) : Prop :=
  length h' = length h
  ∧ ∀ x, type (h' !!! x) = type (h !!! x)
         ∧ playerId (h' !!! x) = playerId (h !!! x)
         ∧ isAlive (h' !!! x) = isAlive (h !!! x)
         ∧ (isRevealed (h !!! x) = true → isRevealed (h' !!! x) = true).

(** The store while the agent's moves [scanned] have been looked at:
    only reveals happened, and a unit of another player is revealed
    exactly when it was or has been scouted. *)
Definition scanStore (self : Z) (h : Heap) (b : GameBoard)
    (scanned : list (Position * Move)) (h' : Heap) : Prop :=
  revealsOnly h h'
  ∧ ∀ x, (x < length h)%nat → playerId (h !!! x) ≠ self →
         isRevealed (h' !!! x)
         = isRevealed (h !!! x) || policeScouted h b scanned x.

(** Every unit on the grid is alive and stands on one cell only. *)
Definition placedOk (h : Heap) (b : GameBoard) : bool :=
  forallb (fun p =>
    match getCharacter b p with
    | Some u =>
      isAlive (h !!! u)
      && forallb (fun q =>
           negb (bool_decide (getCharacter b q = Some u))
           || bool_decide (p = q)) allPositions
    | None => true
    end) allPositions.

(** * Properties *)

(** ** The store *)

Section Store.
Implicit Types (h : Heap) (r x : ref) (f : Character → Character).

Lemma lookup_total_alter_field {B : Type} (P : Character → B) f r x h :
  (∀ c, P (f c) = P c) → P (alter f r h !!! x) = P (h !!! x).
Proof.
  intros Hf. rewrite list_lookup_total_alter.
  case_decide as Hd; [|done].
  destruct Hd as [-> _]. apply Hf.
Qed.

Lemma type_reveal r x h : type (reveal r h !!! x) = type (h !!! x).
Proof. by apply (lookup_total_alter_field type). Qed.
Lemma playerId_reveal r x h : playerId (reveal r h !!! x) = playerId (h !!! x).
Proof. by apply (lookup_total_alter_field playerId). Qed.
Lemma isAlive_reveal r x h : isAlive (reveal r h !!! x) = isAlive (h !!! x).
Proof. by apply (lookup_total_alter_field isAlive). Qed.
Lemma type_kill r x h : type (kill r h !!! x) = type (h !!! x).
Proof. by apply (lookup_total_alter_field type). Qed.
Lemma playerId_kill r x h : playerId (kill r h !!! x) = playerId (h !!! x).
Proof. by apply (lookup_total_alter_field playerId). Qed.
Lemma isRevealed_kill r x h : isRevealed (kill r h !!! x) = isRevealed (h !!! x).
Proof. by apply (lookup_total_alter_field isRevealed). Qed.

Lemma length_reveal r h : length (reveal r h) = length h.
Proof. apply length_alter. Qed.
Lemma length_kill r h : length (kill r h) = length h.
Proof. apply length_alter. Qed.

Lemma isRevealed_reveal_eq r h :
  (r < length h)%nat → isRevealed (reveal r h !!! r) = true.
Proof.
  intros Hr. unfold reveal. by rewrite list_lookup_total_alter_eq.
Qed.

Lemma isRevealed_reveal_mono r x h :
  isRevealed (h !!! x) = true → isRevealed (reveal r h !!! x) = true.
Proof.
  intros Hx. unfold reveal. rewrite list_lookup_total_alter.
  by case_decide.
Qed.

Lemma isAlive_kill_eq r h :
  (r < length h)%nat → isAlive (kill r h !!! r) = false.
Proof.
  intros Hr. unfold kill. by rewrite list_lookup_total_alter_eq.
Qed.

Lemma reveal_other r x h : r ≠ x → reveal r h !!! x = h !!! x.
Proof. intros Hne. unfold reveal. by rewrite list_lookup_total_alter_ne. Qed.

Lemma priority_reveal r x h : priority (reveal r h !!! x) = priority (h !!! x).
Proof. unfold priority. by rewrite type_reveal. Qed.

(** A dangling reference reads the default unit, which is no flag. *)
Lemma flag_in_store h r : type (h !!! r) = FLAG → (r < length h)%nat.
Proof.
  intros Ht. destruct (decide (r < length h)%nat) as [|Hge]; [done|].
  rewrite list_lookup_total_alt, lookup_ge_None_2 in Ht by lia. done.
Qed.

Lemma alive_in_store h r : isAlive (h !!! r) = true → (r < length h)%nat.
Proof.
  intros Ht. destruct (decide (r < length h)%nat) as [|Hge]; [done|].
  rewrite list_lookup_total_alt, lookup_ge_None_2 in Ht by lia. done.
Qed.
End Store.

(** ** rules.js *)

Section Rules.
Implicit Types (h : Heap) (attacker defender : ref).

Lemma resolveGeneralBattle_types (a a' d d' : Character) :
  type a = type a' → type d = type d' →
  resolveGeneralBattle a d = resolveGeneralBattle a' d'.
Proof. unfold resolveGeneralBattle, priority. by intros -> ->. Qed.

(** The record that [resolveBattle] returns depends on the two kinds
    only. *)
Lemma resolveBattle_result h attacker defender :
  snd (resolveBattle h attacker defender) =
    if type_is (type (h !!! attacker)) MP || type_is (type (h !!! defender)) MP
    then resolveGeneralBattle (h !!! attacker) (h !!! defender)
    else match resolveSpecialBattle (h !!! attacker) (h !!! defender) with
         | Some specialResult => specialResult
         | None => resolveGeneralBattle (h !!! attacker) (h !!! defender)
         end.
Proof.
  unfold resolveBattle.
  destruct (type_is (type (h !!! attacker)) MP); simpl.
  { apply resolveGeneralBattle_types; apply type_reveal. }
  destruct (type_is (type (h !!! defender)) MP); simpl.
  { apply resolveGeneralBattle_types; apply type_reveal. }
  by destruct (resolveSpecialBattle _ _).
Qed.

(** Every [BattleResult] the resolver builds carries both reveal flags,
    the defaults of the constructor. *)
Lemma resolveGeneralBattle_flags (a d : Character) :
  attackerRevealed (resolveGeneralBattle a d) = true
  ∧ defenderRevealed (resolveGeneralBattle a d) = true.
Proof.
  unfold resolveGeneralBattle.
  destruct (_ <? _); [done|]. by destruct (_ >? _).
Qed.

Lemma resolveSpecialBattle_flags (a d : Character) res :
  resolveSpecialBattle a d = Some res →
  attackerRevealed res = true ∧ defenderRevealed res = true.
Proof.
  unfold resolveSpecialBattle.
  repeat (match goal with
          | |- context [if ?c then _ else _] => destruct c
          end; [by intros [= <-]|]).
  done.
Qed.

Lemma resolveBattle_flags h attacker defender :
  attackerRevealed (snd (resolveBattle h attacker defender)) = true
  ∧ defenderRevealed (snd (resolveBattle h attacker defender)) = true.
Proof.
  rewrite resolveBattle_result.
  destruct (_ || _); [apply resolveGeneralBattle_flags|].
  destruct (resolveSpecialBattle _ _) eqn:Hs.
  - by eapply resolveSpecialBattle_flags.
  - apply resolveGeneralBattle_flags.
Qed.

Lemma resolveBattle_store h attacker defender :
  fst (resolveBattle h attacker defender) =
    if type_is (type (h !!! attacker)) MP then reveal defender h
    else if type_is (type (h !!! defender)) MP then reveal attacker h
    else h.
Proof.
  unfold resolveBattle.
  destruct (type_is (type (h !!! attacker)) MP); [done|].
  destruct (type_is (type (h !!! defender)) MP); [done|].
  by destruct (resolveSpecialBattle _ _).
Qed.

Lemma resolveBattle_frame h attacker defender x :
  type (fst (resolveBattle h attacker defender) !!! x) = type (h !!! x)
  ∧ playerId (fst (resolveBattle h attacker defender) !!! x) = playerId (h !!! x)
  ∧ isAlive (fst (resolveBattle h attacker defender) !!! x) = isAlive (h !!! x).
Proof.
  rewrite resolveBattle_store.
  repeat case_match;
    auto using type_reveal, playerId_reveal, isAlive_reveal.
Qed.

Lemma resolveBattle_length h attacker defender :
  length (fst (resolveBattle h attacker defender)) = length h.
Proof. rewrite resolveBattle_store. repeat case_match; auto using length_reveal. Qed.

Lemma resolveBattle_revealed_mono h attacker defender x :
  isRevealed (h !!! x) = true →
  isRevealed (fst (resolveBattle h attacker defender) !!! x) = true.
Proof.
  intros Hx. rewrite resolveBattle_store.
  repeat case_match; auto using isRevealed_reveal_mono.
Qed.
End Rules.

(** *** C4: what [resolveBattle] does to the store *)

(** C4, as stated, fails: when the player's military police attacks the
    AI's hidden corporal in a fresh store, [resolveBattle] itself leaves the
    corporal revealed, although it returns and nothing else ran. *)
Lemma resolveBattle_not_pure :
  let h := fst (GameBoard_new []) in
  let attacker := Positions.playerUnit Positions.iMP in
  let defender := Positions.aiUnit Positions.iCORPORAL in
  isRevealed (h !!! defender) = false
  ∧ isRevealed (fst (resolveBattle h attacker defender) !!! defender) = true
  ∧ fst (resolveBattle h attacker defender) ≠ h.
Proof. vm_compute. split_and!; [done..|]. intros [=]. Qed.

(** C4 (amended): [resolveBattle] returns the outcome record and never
    changes the kind, the owner or [isAlive] of any unit, nor the number of
    units; its one effect on the store is the reveal of the military
    police's opponent: the defender is revealed when the attacker is the
    military police, otherwise the attacker is revealed when the defender
    is, and with no military police in the battle the store is left as it
    was. *)
Theorem resolveBattle_effect (h : Heap) (attacker defender x : ref) :
  fst (resolveBattle h attacker defender) =
    (if type_is (type (h !!! attacker)) MP then reveal defender h
     else if type_is (type (h !!! defender)) MP then reveal attacker h
     else h)
  ∧ length (fst (resolveBattle h attacker defender)) = length h
  ∧ type (fst (resolveBattle h attacker defender) !!! x) = type (h !!! x)
  ∧ playerId (fst (resolveBattle h attacker defender) !!! x) = playerId (h !!! x)
  ∧ isAlive (fst (resolveBattle h attacker defender) !!! x) = isAlive (h !!! x)
  ∧ (x ≠ attacker → x ≠ defender →
     fst (resolveBattle h attacker defender) !!! x = h !!! x).
Proof.
  split; [apply resolveBattle_store|].
  split; [apply resolveBattle_length|].
  destruct (resolveBattle_frame h attacker defender x) as (Ht & Hp & Ha).
  split_and!; try done.
  intros Hxa Hxd. rewrite resolveBattle_store.
  repeat case_match; try done; by apply reveal_other.
Qed.

(** *** C7: bombs *)

(** C7: in a battle between a bomb and a unit that is no bomb, whichever
    of the two attacks, the engineer survives and the bomb dies, while any
    other unit dies and the bomb survives; this is the answer of
    [resolveSpecialBattle] and of [resolveBattle], whatever the priorities. *)
Theorem bomb_battle (h : Heap) (bomb other : ref) :
  isBomb (type (h !!! bomb)) = true →
  isBomb (type (h !!! other)) = false →
  let engineer := type_is (type (h !!! other)) ENGINEER in
  resolveSpecialBattle (h !!! other) (h !!! bomb)
    = Some (BattleResult_new engineer (negb engineer))
  ∧ resolveSpecialBattle (h !!! bomb) (h !!! other)
    = Some (BattleResult_new (negb engineer) engineer)
  ∧ attackerSurvives (snd (resolveBattle h other bomb)) = engineer
  ∧ defenderSurvives (snd (resolveBattle h other bomb)) = negb engineer
  ∧ attackerSurvives (snd (resolveBattle h bomb other)) = negb engineer
  ∧ defenderSurvives (snd (resolveBattle h bomb other)) = engineer.
Proof.
  intros Hb Ho. rewrite !resolveBattle_result. cbv zeta.
  unfold resolveSpecialBattle, resolveGeneralBattle, priority.
  destruct (type (h !!! bomb)); try discriminate Hb;
    destruct (type (h !!! other)); try discriminate Ho;
    vm_compute; done.
Qed.

(** The AI's first bomb against the player's engineer, in a fresh store. *)
Lemma bomb_battle_engineer :
  let h := fst (GameBoard_new []) in
  let bomb := Positions.aiUnit 14 in
  let other := Positions.playerUnit Positions.iENGINEER in
  isBomb (type (h !!! bomb)) = true
  ∧ isBomb (type (h !!! other)) = false
  ∧ resolveSpecialBattle (h !!! other) (h !!! bomb)
    = Some (BattleResult_new true false)
  ∧ resolveSpecialBattle (h !!! bomb) (h !!! other)
    = Some (BattleResult_new false true)
  ∧ attackerSurvives (snd (resolveBattle h other bomb)) = true
  ∧ defenderSurvives (snd (resolveBattle h other bomb)) = false
  ∧ attackerSurvives (snd (resolveBattle h bomb other)) = false
  ∧ defenderSurvives (snd (resolveBattle h bomb other)) = true.
Proof.
  split; [reflexivity|]. split; [reflexivity|].
  apply (bomb_battle (fst (GameBoard_new [])) (Positions.aiUnit 14)
           (Positions.playerUnit Positions.iENGINEER)); reflexivity.
Defined.

(** ** The grid *)

Section Grid.
Implicit Types (g : list (list Cell)) (pos : Position) (v : Cell).

Lemma length_setCell g pos v : length (setCell g pos v) = length g.
Proof. apply length_alter. Qed.

(** A write changes at most the cell written. *)
Lemma cellAt_setCell_cases g pos v (r c : nat) :
  cellAt (setCell g pos v) r c = v
  ∨ cellAt (setCell g pos v) r c = cellAt g r c.
Proof.
  unfold cellAt, setCell. rewrite list_lookup_alter.
  case_decide as Hr; [|by right]. subst r.
  destruct (g !! Z.to_nat (row pos)) as [cells|]; simpl; [|by right].
  destruct (decide (Z.to_nat (col pos) = c)) as [<-|Hne].
  - destruct (decide (Z.to_nat (col pos) < length cells)%nat).
    + left. by rewrite list_lookup_insert_eq.
    + right. by rewrite list_insert_ge by lia.
  - right. by rewrite list_lookup_insert_ne.
Qed.

Lemma cellAt_setCell_None g pos :
  cellAt (setCell g pos None) (Z.to_nat (row pos)) (Z.to_nat (col pos)) = None.
Proof.
  unfold cellAt, setCell. rewrite list_lookup_alter_eq.
  destruct (g !! Z.to_nat (row pos)) as [cells|]; simpl; [|done].
  destruct (decide (Z.to_nat (col pos) < length cells)%nat).
  - by rewrite list_lookup_insert_eq.
  - by rewrite list_insert_ge, lookup_ge_None_2 by lia.
Qed.

Lemma cellAt_setCell_stays_None g pos (r c : nat) :
  cellAt g r c = None → cellAt (setCell g pos None) r c = None.
Proof.
  intros Hn. destruct (cellAt_setCell_cases g pos None r c); congruence.
Qed.
End Grid.

(** ** board.js *)

Section Board.
Implicit Types (h : Heap) (b : GameBoard) (pos : Position) (move : Move).

Lemma Position_equals_eq (p q : Position) :
  Position_equals p q = true ↔ p = q.
Proof.
  unfold Position_equals. destruct p as [r c], q as [r' c']. simpl.
  rewrite andb_true_iff, !Z.eqb_eq. split.
  - by intros [-> ->].
  - by intros [= -> ->].
Qed.

(** Every move that [getValidMoves] lists starts at the given cell. *)
Lemma getValidMoves_fromPos h b pos m :
  m ∈ getValidMoves h b pos → fromPos m = pos.
Proof.
  unfold getValidMoves. destruct (getCharacter b pos); [|by intros ?%elem_of_nil].
  repeat (case_match; [by intros ?%elem_of_nil|]).
  rewrite list_elem_of_In, in_flat_map. intros (d & _ & Hin).
  repeat case_match; simpl in Hin; try done;
    destruct Hin as [<-|[]]; done.
Qed.

Lemma isValidIn_elem_of h b move :
  isValidIn (getValidMoves h b (fromPos move)) move = true
  ↔ move ∈ getValidMoves h b (fromPos move).
Proof.
  unfold isValidIn. rewrite existsb_exists. split.
  - intros (m & Hin & Heq). apply andb_true_iff in Heq as [Hf Ht].
    apply Position_equals_eq in Hf, Ht.
    apply list_elem_of_In in Hin.
    destruct m, move; simpl in *; by subst.
  - intros Hin. exists move. split; [by apply list_elem_of_In|].
    apply andb_true_iff; split; by apply Position_equals_eq.
Qed.

Lemma getValidMoves_empty_cell h b pos :
  getCharacter b pos = None → getValidMoves h b pos = [].
Proof. unfold getValidMoves. by intros ->. Qed.

(** What a non-empty answer of [getValidMoves] tells about the unit. *)
Lemma getValidMoves_mover h b pos m :
  m ∈ getValidMoves h b pos →
  ∃ r, getCharacter b pos = Some r
       ∧ isAlive (h !!! r) = true
       ∧ canMove (h !!! r) = true
       ∧ playerId (h !!! r) = currentPlayer b.
Proof.
  unfold getValidMoves. destruct (getCharacter b pos) as [r|];
    [|by intros ?%elem_of_nil].
  destruct (isAlive (h !!! r)) eqn:Ha; simpl; [|by intros ?%elem_of_nil].
  destruct (canMove (h !!! r)) eqn:Hc; simpl; [|by intros ?%elem_of_nil].
  destruct (playerId (h !!! r) =? currentPlayer b) eqn:Hp; simpl;
    [|by intros ?%elem_of_nil].
  intros _. exists r. split_and!; try done. by apply Z.eqb_eq.
Qed.

(** The destination of a listed move is on the board, next to the
    origin, and empty or held by a unit of the other owner. *)
Lemma getValidMoves_target h b pos m :
  m ∈ getValidMoves h b pos →
  isValidPosition (toPos m) = true
  ∧ (∃ d, d ∈ directions
          ∧ toPos m = mkPosition (row pos + fst d) (col pos + snd d))
  ∧ ∀ r t, getCharacter b pos = Some r →
           getCharacter b (toPos m) = Some t →
           playerId (h !!! t) ≠ playerId (h !!! r).
Proof.
  unfold getValidMoves. destruct (getCharacter b pos) as [r|];
    [|by intros ?%elem_of_nil].
  repeat (case_match; [by intros ?%elem_of_nil|]).
  rewrite list_elem_of_In, in_flat_map. intros (d & Hd & Hin).
  apply list_elem_of_In in Hd.
  destruct (isValidPosition _) eqn:Hv; simpl in Hin; [|done].
  destruct (getCharacter b (mkPosition _ _)) as [t|] eqn:Ht.
  - destruct (playerId (h !!! t) =? playerId (h !!! r)) eqn:Hp;
      simpl in Hin; [done|].
    destruct Hin as [<-|[]]; simpl. split_and!; [done|by exists d|].
    intros r' t' [= <-]. rewrite Ht. intros [= <-].
    by apply Z.eqb_neq.
  - destruct Hin as [<-|[]]; simpl. split_and!; [done|by exists d|].
    intros r' t' _. by rewrite Ht.
Qed.

Lemma getValidMoves_ignores_outcome h b pos v w :
  getValidMoves h (set_gameOver v w b) pos = getValidMoves h b pos.
Proof. done. Qed.

Lemma getAllValidMoves_ignores_outcome h b pid v w :
  getAllValidMoves h (set_gameOver v w b) pid = getAllValidMoves h b pid.
Proof. done. Qed.

Lemma makeMove_ignores_outcome h b move v w :
  snd (makeMove h (set_gameOver v w b) move) = snd (makeMove h b move).
Proof.
  unfold makeMove. change (getCharacter (set_gameOver v w b)) with (getCharacter b).
  rewrite getValidMoves_ignores_outcome.
  destruct (getCharacter b (fromPos move)); [|done].
  destruct (isValidIn _ _); simpl; [|done].
  by repeat case_match.
Qed.

(** [makeMove] answers [true] exactly on the listed moves. *)
Lemma makeMove_ok h b move :
  snd (makeMove h b move) = true ↔ move ∈ getValidMoves h b (fromPos move).
Proof.
  rewrite <-isValidIn_elem_of. unfold makeMove.
  destruct (getCharacter b (fromPos move)) eqn:Hc.
  - destruct (isValidIn _ _); simpl; [|done]. by repeat case_match.
  - rewrite getValidMoves_empty_cell by done. done.
Qed.

Lemma makeMove_rejected h b move :
  snd (makeMove h b move) = false → makeMove h b move = (h, b, false).
Proof.
  unfold makeMove. destruct (getCharacter b (fromPos move)); [|done].
  destruct (isValidIn _ _); simpl; [|done]. by repeat case_match.
Qed.

Lemma applyBattle_currentPlayer h b move c t :
  currentPlayer (snd (applyBattle h b move c t)) = currentPlayer b.
Proof.
  unfold applyBattle. destruct (resolveBattle h c t) as [h1 res].
  by repeat (case_match; simplify_eq/=).
Qed.

Lemma makeMove_turn h b move :
  snd (makeMove h b move) = true →
  currentPlayer (snd (fst (makeMove h b move))) = 1 - currentPlayer b.
Proof.
  unfold makeMove. destruct (getCharacter b (fromPos move)) as [c|]; [|done].
  destruct (isValidIn _ _); simpl; [|done].
  destruct (getCharacter b (toPos move)) as [t|]; [|done].
  pose proof (applyBattle_currentPlayer h b move c t) as Hcp.
  destruct (applyBattle h b move c t) as [h1 b1]. simpl in *. by rewrite Hcp.
Qed.
End Board.

(** *** The battle branch of [makeMove] *)

Section Battle.
Implicit Types (h : Heap) (b : GameBoard) (move : Move) (c t : ref).

(** The store a battle leaves: the resolver's store, with the losers
    marked dead and then both participants revealed. *)
Lemma applyBattle_store h b move c t :
  fst (applyBattle h b move c t) =
    let h1 := fst (resolveBattle h c t) in
    let res := snd (resolveBattle h c t) in
    let h2 := if attackerSurvives res then h1 else kill c h1 in
    let h3 := if defenderSurvives res then h2 else kill t h2 in
    reveal t (reveal c h3).
Proof.
  unfold applyBattle.
  destruct (resolveBattle_flags h c t) as [Ha Hd].
  destruct (resolveBattle h c t) as [h1 res]. simpl in *.
  rewrite Ha, Hd.
  by destruct (attackerSurvives res), (defenderSurvives res).
Qed.

Lemma applyBattle_length h b move c t :
  length (fst (applyBattle h b move c t)) = length h.
Proof.
  rewrite applyBattle_store. cbv zeta.
  rewrite !length_reveal.
  repeat case_match; rewrite ?length_kill; apply resolveBattle_length.
Qed.

Lemma applyBattle_frame h b move c t x :
  type (fst (applyBattle h b move c t) !!! x) = type (h !!! x)
  ∧ playerId (fst (applyBattle h b move c t) !!! x) = playerId (h !!! x).
Proof.
  destruct (resolveBattle_frame h c t x) as (Ht & Hp & _).
  rewrite applyBattle_store. cbv zeta.
  rewrite !type_reveal, !playerId_reveal.
  repeat case_match; by rewrite ?type_kill, ?playerId_kill.
Qed.

(** Whatever the kinds, both participants of a battle fought through
    [makeMove] end revealed. *)
Lemma applyBattle_reveals_both h b move c t :
  (c < length h)%nat → (t < length h)%nat →
  isRevealed (fst (applyBattle h b move c t) !!! c) = true
  ∧ isRevealed (fst (applyBattle h b move c t) !!! t) = true.
Proof.
  intros Hc Ht. rewrite applyBattle_store. cbv zeta.
  set (h3 := if defenderSurvives _ then _ else _).
  assert (length h3 = length h) as Hlen.
  { subst h3. repeat case_match; rewrite ?length_kill;
      apply resolveBattle_length. }
  split.
  - apply isRevealed_reveal_mono, isRevealed_reveal_eq. lia.
  - apply isRevealed_reveal_eq. rewrite length_reveal. lia.
Qed.

Lemma resolveBattle_flag h c t :
  type (h !!! t) = FLAG →
  snd (resolveBattle h c t) = BattleResult_new true false.
Proof.
  intros Ht. rewrite resolveBattle_result.
  unfold resolveSpecialBattle, resolveGeneralBattle, priority. rewrite Ht.
  destruct (type (h !!! c)); vm_compute; done.
Qed.

(** The two fields the flag test of a battle may set. *)
Lemma applyBattle_outcome h b move c t :
  let h' := fst (applyBattle h b move c t) in
  let captured :=
    type_is (type (h' !!! t)) FLAG && negb (isAlive (h' !!! t)) in
  gameOver (snd (applyBattle h b move c t))
    = (if captured then true else gameOver b)
  ∧ winner (snd (applyBattle h b move c t))
    = (if captured then Some (playerId (h' !!! c)) else winner b).
Proof.
  unfold applyBattle.
  destruct (resolveBattle h c t) as [h1 [sa sd ra rd]].
  destruct sa, sd, ra, rd; cbn -[reveal kill];
    repeat (case_match; cbn -[reveal kill]); done.
Qed.

(** Any battle against a flag kills it and ends the game for the
    attacker's owner. *)
Lemma applyBattle_flag h b move c t :
  type (h !!! t) = FLAG →
  isAlive (fst (applyBattle h b move c t) !!! t) = false
  ∧ gameOver (snd (applyBattle h b move c t)) = true
  ∧ winner (snd (applyBattle h b move c t)) = Some (playerId (h !!! c)).
Proof.
  intros Ht.
  assert (isAlive (fst (applyBattle h b move c t) !!! t) = false) as Hdead.
  { rewrite applyBattle_store, resolveBattle_flag by done. cbv zeta. simpl.
    rewrite !isAlive_reveal. apply isAlive_kill_eq.
    rewrite resolveBattle_length. by apply flag_in_store. }
  split; [done|].
  destruct (applyBattle_frame h b move c t t) as [Hty _].
  destruct (applyBattle_frame h b move c t c) as [_ Hpc].
  destruct (applyBattle_outcome h b move c t) as [Hg Hw].
  cbv zeta in Hg, Hw. rewrite Hg, Hw, Hty, Ht, Hdead, Hpc. done.
Qed.

(** An accepted move onto an occupied cell is a battle. *)
Lemma makeMove_battle h b move c t :
  getCharacter b (fromPos move) = Some c →
  getCharacter b (toPos move) = Some t →
  snd (makeMove h b move) = true →
  makeMove h b move =
    (fst (applyBattle h b move c t),
     set_currentPlayer (1 - currentPlayer b) (snd (applyBattle h b move c t)),
     true).
Proof.
  intros Hc Ht. unfold makeMove. rewrite Hc, Ht.
  destruct (isValidIn _ _); simpl; [|done].
  pose proof (applyBattle_currentPlayer h b move c t) as Hcp.
  destruct (applyBattle h b move c t) as [h1 b1]. simpl in *.
  by rewrite Hcp.
Qed.
End Battle.

Section Origin.
Implicit Types (h : Heap) (b : GameBoard) (move : Move).

Lemma getValidMoves_moves_away h b move :
  move ∈ getValidMoves h b (fromPos move) →
  isValidPosition (fromPos move) = true
  ∧ Position_equals (fromPos move) (toPos move) = false.
Proof.
  intros Hin. split.
  - apply getValidMoves_mover in Hin as (r & Hr & _).
    unfold getCharacter in Hr. by destruct (isValidPosition _).
  - apply getValidMoves_target in Hin as (_ & (d & Hd & ->) & _).
    apply not_true_iff_false. rewrite Position_equals_eq.
    destruct (fromPos move) as [r c]. simpl. intros [= Hr Hc].
    unfold directions in Hd.
    repeat (apply elem_of_cons in Hd as [-> | Hd]; [simpl in *; lia|]).
    by apply elem_of_nil in Hd.
Qed.

Lemma getCharacter_set_currentPlayer p b pos :
  getCharacter (set_currentPlayer p b) pos = getCharacter b pos.
Proof. done. Qed.

(** The board of a battle where the origin stays empty. *)
Lemma applyBattle_vacates h b move c t :
  Position_equals (fromPos move) (toPos move) = false →
  cellAt (board (snd (applyBattle h b move c t)))
    (Z.to_nat (row (fromPos move))) (Z.to_nat (col (fromPos move))) = None.
Proof.
  intros Hne. unfold applyBattle.
  destruct (resolveBattle h c t) as [h1 [sa sd ra rd]].
  destruct sa, sd, ra, rd; cbn -[reveal kill setCell]; rewrite ?Hne;
    cbn -[reveal kill setCell];
    repeat (case_match; cbn -[reveal kill setCell]);
    auto using cellAt_setCell_None, cellAt_setCell_stays_None.
Qed.

(** An accepted move leaves its origin empty. *)
Lemma makeMove_vacates h b move :
  snd (makeMove h b move) = true →
  getCharacter (snd (fst (makeMove h b move))) (fromPos move) = None.
Proof.
  intros Hok. pose proof Hok as Hin. apply makeMove_ok in Hin.
  destruct (getValidMoves_moves_away h b move Hin) as [Hvalid Hne].
  apply getValidMoves_mover in Hin as (c & Hc & _).
  destruct (getCharacter b (toPos move)) as [t|] eqn:Ht.
  - rewrite (makeMove_battle h b move c t Hc Ht Hok). simpl.
    rewrite getCharacter_set_currentPlayer. unfold getCharacter.
    rewrite Hvalid. simpl. by apply applyBattle_vacates.
  - revert Hok. unfold makeMove. rewrite Hc, Ht.
    destruct (isValidIn _ _); simpl; [|done]. intros _.
    unfold getCharacter. rewrite Hvalid. simpl.
    apply cellAt_setCell_None.
Qed.
End Origin.

(** *** C3: capturing the flag *)

(** C3, as stated, fails in its second half: after the player's sergeant
    has captured the AI's flag ([gameOver] is set and the winner is player
    1), [getValidMoves] still lists the four moves of the AI's major and
    [makeMove] accepts one of them. *)
Lemma moves_after_flag_capture :
  let '(h, b) := Positions.flagInReach in
  let '(h1, b1, ok) := makeMove h b Positions.flagCapture in
  let flag := Positions.aiUnit Positions.iFLAG in
  ok = true
  ∧ type (h !!! flag) = FLAG ∧ isAlive (h !!! flag) = true
  ∧ isAlive (h1 !!! flag) = false
  ∧ gameOver b1 = true ∧ winner b1 = Some 1
  ∧ length (getValidMoves h1 b1 (Positions.at_ 4 4)) = 4%nat
  ∧ snd (makeMove h1 b1 Positions.majorAdvance) = true.
Proof. vm_compute. by split_and!. Qed.

(** C3 (amended): whenever an accepted move attacks a flag, the battle
    kills the flag and that [makeMove] sets [gameOver = true] and [winner]
    to the attacking unit's owner, and passes the turn.  The engine itself
    does not stop there: [getValidMoves] and [makeMove] never read
    [gameOver], so afterwards they answer exactly as on the same board with
    the game not over; it is the callers that test [isGameOver]. *)
Theorem flag_capture_ends_game (h : Heap) (b : GameBoard) (move : Move)
    (c t : ref) :
  getCharacter b (fromPos move) = Some c →
  getCharacter b (toPos move) = Some t →
  type (h !!! t) = FLAG →
  snd (makeMove h b move) = true →
  let '(h', b', _) := makeMove h b move in
  isAlive (h' !!! t) = false
  ∧ gameOver b' = true
  ∧ winner b' = Some (playerId (h !!! c))
  ∧ currentPlayer b' = 1 - currentPlayer b
  ∧ (∀ pos, getValidMoves h' b' pos
            = getValidMoves h' (set_gameOver false None b') pos)
  ∧ (∀ m, snd (makeMove h' b' m)
          = snd (makeMove h' (set_gameOver false None b') m)).
Proof.
  intros Hc Ht Hflag Hok.
  destruct (applyBattle_flag h b move c t Hflag) as (Hdead & Hover & Hwin).
  rewrite (makeMove_battle h b move c t Hc Ht Hok).
  split_and!; try done.
  intros m. symmetry. apply makeMove_ignores_outcome.
Qed.

(** The player's sergeant takes the AI's flag. *)
Lemma flag_capture_sergeant :
  let h := fst Positions.flagInReach in
  let b := snd Positions.flagInReach in
  let move := Positions.flagCapture in
  let c := Positions.playerUnit Positions.iSGT in
  let t := Positions.aiUnit Positions.iFLAG in
  getCharacter b (fromPos move) = Some c
  ∧ getCharacter b (toPos move) = Some t
  ∧ type (h !!! t) = FLAG
  ∧ snd (makeMove h b move) = true
  ∧ let '(h', b', _) := makeMove h b move in
    isAlive (h' !!! t) = false
    ∧ gameOver b' = true
    ∧ winner b' = Some (playerId (h !!! c))
    ∧ currentPlayer b' = 1 - currentPlayer b
    ∧ (∀ pos, getValidMoves h' b' pos
              = getValidMoves h' (set_gameOver false None b') pos)
    ∧ (∀ m, snd (makeMove h' b' m)
            = snd (makeMove h' (set_gameOver false None b') m)).
Proof.
  cbv zeta.
  split; [reflexivity|]. split; [reflexivity|]. split; [reflexivity|].
  split; [reflexivity|].
  apply (flag_capture_ends_game (fst Positions.flagInReach)
           (snd Positions.flagInReach) Positions.flagCapture
           (Positions.playerUnit Positions.iSGT)
           (Positions.aiUnit Positions.iFLAG)); reflexivity.
Defined.

(** *** C5: battles of the military police *)

Section Police.
Implicit Types (h : Heap) (attacker defender : ref).

(** Survivorship of a battle with the military police is the comparison
    of priorities. *)
Lemma police_battle_general h attacker defender :
  type (h !!! attacker) = MP ∨ type (h !!! defender) = MP →
  snd (resolveBattle h attacker defender)
    = resolveGeneralBattle (h !!! attacker) (h !!! defender).
Proof.
  intros Hmp. rewrite resolveBattle_result.
  by destruct Hmp as [-> | ->]; simpl; rewrite ?orb_true_r.
Qed.

(** The resolver's own [reveal()] reaches the opponent only... *)
Lemma police_attacks_resolver h attacker defender :
  type (h !!! attacker) = MP → attacker ≠ defender →
  (defender < length h)%nat →
  isRevealed (fst (resolveBattle h attacker defender) !!! defender) = true
  ∧ fst (resolveBattle h attacker defender) !!! attacker = h !!! attacker.
Proof.
  intros Hmp Hne Hd. rewrite resolveBattle_store, Hmp. simpl.
  split; [by apply isRevealed_reveal_eq|]. apply reveal_other. done.
Qed.

(** ... but the record it returns asks [makeMove] to reveal both. *)
Lemma police_battle_flags h attacker defender :
  attackerRevealed (snd (resolveBattle h attacker defender)) = true
  ∧ defenderRevealed (snd (resolveBattle h attacker defender)) = true.
Proof. apply resolveBattle_flags. Qed.

Lemma makeMove_battle_reveals_both h (b : GameBoard) (move : Move) c t :
  getCharacter b (fromPos move) = Some c →
  getCharacter b (toPos move) = Some t →
  (t < length h)%nat →
  snd (makeMove h b move) = true →
  isRevealed (fst (fst (makeMove h b move)) !!! c) = true
  ∧ isRevealed (fst (fst (makeMove h b move)) !!! t) = true.
Proof.
  intros Hc Ht Hlt Hok.
  pose proof Hok as Hin. apply makeMove_ok in Hin.
  apply getValidMoves_mover in Hin as (r & Hr & Halive & _).
  rewrite Hc in Hr. simplify_eq.
  rewrite (makeMove_battle h b move r t Hc Ht Hok). simpl.
  apply applyBattle_reveals_both; [by apply alive_in_store|done].
Qed.
End Police.

(** C5: the player's hidden military police attacks the AI's hidden
    captain and loses by priority (18 against 9).  The call of
    [resolveBattle] reveals the captain and not the police, and survivorship
    is the general comparison; but the outcome record carries
    [attackerRevealed = true], so the battle, as [makeMove] fights it, ends
    with the military police revealed as well. *)
Theorem police_attack_reveals_police :
  let '(h, b) := Positions.policeDuel in
  let police := Positions.playerUnit Positions.iMP in
  let captain := Positions.aiUnit Positions.iCAPTAIN in
  let '(h1, b1, ok) := makeMove h b Positions.policeAttack in
  getCharacter b (Positions.at_ 5 3) = Some police
  ∧ getCharacter b (Positions.at_ 4 3) = Some captain
  ∧ type (h !!! police) = MP ∧ type (h !!! captain) = CAPTAIN
  ∧ isRevealed (h !!! police) = false ∧ isRevealed (h !!! captain) = false
  ∧ isRevealed (fst (resolveBattle h police captain) !!! captain) = true
  ∧ isRevealed (fst (resolveBattle h police captain) !!! police) = false
  ∧ snd (resolveBattle h police captain)
    = resolveGeneralBattle (h !!! police) (h !!! captain)
  ∧ snd (resolveBattle h police captain) = mkBattleResult false true true true
  ∧ ok = true
  ∧ isRevealed (h1 !!! captain) = true
  ∧ isRevealed (h1 !!! police) = true.
Proof. vm_compute. by split_and!. Qed.

(** *** C1: [clone] *)

(** The copy holds the references of the original: as values, the board
    records are equal, and the store only grows by the two teams that
    [new GameBoard()] allocated and [clone] dropped. *)
Lemma clone_spec (h : Heap) (b : GameBoard) :
  clone h b = (h ++ createFullTeam 0 ++ createFullTeam 1, b).
Proof.
  unfold clone, GameBoard_new, set_board, set_currentPlayer, set_gameOver,
    set_lastBattle. destruct b as [g ai pl cp go w lb]. simpl.
  f_equal. f_equal; [apply map_id|by destruct lb].
Qed.

Lemma clone_keeps_units (h : Heap) (b : GameBoard) (r : ref) :
  (r < length h)%nat → fst (clone h b) !!! r = h !!! r.
Proof.
  intros Hr. rewrite clone_spec. simpl. by rewrite lookup_total_app_l.
Qed.

(** C1: the player's military police stands next to the AI's captain.
    The board is cloned and the attack is played on the clone only.  The
    original grid still holds both units, but they are the clone's units:
    in the store the move leaves, the original's military police is dead
    and revealed and its captain revealed, and the original board no longer
    lists any move for the police.  The same happens to the clone when the
    attack is played on the original. *)
Theorem clone_shares_units :
  let '(h, b) := Positions.policeDuel in
  let police := Positions.playerUnit Positions.iMP in
  let captain := Positions.aiUnit Positions.iCAPTAIN in
  let '(h0, copy) := clone h b in
  let '(h1, copy1, ok) := makeMove h0 copy Positions.policeAttack in
  let '(h2, b2, ok') := makeMove h0 b Positions.policeAttack in
  getCharacter b (Positions.at_ 5 3) = Some police
  ∧ getCharacter b (Positions.at_ 4 3) = Some captain
  ∧ isAlive (h0 !!! police) = true ∧ isRevealed (h0 !!! police) = false
  ∧ isRevealed (h0 !!! captain) = false
  ∧ length (getValidMoves h0 b (Positions.at_ 5 3)) = 4%nat
  ∧ ok = true
  ∧ isAlive (h1 !!! police) = false ∧ isRevealed (h1 !!! police) = true
  ∧ isRevealed (h1 !!! captain) = true
  ∧ getValidMoves h1 b (Positions.at_ 5 3) = []
  ∧ ok' = true
  ∧ getCharacter copy (Positions.at_ 5 3) = Some police
  ∧ isAlive (h2 !!! police) = false ∧ isRevealed (h2 !!! police) = true
  ∧ getValidMoves h2 copy (Positions.at_ 5 3) = [].
Proof. vm_compute. by split_and!. Qed.

(** ** Well-formed boards *)

Section WellFormed.
Implicit Types (h : Heap) (b : GameBoard) (g : list (list Cell)) (n : nat).

Lemma forallb_alter_true {A : Type} (P : A → bool) (f : A → A) (i : nat)
    (l : list A) :
  (∀ x, P x = true → P (f x) = true) →
  forallb P l = true → forallb P (alter f i l) = true.
Proof.
  intros Hf. revert i. induction l as [|x l IH]; intros [|i]; simpl; try done.
  - rewrite !andb_true_iff. intros [Hx Hl]. auto.
  - rewrite !andb_true_iff. intros [Hx Hl]. split; [done|]. by apply IH.
Qed.

Lemma forallb_insert_true {A : Type} (P : A → bool) (i : nat) (v : A)
    (l : list A) :
  P v = true → forallb P l = true → forallb P (<[i := v]> l) = true.
Proof.
  intros Hv. revert i. induction l as [|x l IH]; intros [|i]; simpl; try done.
  - rewrite !andb_true_iff. intros [_ Hl]. auto.
  - rewrite !andb_true_iff. intros [Hx Hl]. split; [done|]. by apply IH.
Qed.

Lemma gridOk_setCell n g pos (v : Cell) :
  cellOk n v = true → gridOk n g = true → gridOk n (setCell g pos v) = true.
Proof.
  intros Hv. unfold gridOk, setCell. rewrite !andb_true_iff, length_alter.
  intros [Hlen Hrows]. split; [done|].
  apply forallb_alter_true; [|done].
  intros cells. rewrite !andb_true_iff, length_insert.
  intros [Hl Hc]. split; [done|]. by apply forallb_insert_true.
Qed.

Lemma gridOk_cellAt n g (r c : nat) (x : nat) :
  gridOk n g = true → cellAt g r c = Some x → (x < n)%nat.
Proof.
  unfold gridOk, cellAt. rewrite andb_true_iff, forallb_forall.
  intros [_ Hrows]. destruct (g !! r) as [cells|] eqn:Hr; [|done].
  destruct (cells !! c) as [y|] eqn:Hc; [|done]. intros ->.
  apply list_elem_of_lookup_2, list_elem_of_In, Hrows in Hr.
  apply andb_true_iff in Hr as [_ Hcells]. rewrite forallb_forall in Hcells.
  apply list_elem_of_lookup_2, list_elem_of_In, Hcells in Hc.
  by apply Nat.ltb_lt in Hc.
Qed.

Lemma boardOk_getCharacter h b pos (x : nat) :
  boardOk h b = true → getCharacter b pos = Some x → (x < length h)%nat.
Proof.
  unfold boardOk, getCharacter. intros Hok.
  destruct (isValidPosition pos); simpl; [|done]. by apply gridOk_cellAt.
Qed.

Lemma boardOk_new h :
  boardOk (fst (GameBoard_new h)) (snd (GameBoard_new h)) = true.
Proof. done. Qed.

Lemma gridOk_mono (n m : nat) g :
  (n ≤ m)%nat → gridOk n g = true → gridOk m g = true.
Proof.
  intros Hnm. unfold gridOk. rewrite !andb_true_iff. intros [Hl Hrows].
  split; [done|]. rewrite forallb_forall in *. intros cells Hin.
  specialize (Hrows cells Hin). rewrite andb_true_iff in *.
  destruct Hrows as [Hlen Hcells]. split; [done|].
  rewrite forallb_forall in *. intros [x|] Hx; [|done].
  specialize (Hcells _ Hx). simpl in *.
  apply Nat.ltb_lt in Hcells. apply Nat.ltb_lt. lia.
Qed.

Lemma boardOk_clone h b :
  boardOk h b = true → boardOk (fst (clone h b)) (snd (clone h b)) = true.
Proof.
  rewrite clone_spec. unfold boardOk. simpl. apply gridOk_mono.
  rewrite length_app. lia.
Qed.

Lemma gridOk_applyBattle n h b (move : Move) (c t : nat) :
  (c < n)%nat → gridOk n (board b) = true →
  gridOk n (board (snd (applyBattle h b move c t))) = true.
Proof.
  intros Hc Hg.
  assert (cellOk n (Some c) = true) as Hsome by by apply Nat.ltb_lt.
  unfold applyBattle.
  destruct (resolveBattle h c t) as [h1 [sa sd ra rd]].
  destruct sa, sd, ra, rd; cbn -[reveal kill setCell];
    repeat (case_match; cbn -[reveal kill setCell]);
    auto using gridOk_setCell.
Qed.

(** Every accepted or rejected move leaves a well-formed board. *)
Lemma boardOk_makeMove h b (move : Move) :
  boardOk h b = true →
  boardOk (fst (fst (makeMove h b move))) (snd (fst (makeMove h b move))) = true.
Proof.
  intros Hok. unfold boardOk in *.
  destruct (snd (makeMove h b move)) eqn:Hacc;
    [|by rewrite (makeMove_rejected h b move Hacc)].
  pose proof Hacc as Hin. apply makeMove_ok in Hin.
  apply getValidMoves_mover in Hin as (c & Hc & _).
  pose proof (boardOk_getCharacter h b _ c Hok Hc) as Hlt.
  destruct (getCharacter b (toPos move)) as [t|] eqn:Ht.
  - rewrite (makeMove_battle h b move c t Hc Ht Hacc). simpl.
    rewrite applyBattle_length. by apply gridOk_applyBattle.
  - revert Hacc. unfold makeMove. rewrite Hc, Ht.
    destruct (isValidIn _ _); simpl; [|done]. intros _.
    apply gridOk_setCell; [done|]. apply gridOk_setCell; [|done].
    by apply Nat.ltb_lt.
Qed.

(** The positions used to run the code are well formed. *)
Lemma positions_wellformed :
  Forall (fun p : Heap * GameBoard =>
            boardOk (fst p) (snd p) && ownersOk (fst p) && winnerOk (snd p)
            = true)
    [Positions.policeDuel; Positions.flagInReach; Positions.twoPreys;
     Positions.policeScout; Positions.hiddenColonel;
     Positions.hiddenEngineer].
Proof. repeat constructor. Qed.
End WellFormed.

(** Whatever the board, a battle played on the clone reaches the units of
    the original: the defender, still in its cell of the original grid,
    ends revealed. *)
Lemma clone_move_reveals_original (h : Heap) (b : GameBoard) (move : Move)
    (c t : nat) :
  boardOk h b = true →
  getCharacter b (fromPos move) = Some c →
  getCharacter b (toPos move) = Some t →
  snd (makeMove (fst (clone h b)) (snd (clone h b)) move) = true →
  isRevealed
    (fst (fst (makeMove (fst (clone h b)) (snd (clone h b)) move)) !!! t)
  = true.
Proof.
  intros Hok Hc Ht. pose proof (boardOk_getCharacter h b _ t Hok Ht) as Hlt.
  rewrite clone_spec. simpl. intros Hacc.
  refine (proj2 (makeMove_battle_reveals_both _ b move c t Hc Ht _ Hacc)).
  rewrite length_app. lia.
Qed.

(** *** C10: the opening state *)

(** C10: a board just built has [currentPlayer = 1], [gameOver = false],
    [winner = null] and [lastBattle = null], and [setupBoard] leaves these
    four fields alone, whatever the shuffles draw; so the first move that
    [makeMove] accepts is made by a unit of player 1. *)
Theorem new_board_player_moves_first (h : Heap) (rndAi rndPl : nat → nat)
    (playerPositions : option (list nat)) :
  let b := snd (GameBoard_new h) in
  let h' := fst (GameBoard_new h) in
  let b' := setupBoard rndAi rndPl playerPositions b in
  (currentPlayer b = 1 ∧ gameOver b = false
   ∧ winner b = None ∧ lastBattle b = None)
  ∧ (currentPlayer b' = 1 ∧ gameOver b' = false
     ∧ winner b' = None ∧ lastBattle b' = None)
  ∧ (∀ move c, getCharacter b' (fromPos move) = Some c →
               snd (makeMove h' b' move) = true →
               playerId (h' !!! c) = 1).
Proof.
  cbv zeta. split_and!; try done.
  intros move c Hc Hok. apply makeMove_ok in Hok.
  apply getValidMoves_mover in Hok as (r & Hr & _ & _ & Hp).
  rewrite Hc in Hr. by simplify_eq.
Qed.

(** *** C8: the projection shown to a player *)

Section Projection.
Implicit Types (h : Heap) (b : GameBoard) (forPlayer : Z).

Lemma viewCell_agree forPlayer h1 h2 (x1 x2 : Cell) :
  cellsAgree forPlayer h1 h2 x1 x2 = true →
  viewCell h1 forPlayer x1 = viewCell h2 forPlayer x2.
Proof.
  destruct x1 as [r1|], x2 as [r2|]; simpl; try done.
  unfold sameToViewer. rewrite !andb_true_iff.
  intros [[[Hp Ha] Hr] Ht].
  apply Z.eqb_eq in Hp. apply eqb_prop in Ha, Hr.
  unfold name, typeName, priority. rewrite <-Hp, <-Ha, <-Hr.
  destruct (_ || _); [|done].
  apply bool_decide_eq_true in Ht. by rewrite Ht.
Qed.

Lemma lookup_map {A B : Type} (f : A → B) (l : list A) (i : nat) :
  map f l !! i = f <$> l !! i.
Proof. exact (list_lookup_fmap f l i). Qed.

Lemma getBoardState_cell h b forPlayer (r c : nat) :
  (r < Z.to_nat ROWS)%nat → (c < Z.to_nat COLS)%nat →
  getBoardState h b forPlayer !! r ≫= (.!! c)
    = Some (viewCell h forPlayer (cellAt (board b) r c)).
Proof.
  intros Hr Hc. unfold getBoardState.
  rewrite lookup_map, lookup_seq_lt by done. simpl.
  do 7 (destruct c as [|c]; [done|]).
  change (Z.to_nat COLS) with 7%nat in Hc. lia.
Qed.
End Projection.

(** C8: [getBoardState(forPlayer)] is a 9x7 grid whose cell is empty for an
    empty cell, the full record (name, kind tag, owner, alive, revealed,
    priority) for a unit that [forPlayer] owns or that is revealed, and for
    any other unit the placeholder that depends on its owner and on
    [isAlive] only; and two boards that agree for [forPlayer] (in
    particular, boards that differ only in the kinds of units hidden from
    [forPlayer]) have the same projection. *)
Theorem getBoardState_hides_kinds (forPlayer : Z) (h1 : Heap) (b1 : GameBoard)
    (h2 : Heap) (b2 : GameBoard) :
  agreeFor forPlayer h1 b1 h2 b2 = true →
  (∀ r c : nat, (r < 9)%nat → (c < 7)%nat →
     getBoardState h1 b1 forPlayer !! r ≫= (.!! c)
       = Some (match cellAt (board b1) r c with
               | None => None
               | Some u =>
                 let character := h1 !!! u in
                 if (playerId character =? forPlayer) || isRevealed character
                 then Some (mkCellView (name character) (typeName character)
                              (playerId character) (isAlive character)
                              (isRevealed character)
                              (Some (priority character)))
                 else Some (hiddenView (playerId character)
                              (isAlive character))
               end))
  ∧ getBoardState h1 b1 forPlayer = getBoardState h2 b2 forPlayer.
Proof.
  intros Hagree. split.
  - intros r c Hr Hc. by rewrite getBoardState_cell.
  - unfold agreeFor in Hagree. rewrite forallb_forall in Hagree.
    unfold getBoardState. apply map_ext_in. intros r Hr.
    specialize (Hagree r Hr). rewrite forallb_forall in Hagree.
    apply map_ext_in. intros c Hc. by apply viewCell_agree, Hagree.
Qed.

(** The AI's hidden colonel and its hidden engineer look the same to the
    player. *)
Lemma getBoardState_colonel_engineer :
  agreeFor 1 (fst Positions.hiddenColonel) (snd Positions.hiddenColonel)
    (fst Positions.hiddenEngineer) (snd Positions.hiddenEngineer) = true
  ∧ type (fst Positions.hiddenColonel !!! Positions.aiUnit Positions.iCOLONEL)
    = COLONEL
  ∧ type (fst Positions.hiddenEngineer !!! Positions.aiUnit Positions.iENGINEER)
    = ENGINEER
  ∧ getBoardState (fst Positions.hiddenColonel) (snd Positions.hiddenColonel) 1
    = getBoardState (fst Positions.hiddenEngineer) (snd Positions.hiddenEngineer) 1.
Proof.
  split; [reflexivity|]. split; [reflexivity|]. split; [reflexivity|].
  apply (getBoardState_hides_kinds 1 (fst Positions.hiddenColonel)
           (snd Positions.hiddenColonel) (fst Positions.hiddenEngineer)
           (snd Positions.hiddenEngineer)). reflexivity.
Defined.

(** ** ai/basicAI.js *)

Section Heuristic.
Import BasicAI.
Implicit Types (h : Heap) (b : GameBoard) (l : list WinningMove).

Lemma head_insertSorted (a : WinningMove) l :
  head (insertSorted a l) =
    match head l with
    | None => Some a
    | Some m => if snd m <=? snd a then Some a else Some m
    end.
Proof.
  destruct l as [|m l]; simpl; [done|].
  replace (snd m - snd a <=? 0) with (snd m <=? snd a)
    by (apply eq_true_iff_eq; rewrite !Z.leb_le; lia).
  by destruct (snd m <=? snd a).
Qed.

Lemma sortByPriority_nil l : sortByPriority l = [] → l = [].
Proof.
  destruct l as [|a l]; [done|]. simpl.
  destruct (sortByPriority l) as [|m s]; simpl; [done|].
  by destruct (_ <=? _).
Qed.

(** The head of the sorted array is the first entry, in the order of
    the array before the sort, that carries the greatest value. *)
Lemma head_sortByPriority l m :
  head (sortByPriority l) = Some m →
  ∃ before after,
    l = before ++ m :: after
    ∧ (∀ x, x ∈ before → snd x < snd m)
    ∧ (∀ x, x ∈ after → snd x ≤ snd m).
Proof.
  revert m. induction l as [|a l IH]; intros m; simpl; [done|].
  rewrite head_insertSorted.
  destruct (head (sortByPriority l)) as [m'|] eqn:Hhead.
  - destruct (IH m' eq_refl) as (before & after & -> & Hb & Ha).
    destruct (snd m' <=? snd a) eqn:Hle; intros [= <-].
    + apply Z.leb_le in Hle. exists [], (before ++ m' :: after).
      split_and!; [done|by intros x ?%elem_of_nil|].
      intros x [Hx|Hx]%elem_of_app.
      * specialize (Hb x Hx). lia.
      * apply elem_of_cons in Hx as [->|Hx]; [done|].
        specialize (Ha x Hx). lia.
    + apply Z.leb_gt in Hle. exists (a :: before), after.
      split_and!; [done| |done].
      intros x [->|Hx]%elem_of_cons; [done|]. by apply Hb.
  - intros [= <-]. exists [], [].
    destruct (sortByPriority l) as [|? ?] eqn:Hs; [|done].
    apply sortByPriority_nil in Hs as ->.
    split_and!; [done|by intros x ?%elem_of_nil..].
Qed.

Lemma head_sortByPriority_is_Some l :
  l ≠ [] → is_Some (head (sortByPriority l)).
Proof.
  intros Hl. destruct (sortByPriority l) as [|m s] eqn:Hs; [|by eexists].
  by apply sortByPriority_nil in Hs.
Qed.

Lemma laterStore_refl h : laterStore h h.
Proof. by intros x. Qed.

Lemma laterStore_resolveBattle h h' a t :
  laterStore h h' → laterStore h (fst (resolveBattle h' a t)).
Proof.
  intros Hl x. destruct (Hl x) as [Hty Hrev].
  destruct (resolveBattle_frame h' a t x) as (Hty' & _ & _).
  split; [congruence|].
  intros Hx. by apply resolveBattle_revealed_mono, Hrev.
Qed.

Lemma resolveBattle_result_later h h' a t :
  laterStore h h' →
  snd (resolveBattle h' a t) = snd (resolveBattle h a t).
Proof.
  intros Hl. rewrite !resolveBattle_result.
  destruct (Hl a) as [Ha _], (Hl t) as [Ht _].
  unfold resolveSpecialBattle, resolveGeneralBattle, priority.
  by rewrite Ha, Ht.
Qed.

Lemma winningStep_entries h b allMoves h' acc item :
  laterStore h h' → item ∈ allMoves →
  (∀ e, e ∈ acc → winningEntry h b allMoves e) →
  laterStore h (fst (winningStep b (h', acc) item))
  ∧ ∀ e, e ∈ snd (winningStep b (h', acc) item) →
         winningEntry h b allMoves e.
Proof.
  intros Hl Hin Hacc. destruct item as [pos move]. unfold winningStep.
  destruct (getCharacter b pos) as [a|] eqn:Ha; [|done].
  destruct (getCharacter b (toPos move)) as [t|] eqn:Ht; [|done].
  pose proof (laterStore_resolveBattle h h' a t Hl) as Hl'.
  pose proof (resolveBattle_result_later h h' a t Hl) as Hres.
  destruct (resolveBattle h' a t) as [h1 res]. simpl in *. subst res.
  destruct (attackerWins _) eqn:Hwin; [|done]. simpl.
  split; [done|]. intros e [He|He]%elem_of_app; [by apply Hacc|].
  apply list_elem_of_singleton in He as ->.
  exists pos, a, t. simpl. split_and!; try done.
  destruct (Hl' t) as [Hty Hrev]. unfold priority. rewrite Hty.
  destruct (isRevealed (h1 !!! t)) eqn:Hr; [by left|right].
  split; [done|]. destruct (isRevealed (h !!! t)); [|done].
  specialize (Hrev eq_refl). congruence.
Qed.

Lemma findWinningBattles_entries h b allMoves e :
  e ∈ snd (findWinningBattles h b allMoves) → winningEntry h b allMoves e.
Proof.
  unfold findWinningBattles.
  assert (∀ items h' acc,
    (∀ i, i ∈ items → i ∈ allMoves) → laterStore h h' →
    (∀ e, e ∈ acc → winningEntry h b allMoves e) →
    ∀ e, e ∈ snd (fold_left (winningStep b) items (h', acc)) →
         winningEntry h b allMoves e) as Hfold.
  { induction items as [|item items IH]; intros h' acc Hsub Hl Hacc; [done|].
    cbn [fold_left].
    destruct (winningStep_entries h b allMoves h' acc item Hl) as [Hl' Hacc'];
      [apply Hsub; left|done|].
    destruct (winningStep b (h', acc) item) as [h1 acc1]. cbn [fst snd] in *.
    apply IH; [|done..]. intros i Hi. apply Hsub. by right. }
  apply Hfold; [done|apply laterStore_refl|by intros ? ?%elem_of_nil].
Qed.
End Heuristic.

(** *** C6: the guaranteed-win class *)

(** C6, as stated, fails: the AI's captain can win against two shown
    units, the second lieutenant (priority 11) above it and the corporal
    (priority 14) below it; there is no flag to capture, and the agent
    attacks the corporal, the target of highest priority number, not the
    stronger second lieutenant of lowest priority number. *)
Lemma getMove_picks_highest_number :
  let '(h, b) := Positions.twoPreys in
  let lieutenant := Positions.playerUnit Positions.iSECOND_LT in
  let corporal := Positions.playerUnit Positions.iCORPORAL in
  let up := mkMove (Positions.at_ 4 3) (Positions.at_ 3 3) in
  let down := mkMove (Positions.at_ 4 3) (Positions.at_ 5 3) in
  let allMoves := getAllValidMoves h b 0 in
  BasicAI.findFlagCaptureMoves h b allMoves = []
  ∧ snd (BasicAI.findWinningBattles h b allMoves) = [(up, 11); (down, 14)]
  ∧ getCharacter b (toPos up) = Some lieutenant
  ∧ getCharacter b (toPos down) = Some corporal
  ∧ isRevealed (h !!! lieutenant) = true ∧ priority (h !!! lieutenant) = 11
  ∧ isRevealed (h !!! corporal) = true ∧ priority (h !!! corporal) = 14
  ∧ snd (BasicAI.getMove 0 0 h b) = Some down.
Proof. vm_compute. by split_and!. Qed.

(** ** Invariants of play *)

Section Invariants.
Implicit Types (h : Heap) (b : GameBoard) (move : Move).

Lemma ownersOk_lookup h r :
  ownersOk h = true → (r < length h)%nat →
  playerId (h !!! r) = 0 ∨ playerId (h !!! r) = 1.
Proof.
  unfold ownersOk. rewrite forallb_forall. intros Hall Hr.
  destruct (lookup_lt_is_Some_2 h r Hr) as [c Hc].
  rewrite (list_lookup_total_correct _ _ _ Hc).
  specialize (Hall c). rewrite <-list_elem_of_In in Hall.
  specialize (Hall (list_elem_of_lookup_2 _ _ _ Hc)).
  apply orb_true_iff in Hall as [?%Z.eqb_eq | ?%Z.eqb_eq]; auto.
Qed.

Lemma ownersOk_alter (f : Character → Character) r h :
  (∀ c, playerId (f c) = playerId c) →
  ownersOk (alter f r h) = ownersOk h.
Proof.
  intros Hf. unfold ownersOk. revert r.
  induction h as [|c h IH]; intros [|r]; simpl; try done.
  - by rewrite Hf.
  - f_equal. apply IH.
Qed.

Lemma ownersOk_reveal r h : ownersOk (reveal r h) = ownersOk h.
Proof. by apply ownersOk_alter. Qed.
Lemma ownersOk_kill r h : ownersOk (kill r h) = ownersOk h.
Proof. by apply ownersOk_alter. Qed.

Lemma ownersOk_resolveBattle h a t :
  ownersOk (fst (resolveBattle h a t)) = ownersOk h.
Proof.
  rewrite resolveBattle_store. repeat case_match; auto using ownersOk_reveal.
Qed.

Lemma ownersOk_applyBattle h b move c t :
  ownersOk (fst (applyBattle h b move c t)) = ownersOk h.
Proof.
  rewrite applyBattle_store. cbv zeta. rewrite !ownersOk_reveal.
  repeat case_match; rewrite ?ownersOk_kill; apply ownersOk_resolveBattle.
Qed.


Lemma winnerOk_fields b b' :
  gameOver b' = gameOver b → winner b' = winner b → winnerOk b' = winnerOk b.
Proof. unfold winnerOk. by intros -> ->. Qed.

(** [makeMove] keeps both invariants. *)
Lemma makeMove_invariant h b move :
  ownersOk h = true → winnerOk b = true →
  ownersOk (fst (fst (makeMove h b move))) = true
  ∧ winnerOk (snd (fst (makeMove h b move))) = true.
Proof.
  intros Hh Hb.
  destruct (snd (makeMove h b move)) eqn:Hok;
    [|by rewrite (makeMove_rejected h b move Hok)].
  pose proof Hok as Hin. apply makeMove_ok in Hin.
  apply getValidMoves_mover in Hin as (c & Hc & Halive & _).
  apply alive_in_store in Halive.
  destruct (getCharacter b (toPos move)) as [t|] eqn:Ht.
  - rewrite (makeMove_battle h b move c t Hc Ht Hok). simpl.
    rewrite ownersOk_applyBattle. split; [done|].
    destruct (applyBattle_outcome h b move c t) as [Hg Hw].
    cbv zeta in Hg, Hw.
    destruct (applyBattle_frame h b move c t c) as [_ Hp].
    rewrite Hp in Hw. unfold winnerOk. simpl. rewrite Hg, Hw.
    destruct (_ && _); [|done].
    destruct (ownersOk_lookup h c Hh Halive) as [-> | ->]; done.
  - revert Hok. unfold makeMove. rewrite Hc, Ht.
    destruct (isValidIn _ _); simpl; [|done]. done.
Qed.
End Invariants.

(** ** ai/mctsAI.js *)

Section Playout.
Import MCTSAI.
Implicit Types (h : Heap) (rnd : nat → nat).

End Playout.

(** *** C9: the playout is capped and reports draws *)



(** * Further properties of the engine *)

(** ** rules.js: the outcome table *)

(** Exchanging attacker and defender exchanges who survives, for every
    pair of kinds but one: a flag attacked by a flag is captured whichever
    side attacks (the flag test of [resolveSpecialBattle] looks at the
    defender only). *)
Theorem resolveBattle_swap (h : Heap) (a d : nat) :
  let there := snd (resolveBattle h a d) in
  let back := snd (resolveBattle h d a) in
  if type_is (type (h !!! a)) FLAG && type_is (type (h !!! d)) FLAG
  then attackerWins there = true ∧ attackerWins back = true
  else attackerSurvives there = defenderSurvives back
       ∧ defenderSurvives there = attackerSurvives back.
Proof.
  cbv zeta. rewrite !resolveBattle_result.
  unfold resolveSpecialBattle, resolveGeneralBattle, priority.
  destruct (type (h !!! a)), (type (h !!! d)); vm_compute; done.
Qed.

(** No battle leaves both units alive, and both die exactly when the two
    priorities are equal and the defender is no flag. *)
Theorem resolveBattle_casualties (h : Heap) (a d : nat) :
  let result := snd (resolveBattle h a d) in
  attackerSurvives result && defenderSurvives result = false
  ∧ (bothDie result = true ↔
       priority (h !!! a) = priority (h !!! d) ∧ type (h !!! d) ≠ FLAG).
Proof.
  cbv zeta. rewrite !resolveBattle_result.
  unfold resolveSpecialBattle, resolveGeneralBattle, priority.
  destruct (type (h !!! a)), (type (h !!! d)); vm_compute;
    intuition congruence.
Qed.

(** Against the fourteen ordinary ranks, the monkey king survives exactly
    the five top ranks, whichever side attacks; against the other nine it
    dies and they survive. *)
Theorem wukong_battle (h : Heap) (wukong other : nat) :
  isWukong (type (h !!! wukong)) = true →
  isSpecial (h !!! other) = false →
  let top := includes topRanks (type (h !!! other)) in
  snd (resolveBattle h wukong other) = BattleResult_new top (negb top)
  ∧ snd (resolveBattle h other wukong) = BattleResult_new (negb top) top
  ∧ (top = true ↔ priority (h !!! other) ≤ 5).
Proof.
  intros Hw Ho. cbv zeta. rewrite !resolveBattle_result.
  unfold resolveSpecialBattle, resolveGeneralBattle, priority, isSpecial in *.
  destruct (type (h !!! wukong)); try discriminate Hw;
    destruct (type (h !!! other)); try discriminate Ho;
    vm_compute; intuition congruence.
Qed.

(** The AI's first monkey king and the player's field marshal. *)
Lemma wukong_battle_marshal :
  let h := fst (GameBoard_new []) in
  let wukong := Positions.aiUnit 17 in
  let other := Positions.playerUnit 0 in
  isWukong (type (h !!! wukong)) = true
  ∧ isSpecial (h !!! other) = false
  ∧ snd (resolveBattle h wukong other) = BattleResult_new true false
  ∧ snd (resolveBattle h other wukong) = BattleResult_new false true
  ∧ (true = true ↔ priority (h !!! other) ≤ 5).
Proof.
  split; [reflexivity|]. split; [reflexivity|].
  apply (wukong_battle (fst (GameBoard_new [])) (Positions.aiUnit 17)
           (Positions.playerUnit 0)); reflexivity.
Defined.

(** ** board.js: move generation *)

Section MoveGeneration.
Implicit Types (h : Heap) (b : GameBoard) (pos : Position) (m : Move).

Lemma manhattan_direction pos (q : Position) :
  manhattan q pos = 1 →
  ∃ d, d ∈ directions ∧ q = mkPosition (row pos + fst d) (col pos + snd d).
Proof.
  unfold manhattan, directions. destruct pos as [r c], q as [r' c']. simpl.
  intros Hm.
  assert ((r' = r - 1 ∧ c' = c) ∨ (r' = r + 1 ∧ c' = c)
          ∨ (r' = r ∧ c' = c - 1) ∨ (r' = r ∧ c' = c + 1))
    as [[-> ->]|[[-> ->]|[[-> ->]|[-> ->]]]] by lia.
  - exists (-1, 0). split; [repeat constructor|]. simpl. f_equal; lia.
  - exists (1, 0). split; [repeat constructor|]. simpl. f_equal; lia.
  - exists (0, -1). split; [repeat constructor|]. simpl. f_equal; lia.
  - exists (0, 1). split; [repeat constructor|]. simpl. f_equal; lia.
Qed.

Lemma direction_manhattan pos (d : Z * Z) :
  d ∈ directions →
  manhattan (mkPosition (row pos + fst d) (col pos + snd d)) pos = 1.
Proof.
  unfold directions, manhattan. intros Hd. simpl.
  repeat (apply elem_of_cons in Hd as [-> | Hd]; [simpl; lia|]).
  by apply elem_of_nil in Hd.
Qed.

(** A destination that passes the tests of the loop is listed. *)
Lemma getValidMoves_complete h b pos r (q : Position) :
  getCharacter b pos = Some r →
  isAlive (h !!! r) = true → canMove (h !!! r) = true →
  playerId (h !!! r) = currentPlayer b →
  isValidPosition q = true → manhattan q pos = 1 →
  match getCharacter b q with
  | Some t => playerId (h !!! t) ≠ playerId (h !!! r)
  | None => True
  end →
  mkMove pos q ∈ getValidMoves h b pos.
Proof.
  intros Hr Ha Hc Hp Hv Hm Ht. unfold getValidMoves.
  rewrite Hr, Ha, Hc, Hp, Z.eqb_refl. cbn [negb].
  destruct (manhattan_direction pos q Hm) as (d & Hd & ->).
  apply list_elem_of_In, in_flat_map. exists d.
  split; [by apply list_elem_of_In|].
  rewrite Hv. cbn [negb].
  destruct (getCharacter b (mkPosition _ _)) as [t|]; [|apply in_eq].
  apply Z.eqb_neq in Ht. rewrite Hp in Ht. rewrite Ht. apply in_eq.
Qed.

Lemma flat_map_length_le {A B : Type} (f : A → list B) (l : list A) :
  (∀ x, (length (f x) ≤ 1)%nat) → (length (flat_map f l) ≤ length l)%nat.
Proof.
  intros Hf. induction l as [|x l IH]; simpl; [lia|].
  rewrite length_app. specialize (Hf x). lia.
Qed.

Lemma getValidMoves_length h b pos :
  (length (getValidMoves h b pos) ≤ 4)%nat.
Proof.
  unfold getValidMoves.
  destruct (getCharacter b pos) as [r|]; [|simpl; lia].
  destruct (negb (isAlive (h !!! r))); [simpl; lia|].
  destruct (negb (canMove (h !!! r))); [simpl; lia|].
  destruct (negb (playerId (h !!! r) =? currentPlayer b)); [simpl; lia|].
  change 4%nat with (length directions). apply flat_map_length_le.
  intros d. repeat case_match; simpl; lia.
Qed.

Lemma allPositions_valid pos :
  pos ∈ allPositions ↔ isValidPosition pos = true.
Proof.
  unfold allPositions, isValidPosition, ROWS, COLS.
  rewrite list_elem_of_In, in_flat_map. split.
  - intros (r & Hr & Hin). apply in_map_iff in Hin as (c & <- & Hc).
    apply in_seq in Hr, Hc. simpl in *.
    rewrite !andb_true_iff, !Z.leb_le, !Z.ltb_lt. lia.
  - rewrite !andb_true_iff, !Z.leb_le, !Z.ltb_lt. intros [[[? ?] ?] ?].
    exists (Z.to_nat (row pos)). split; [apply in_seq; simpl; lia|].
    apply in_map_iff. exists (Z.to_nat (col pos)).
    split; [|apply in_seq; simpl; lia].
    destruct pos as [r c]. simpl in *. f_equal; lia.
Qed.

Lemma getCharacter_valid b pos r :
  getCharacter b pos = Some r → isValidPosition pos = true.
Proof. unfold getCharacter. by destruct (isValidPosition pos). Qed.
End MoveGeneration.

(** [getValidMoves(pos)] lists exactly the moves from [pos] to an
    orthogonal neighbour on the board that is empty or held by a unit of
    another owner, provided [pos] holds a living unit of the player to move
    that is neither flag nor bomb; otherwise it lists nothing.  It never
    lists more than four moves. *)
Theorem getValidMoves_exactly (h : Heap) (b : GameBoard) (pos : Position)
    (m : Move) :
  (m ∈ getValidMoves h b pos ↔
     ∃ r, getCharacter b pos = Some r
          ∧ isAlive (h !!! r) = true
          ∧ type (h !!! r) ≠ FLAG ∧ type (h !!! r) ≠ BOMB_1
          ∧ type (h !!! r) ≠ BOMB_2
          ∧ playerId (h !!! r) = currentPlayer b
          ∧ fromPos m = pos
          ∧ isValidPosition (toPos m) = true
          ∧ manhattan (toPos m) pos = 1
          ∧ match getCharacter b (toPos m) with
            | Some t => playerId (h !!! t) ≠ playerId (h !!! r)
            | None => True
            end)
  ∧ (length (getValidMoves h b pos) ≤ 4)%nat.
Proof.
  split; [|apply getValidMoves_length]. split.
  - intros Hin.
    pose proof (getValidMoves_fromPos h b pos m Hin) as Hfrom.
    destruct (getValidMoves_mover h b pos m Hin) as (r & Hr & Ha & Hc & Hp).
    destruct (getValidMoves_target h b pos m Hin)
      as (Hv & (d & Hd & Hto) & Hother).
    exists r. unfold canMove in Hc.
    rewrite !andb_true_iff, !negb_true_iff in Hc.
    destruct Hc as [[Hf Hb1] Hb2].
    apply bool_decide_eq_false in Hf, Hb1, Hb2.
    split_and!; try done.
    + rewrite Hto. by apply direction_manhattan.
    + destruct (getCharacter b (toPos m)) as [t|] eqn:Ht; [|done].
      by apply Hother.
  - intros (r & Hr & Ha & Hf & Hb1 & Hb2 & Hp & Hfrom & Hv & Hm & Ht).
    destruct m as [from to]. simpl in *. subst from.
    apply (getValidMoves_complete h b pos r to); try done.
    unfold canMove. rewrite !andb_true_iff, !negb_true_iff.
    split_and!; by apply bool_decide_eq_false.
Qed.

Lemma getAllValidMoves_elem (h : Heap) (b : GameBoard) (pid : Z)
    (pos : Position) (m : Move) :
  (pos, m) ∈ getAllValidMoves h b pid ↔
    m ∈ getValidMoves h b pos
    ∧ ∃ r, getCharacter b pos = Some r ∧ playerId (h !!! r) = pid.
Proof.
  unfold getAllValidMoves. rewrite list_elem_of_In, in_flat_map. split.
  - intros (p & _ & Hin).
    destruct (getCharacter b p) as [r|] eqn:Hr; [|done].
    destruct (isAlive (h !!! r)); simpl in Hin; [|done].
    destruct (playerId (h !!! r) =? pid) eqn:Hp; [|done].
    apply in_map_iff in Hin as (m' & [= -> ->] & Hm).
    split; [by apply list_elem_of_In|]. exists r.
    split; [done|]. by apply Z.eqb_eq.
  - intros [Hm (r & Hr & Hp)].
    destruct (getValidMoves_mover h b pos m Hm) as (r' & Hr' & Ha & _).
    rewrite Hr in Hr'. simplify_eq.
    exists pos. split.
    + apply list_elem_of_In, allPositions_valid.
      by eapply getCharacter_valid.
    + rewrite Hr, Ha, Z.eqb_refl. simpl. apply in_map.
      by apply list_elem_of_In.
Qed.

(** [getAllValidMoves(playerId)] pairs each origin with its moves: it
    lists [(pos, m)] exactly when [m] is one of [getValidMoves(pos)] and the
    unit at [pos] is owned by [playerId]; so it is empty for a player who is
    not to move. *)
Theorem getAllValidMoves_exactly (h : Heap) (b : GameBoard) (pid : Z)
    (pos : Position) (m : Move) :
  ((pos, m) ∈ getAllValidMoves h b pid ↔
     m ∈ getValidMoves h b pos
     ∧ ∃ r, getCharacter b pos = Some r ∧ playerId (h !!! r) = pid)
  ∧ (pid ≠ currentPlayer b → getAllValidMoves h b pid = []).
Proof.
  split; [apply getAllValidMoves_elem|]. intros Hne.
  destruct (getAllValidMoves h b pid) as [|[p m'] l] eqn:Hall; [done|].
  exfalso.
  assert ((p, m') ∈ getAllValidMoves h b pid) as Hin by (rewrite Hall; left).
  apply getAllValidMoves_elem in Hin as [Hm (r & Hr & Hp)].
  destruct (getValidMoves_mover h b p m' Hm) as (r' & Hr' & _ & _ & Hcp).
  rewrite Hr in Hr'. by simplify_eq.
Qed.

(** ** board.js: what a move does *)

Section MoveEffects.
Implicit Types (h : Heap) (b : GameBoard) (g : list (list Cell))
  (pos p q : Position) (move : Move) (c t x n : nat).

Lemma kill_other c x h : c ≠ x → kill c h !!! x = h !!! x.
Proof. intros Hne. unfold kill. by rewrite list_lookup_total_alter_ne. Qed.

Lemma isAlive_kill_mono c x h :
  isAlive (h !!! x) = false → isAlive (kill c h !!! x) = false.
Proof.
  intros Hx. unfold kill. rewrite list_lookup_total_alter. by case_decide.
Qed.

Lemma isAlive_kill_cases c x h :
  (c < length h)%nat →
  isAlive (kill c h !!! x) = (if decide (c = x) then false else isAlive (h !!! x)).
Proof.
  intros Hc. case_decide as Hd.
  - subst. by apply isAlive_kill_eq.
  - by rewrite kill_other.
Qed.

(** Reading a grid after one write. *)
Lemma cellAt_setCell_full n g pos (v : Cell) (r c' : nat) :
  gridOk n g = true → isValidPosition pos = true →
  cellAt (setCell g pos v) r c'
  = if decide (r = Z.to_nat (row pos) ∧ c' = Z.to_nat (col pos))
    then v else cellAt g r c'.
Proof.
  unfold gridOk, isValidPosition, ROWS, COLS.
  rewrite !andb_true_iff, !Z.leb_le, !Z.ltb_lt, Nat.eqb_eq.
  intros [Hlen Hrows] [[[? ?] ?] ?].
  destruct (lookup_lt_is_Some_2 g (Z.to_nat (row pos))) as [cells Hcells];
    [lia|].
  assert (length cells = 7%nat) as Hl.
  { rewrite forallb_forall in Hrows.
    apply list_elem_of_lookup_2, list_elem_of_In, Hrows in Hcells.
    apply andb_true_iff in Hcells as [Hl _]. by apply Nat.eqb_eq in Hl. }
  unfold cellAt, setCell. rewrite list_lookup_alter.
  case_decide as Hr.
  - subst r. rewrite Hcells. simpl.
    destruct (decide (c' = Z.to_nat (col pos))) as [->|Hne].
    + rewrite decide_True by done.
      rewrite list_lookup_insert_eq by lia. done.
    + rewrite decide_False by (by intros [_ ?]).
      by rewrite list_lookup_insert_ne.
  - rewrite decide_False by (intros [? _]; congruence). done.
Qed.

Lemma getCharacter_board b b' q :
  board b = board b' → getCharacter b q = getCharacter b' q.
Proof. unfold getCharacter. by intros ->. Qed.

Lemma getCharacter_write n g b p (v : Cell) q :
  gridOk n g = true → isValidPosition p = true →
  getCharacter (set_board (setCell g p v) b) q
  = if decide (p = q) then v else getCharacter (set_board g b) q.
Proof.
  intros Hg Hp. unfold getCharacter. simpl.
  destruct (isValidPosition q) eqn:Hq; simpl.
  - rewrite (cellAt_setCell_full n) by done.
    unfold isValidPosition in Hp, Hq.
    rewrite !andb_true_iff, !Z.leb_le in Hp, Hq.
    destruct p as [pr pc], q as [qr qc]. simpl in *.
    destruct (decide (mkPosition pr pc = mkPosition qr qc)) as [[= -> ->]|Hne].
    + by rewrite decide_True.
    + rewrite decide_False; [done|]. intros [? ?]. apply Hne. f_equal; lia.
  - rewrite decide_False; [done|]. intros ->. congruence.
Qed.

(** The grid a battle leaves. *)
Lemma applyBattle_board h b move c t :
  board (snd (applyBattle h b move c t)) =
    let result := snd (resolveBattle h c t) in
    let g1 := if attackerSurvives result then board b
              else setCell (board b) (fromPos move) None in
    let g2 := if defenderSurvives result then g1
              else setCell g1 (toPos move) None in
    if attackerSurvives result then
      if Position_equals (fromPos move) (toPos move)
      then setCell g2 (toPos move) (Some c)
      else setCell (setCell g2 (toPos move) (Some c)) (fromPos move) None
    else g2.
Proof.
  unfold applyBattle.
  destruct (resolveBattle h c t) as [h1 [sa sd ra rd]].
  destruct sa, sd, ra, rd; cbn -[reveal kill setCell];
    repeat (case_match; cbn -[reveal kill setCell]); done.
Qed.

Lemma applyBattle_lastBattle h b move c t :
  lastBattle (snd (applyBattle h b move c t)) =
    Some (mkBattleLog (name (h !!! c)) (name (h !!! t))
            (attackerSurvives (snd (resolveBattle h c t)))
            (defenderSurvives (snd (resolveBattle h c t))) true true).
Proof.
  destruct (resolveBattle_flags h c t) as [Hra Hrd].
  destruct (resolveBattle_frame h c t c) as (Htc & _ & _).
  destruct (resolveBattle_frame h c t t) as (Htt & _ & _).
  revert Hra Hrd Htc Htt. unfold applyBattle, name.
  destruct (resolveBattle h c t) as [h1 [sa sd ra rd]].
  cbn [fst snd attackerRevealed defenderRevealed attackerSurvives
       defenderSurvives].
  intros -> -> -> ->.
  destruct sa, sd; cbn -[reveal kill setCell];
    repeat (case_match; cbn -[reveal kill setCell]); done.
Qed.

(** A battle changes no unit but its two participants; the dead stay dead
    and the revealed stay revealed. *)
Lemma applyBattle_units h b move c t x :
  (isAlive (h !!! x) = false →
   isAlive (fst (applyBattle h b move c t) !!! x) = false)
  ∧ (isRevealed (h !!! x) = true →
     isRevealed (fst (applyBattle h b move c t) !!! x) = true)
  ∧ (x ≠ c → x ≠ t → fst (applyBattle h b move c t) !!! x = h !!! x).
Proof.
  rewrite applyBattle_store. cbv zeta.
  set (res := snd (resolveBattle h c t)).
  destruct (resolveBattle_frame h c t x) as (_ & _ & Halive).
  split_and!.
  - intros Hx. rewrite !isAlive_reveal.
    destruct (attackerSurvives res), (defenderSurvives res);
      repeat apply isAlive_kill_mono; congruence.
  - intros Hx. do 2 apply isRevealed_reveal_mono.
    destruct (attackerSurvives res), (defenderSurvives res);
      rewrite ?isRevealed_kill; by apply resolveBattle_revealed_mono.
  - intros Hc Ht. rewrite !reveal_other by done.
    assert (fst (resolveBattle h c t) !!! x = h !!! x) as Hsame.
    { rewrite resolveBattle_store. repeat case_match; try done;
        by apply reveal_other. }
    destruct (attackerSurvives res), (defenderSurvives res);
      rewrite ?kill_other by done; done.
Qed.

(** Who is alive after a battle between two distinct stored units. *)
Lemma applyBattle_alive h b move c t :
  c ≠ t → (c < length h)%nat → (t < length h)%nat →
  let result := snd (resolveBattle h c t) in
  isAlive (fst (applyBattle h b move c t) !!! c)
    = isAlive (h !!! c) && attackerSurvives result
  ∧ isAlive (fst (applyBattle h b move c t) !!! t)
    = isAlive (h !!! t) && defenderSurvives result.
Proof.
  intros Hne Hc Ht. cbv zeta. rewrite applyBattle_store. cbv zeta.
  set (res := snd (resolveBattle h c t)).
  destruct (resolveBattle_frame h c t c) as (_ & _ & Hac).
  destruct (resolveBattle_frame h c t t) as (_ & _ & Hat).
  pose proof (resolveBattle_length h c t) as Hlen.
  rewrite !isAlive_reveal.
  destruct (attackerSurvives res), (defenderSurvives res);
    rewrite ?isAlive_kill_cases by (rewrite ?length_kill; lia);
    rewrite ?decide_True by done; rewrite ?decide_False by done;
    rewrite ?isAlive_kill_cases by (rewrite ?length_kill; lia);
    rewrite ?decide_True by done; rewrite ?decide_False by done;
    rewrite ?Hac, ?Hat, ?andb_true_r, ?andb_false_r; done.
Qed.

(** The three shapes of a call of [makeMove]. *)
Lemma makeMove_cases h b move :
  makeMove h b move = (h, b, false)
  ∨ (∃ c, getCharacter b (fromPos move) = Some c
          ∧ getCharacter b (toPos move) = None
          ∧ move ∈ getValidMoves h b (fromPos move)
          ∧ makeMove h b move =
              (h,
               set_currentPlayer (1 - currentPlayer b)
                 (set_lastBattle None
                    (set_board
                       (setCell (setCell (board b) (toPos move) (Some c))
                          (fromPos move) None) b)),
               true))
  ∨ (∃ c t, getCharacter b (fromPos move) = Some c
            ∧ getCharacter b (toPos move) = Some t
            ∧ move ∈ getValidMoves h b (fromPos move)
            ∧ makeMove h b move =
                (fst (applyBattle h b move c t),
                 set_currentPlayer (1 - currentPlayer b)
                   (snd (applyBattle h b move c t)),
                 true)).
Proof.
  destruct (snd (makeMove h b move)) eqn:Hok;
    [|left; by apply makeMove_rejected].
  right. pose proof Hok as Hin. apply makeMove_ok in Hin.
  destruct (getValidMoves_mover h b _ move Hin) as (c & Hc & _).
  destruct (getCharacter b (toPos move)) as [t|] eqn:Ht.
  - right. exists c, t. split_and!; try done. by apply makeMove_battle.
  - left. exists c. split_and!; try done.
    revert Hok. unfold makeMove. rewrite Hc, Ht.
    by destruct (isValidIn _ _).
Qed.
End MoveEffects.

(** Whatever the move, accepted or not, [makeMove] keeps the number of
    units, their kinds and their owners; a dead unit stays dead and a
    revealed unit stays revealed; and a unit that stands neither on the
    origin nor on the destination is left exactly as it was. *)
Theorem makeMove_units_monotone (h : Heap) (b : GameBoard) (move : Move)
    (x : nat) :
  let h' := fst (fst (makeMove h b move)) in
  length h' = length h
  ∧ type (h' !!! x) = type (h !!! x)
  ∧ playerId (h' !!! x) = playerId (h !!! x)
  ∧ (isAlive (h !!! x) = false → isAlive (h' !!! x) = false)
  ∧ (isRevealed (h !!! x) = true → isRevealed (h' !!! x) = true)
  ∧ (getCharacter b (fromPos move) ≠ Some x →
     getCharacter b (toPos move) ≠ Some x →
     h' !!! x = h !!! x).
Proof.
  cbv zeta.
  destruct (makeMove_cases h b move)
    as [-> | [(c & Hc & Ht & _ & ->) | (c & t & Hc & Ht & _ & ->)]];
    cbn [fst snd]; try done.
  destruct (applyBattle_frame h b move c t x) as [Hty Hp].
  destruct (applyBattle_units h b move c t x) as (Ha & Hr & Hsame).
  split_and!; try done; [apply applyBattle_length|].
  intros Hx Hx'. apply Hsame; congruence.
Qed.

(** An accepted move onto an empty cell only relocates the unit: the
    store of units, [gameOver] and [winner] are unchanged, [lastBattle] is
    cleared, the destination holds the unit, the origin is empty and every
    other cell is as before. *)
Theorem makeMove_to_empty_cell (h : Heap) (b : GameBoard) (move : Move)
    (c : nat) :
  boardOk h b = true →
  getCharacter b (fromPos move) = Some c →
  getCharacter b (toPos move) = None →
  snd (makeMove h b move) = true →
  let '(h', b', _) := makeMove h b move in
  h' = h
  ∧ lastBattle b' = None ∧ gameOver b' = gameOver b ∧ winner b' = winner b
  ∧ getCharacter b' (toPos move) = Some c
  ∧ getCharacter b' (fromPos move) = None
  ∧ ∀ pos, pos ≠ fromPos move → pos ≠ toPos move →
           getCharacter b' pos = getCharacter b pos.
Proof.
  intros Hok Hc Ht Hacc.
  destruct (makeMove_cases h b move)
    as [Hrej | [(c' & Hc' & _ & Hin & Heq) | (c' & t & _ & Ht' & _)]];
    [by rewrite Hrej in Hacc| |congruence].
  rewrite Hc in Hc'. simplify_eq. rewrite Heq.
  destruct (getValidMoves_moves_away h b move Hin) as [Hfrom Hne].
  destruct (getValidMoves_target h b _ move Hin) as (Hto & _ & _).
  apply not_true_iff_false in Hne. rewrite Position_equals_eq in Hne.
  pose proof (boardOk_getCharacter h b _ c' Hok Hc) as Hlt.
  unfold boardOk in Hok.
  assert (gridOk (length h) (setCell (board b) (toPos move) (Some c')) = true)
    as Hok1 by (apply gridOk_setCell; [by apply Nat.ltb_lt|done]).
  assert (∀ q,
    getCharacter
      (set_currentPlayer (1 - currentPlayer b)
         (set_lastBattle None
            (set_board
               (setCell (setCell (board b) (toPos move) (Some c'))
                  (fromPos move) None) b))) q
    = if decide (fromPos move = q) then None
      else if decide (toPos move = q) then Some c' else getCharacter b q)
    as Hread.
  { intros q.
    rewrite (getCharacter_board _
               (set_board (setCell (setCell (board b) (toPos move) (Some c'))
                             (fromPos move) None) b)) by done.
    rewrite (getCharacter_write (length h)) by done.
    rewrite (getCharacter_write (length h)) by done.
    repeat case_decide; done. }
  split_and!; try done.
  - rewrite Hread. rewrite decide_False by done. by rewrite decide_True.
  - rewrite Hread. by rewrite decide_True.
  - intros pos Hp1 Hp2. rewrite Hread.
    rewrite decide_False by done. by rewrite decide_False.
Qed.

(** The player's sergeant steps aside, next to the AI's flag. *)
Lemma makeMove_to_empty_cell_sergeant :
  let h := fst Positions.flagInReach in
  let b := snd Positions.flagInReach in
  let move := mkMove (Positions.at_ 1 3) (Positions.at_ 1 4) in
  let c := Positions.playerUnit Positions.iSGT in
  boardOk h b = true
  ∧ getCharacter b (fromPos move) = Some c
  ∧ getCharacter b (toPos move) = None
  ∧ snd (makeMove h b move) = true
  ∧ let '(h', b', _) := makeMove h b move in
    h' = h
    ∧ lastBattle b' = None ∧ gameOver b' = gameOver b ∧ winner b' = winner b
    ∧ getCharacter b' (toPos move) = Some c
    ∧ getCharacter b' (fromPos move) = None
    ∧ ∀ pos, pos ≠ fromPos move → pos ≠ toPos move →
             getCharacter b' pos = getCharacter b pos.
Proof.
  cbv zeta.
  split; [reflexivity|]. split; [reflexivity|]. split; [reflexivity|].
  split; [reflexivity|].
  apply (makeMove_to_empty_cell (fst Positions.flagInReach)
           (snd Positions.flagInReach)
           (mkMove (Positions.at_ 1 3) (Positions.at_ 1 4))
           (Positions.playerUnit Positions.iSGT)); reflexivity.
Defined.

(** An accepted move onto an occupied cell is a battle resolved by
    [resolveBattle]: the attacker lives on exactly when the outcome says it
    survives, the defender stays alive only if it was and the outcome says
    so; the origin ends empty; the destination holds the attacker if it
    survives, else the defender if it survives, else nothing; every other
    cell is as before; and [lastBattle] records the two names and the
    outcome. *)
Theorem makeMove_battle_outcome (h : Heap) (b : GameBoard) (move : Move)
    (c t : nat) :
  boardOk h b = true →
  getCharacter b (fromPos move) = Some c →
  getCharacter b (toPos move) = Some t →
  snd (makeMove h b move) = true →
  let result := snd (resolveBattle h c t) in
  let '(h', b', _) := makeMove h b move in
  isAlive (h' !!! c) = attackerSurvives result
  ∧ isAlive (h' !!! t) = isAlive (h !!! t) && defenderSurvives result
  ∧ getCharacter b' (fromPos move) = None
  ∧ getCharacter b' (toPos move)
    = (if attackerSurvives result then Some c
       else if defenderSurvives result then Some t else None)
  ∧ (∀ pos, pos ≠ fromPos move → pos ≠ toPos move →
            getCharacter b' pos = getCharacter b pos)
  ∧ lastBattle b'
    = Some (mkBattleLog (name (h !!! c)) (name (h !!! t))
              (attackerSurvives result) (defenderSurvives result) true true).
Proof.
  intros Hok Hc Ht Hacc. cbv zeta.
  destruct (makeMove_cases h b move)
    as [Hrej | [(c' & _ & Ht' & _) | (c' & t' & Hc' & Ht' & Hin & Heq)]];
    [by rewrite Hrej in Hacc|congruence|].
  rewrite Hc in Hc'. rewrite Ht in Ht'. simplify_eq. rewrite Heq.
  destruct (getValidMoves_moves_away h b move Hin) as [Hfrom Hne].
  destruct (getValidMoves_target h b _ move Hin) as (Hto & _ & Hother).
  destruct (getValidMoves_mover h b _ move Hin) as (r & Hr & Halive & _).
  rewrite Hc in Hr. simplify_eq.
  specialize (Hother _ _ Hc Ht).
  assert (r ≠ t') as Hdiff by congruence.
  pose proof (boardOk_getCharacter h b _ r Hok Hc) as Hlr.
  pose proof (boardOk_getCharacter h b _ t' Hok Ht) as Hlt.
  destruct (applyBattle_alive h b move r t' Hdiff Hlr Hlt) as [Har Hat].
  rewrite Halive in Har.
  assert (∀ q,
    getCharacter
      (set_currentPlayer (1 - currentPlayer b) (snd (applyBattle h b move r t')))
      q
    = if decide (fromPos move = q) then None
      else if decide (toPos move = q)
           then (if attackerSurvives (snd (resolveBattle h r t')) then Some r
                 else if defenderSurvives (snd (resolveBattle h r t'))
                      then Some t' else None)
           else getCharacter b q) as Hread.
  { intros q. unfold boardOk in Hok.
    assert (cellOk (length h) (Some r) = true) as Hcr by by apply Nat.ltb_lt.
    rewrite (getCharacter_board _
               (set_board (board (snd (applyBattle h b move r t'))) b)) by done.
    rewrite applyBattle_board. cbv zeta. rewrite Hne.
    assert (fromPos move ≠ toPos move) as Hne'.
    { intros Heq'. apply not_true_iff_false in Hne. apply Hne.
      by apply Position_equals_eq. }
    destruct (attackerSurvives _), (defenderSurvives _);
      repeat (rewrite (getCharacter_write (length h))
                by auto using gridOk_setCell);
      repeat case_decide; try done; try congruence;
      try (by apply getCharacter_board).
    all: rewrite <-Ht; subst; by apply getCharacter_board. }
  split_and!.
  - done.
  - done.
  - rewrite Hread. by rewrite decide_True.
  - rewrite Hread. rewrite decide_False; [by rewrite decide_True|].
    intros Heq'. apply not_true_iff_false in Hne. apply Hne.
    by apply Position_equals_eq.
  - intros pos Hp1 Hp2. rewrite Hread.
    rewrite decide_False by done. by rewrite decide_False.
  - apply applyBattle_lastBattle.
Qed.

(** The player's military police attacks the AI's captain. *)
Lemma makeMove_battle_outcome_police :
  let h := fst Positions.policeDuel in
  let b := snd Positions.policeDuel in
  let move := Positions.policeAttack in
  let c := Positions.playerUnit Positions.iMP in
  let t := Positions.aiUnit Positions.iCAPTAIN in
  boardOk h b = true
  ∧ getCharacter b (fromPos move) = Some c
  ∧ getCharacter b (toPos move) = Some t
  ∧ snd (makeMove h b move) = true
  ∧ let result := snd (resolveBattle h c t) in
    let '(h', b', _) := makeMove h b move in
    isAlive (h' !!! c) = attackerSurvives result
    ∧ isAlive (h' !!! t) = isAlive (h !!! t) && defenderSurvives result
    ∧ getCharacter b' (fromPos move) = None
    ∧ getCharacter b' (toPos move)
      = (if attackerSurvives result then Some c
         else if defenderSurvives result then Some t else None)
    ∧ (∀ pos, pos ≠ fromPos move → pos ≠ toPos move →
              getCharacter b' pos = getCharacter b pos)
    ∧ lastBattle b'
      = Some (mkBattleLog (name (h !!! c)) (name (h !!! t))
                (attackerSurvives result) (defenderSurvives result) true true).
Proof.
  cbv zeta.
  split; [reflexivity|]. split; [reflexivity|]. split; [reflexivity|].
  split; [reflexivity|].
  apply (makeMove_battle_outcome (fst Positions.policeDuel)
           (snd Positions.policeDuel) Positions.policeAttack
           (Positions.playerUnit Positions.iMP)
           (Positions.aiUnit Positions.iCAPTAIN)); reflexivity.
Defined.

(** A game ends only by the capture of a flag and never resumes: after
    any call of [makeMove], [gameOver] is what it was, or true when the
    call was accepted and the destination held a flag; in that case the
    winner is the player who moved, and otherwise [winner] is unchanged. *)
Theorem makeMove_ends_only_by_flag (h : Heap) (b : GameBoard) (move : Move) :
  let '(h', b', ok) := makeMove h b move in
  let capture :=
    ok && match getCharacter b (toPos move) with
          | Some t => type_is (type (h !!! t)) FLAG
          | None => false
          end in
  gameOver b' = gameOver b || capture
  ∧ winner b' = (if capture then Some (currentPlayer b) else winner b).
Proof.
  destruct (makeMove_cases h b move)
    as [-> | [(c & Hc & Ht & _ & ->) | (c & t & Hc & Ht & Hin & ->)]].
  - cbv zeta. simpl. by rewrite orb_false_r.
  - cbv zeta. rewrite Ht. simpl. by rewrite orb_false_r.
  - cbv zeta. rewrite Ht. cbn [andb].
    destruct (getValidMoves_mover h b _ move Hin) as (r & Hr & _ & _ & Hp).
    rewrite Hc in Hr. simplify_eq.
    destruct (applyBattle_outcome h b move r t) as [Hg Hw].
    destruct (applyBattle_frame h b move r t t) as [Hty _].
    destruct (applyBattle_frame h b move r t r) as [_ Hpr].
    cbv zeta in Hg, Hw. simpl. rewrite Hg, Hw, Hty, Hpr, Hp.
    destruct (type_is (type (h !!! t)) FLAG) eqn:Hflag; simpl.
    + apply bool_decide_eq_true in Hflag.
      destruct (applyBattle_flag h b move r t Hflag) as (Hdead & _ & _).
      rewrite Hdead. simpl. by rewrite orb_true_r.
    + by rewrite orb_false_r.
Qed.

(** Play keeps the board well formed: after any call of [makeMove] the
    grid is still 9x7 with every cell empty or holding a stored unit, the
    units are still owned by player 0 or 1, a finished game still has
    player 0 or 1 as winner, and the player to move is still 0 or 1. *)
Theorem makeMove_keeps_wellformed (h : Heap) (b : GameBoard) (move : Move) :
  boardOk h b = true →
  ownersOk h = true →
  winnerOk b = true →
  currentPlayer b = 0 ∨ currentPlayer b = 1 →
  let '(h', b', ok) := makeMove h b move in
  boardOk h' b' = true
  ∧ ownersOk h' = true
  ∧ winnerOk b' = true
  ∧ (currentPlayer b' = 0 ∨ currentPlayer b' = 1)
  ∧ (ok = true → currentPlayer b' ≠ currentPlayer b).
Proof.
  intros Hb Ho Hw Hcp.
  pose proof (boardOk_makeMove h b move Hb) as Hb'.
  destruct (makeMove_invariant h b move Ho Hw) as [Ho' Hw'].
  pose proof (makeMove_turn h b move) as Hturn.
  pose proof (makeMove_rejected h b move) as Hrej.
  destruct (makeMove h b move) as [[h' b'] ok]. simpl in *.
  split_and!; try done.
  - destruct ok; [rewrite Hturn by done; lia|].
    specialize (Hrej eq_refl). by simplify_eq.
  - intros ->. rewrite Hturn by done. lia.
Qed.

(** The player's sergeant captures the AI's flag on a well-formed board. *)
Lemma makeMove_keeps_wellformed_capture :
  boardOk (fst Positions.flagInReach) (snd Positions.flagInReach) = true
  ∧ ownersOk (fst Positions.flagInReach) = true
  ∧ winnerOk (snd Positions.flagInReach) = true
  ∧ (currentPlayer (snd Positions.flagInReach) = 0
     ∨ currentPlayer (snd Positions.flagInReach) = 1)
  ∧ let '(h', b', ok) :=
      makeMove (fst Positions.flagInReach) (snd Positions.flagInReach)
        Positions.flagCapture in
    boardOk h' b' = true
    ∧ ownersOk h' = true
    ∧ winnerOk b' = true
    ∧ (currentPlayer b' = 0 ∨ currentPlayer b' = 1)
    ∧ (ok = true → currentPlayer b' ≠ currentPlayer (snd Positions.flagInReach)).
Proof.
  split; [reflexivity|]. split; [reflexivity|]. split; [reflexivity|].
  split; [right; reflexivity|].
  apply (makeMove_keeps_wellformed (fst Positions.flagInReach)
           (snd Positions.flagInReach) Positions.flagCapture);
    try reflexivity. right. reflexivity.
Defined.

(** ** board.js: the set-up *)

Section Setup.
Implicit Types (h : Heap) (b : GameBoard) (g : list (list Cell))
  (rnd : nat → nat) (array : list nat).

Lemma swap_Permutation array (i j : nat) : swap array i j ≡ₚ array.
Proof.
  unfold swap. destruct (array !! i) as [x|] eqn:Hi; [|done].
  destruct (array !! j) as [y|] eqn:Hj; [|done].
  by apply Permutation_insert_swap.
Qed.

Lemma shuffle_from_Permutation rnd (i : nat) array :
  shuffle_from rnd i array ≡ₚ array.
Proof.
  revert array. induction i as [|k IH]; intros array; simpl; [done|].
  rewrite IH. apply swap_Permutation.
Qed.

Lemma shuffle_Permutation rnd array : shuffle rnd array ≡ₚ array.
Proof. apply shuffle_from_Permutation. Qed.

(** The cell that the placement loop fills at index [idx]. *)
Lemma placeTeam_fold g (firstRow : Z) (positions : list nat) (team : list nat) :
  placeTeam g firstRow positions team =
    fold_left (fun g idx =>
        setCell g (mkPosition (firstRow + Z.of_nat (idx / 7)%nat)
                              (Z.of_nat (idx mod 7)%nat))
          (positions !! idx ≫= fun charIdx => team !! charIdx))
      (seq 0 21) g.
Proof. done. Qed.

Lemma fill_cells n b (firstRow : Z) (val : nat → Cell) (k : nat) g :
  0 ≤ firstRow ≤ 6 → gridOk n g = true →
  (∀ idx, cellOk n (val idx) = true) → (k ≤ 21)%nat →
  let pos := fun idx : nat =>
    mkPosition (firstRow + Z.of_nat (idx / 7)%nat) (Z.of_nat (idx mod 7)%nat) in
  let g' := fold_left (fun g idx => setCell g (pos idx) (val idx)) (seq 0 k) g in
  gridOk n g' = true
  ∧ (∀ idx, (idx < k)%nat → getCharacter (set_board g' b) (pos idx) = val idx)
  ∧ (∀ q, (∀ idx, (idx < k)%nat → q ≠ pos idx) →
          getCharacter (set_board g' b) q = getCharacter (set_board g b) q).
Proof.
  intros Hrow Hg Hval. cbv zeta.
  induction k as [|k IH]; intros Hk.
  { simpl. split_and!; [done|lia|done]. }
  destruct IH as (Hg' & Hin & Hout); [lia|].
  rewrite seq_S, fold_left_app. cbn [fold_left Nat.add].
  set (g' := fold_left _ (seq 0 k) g) in *.
  assert (isValidPosition
            (mkPosition (firstRow + Z.of_nat (k / 7)%nat)
                        (Z.of_nat (k mod 7)%nat)) = true) as Hvalid.
  { unfold isValidPosition, ROWS, COLS. cbn [row col].
    rewrite !andb_true_iff, !Z.leb_le, !Z.ltb_lt.
    assert (k mod 7 < 7)%nat by (apply Nat.mod_upper_bound; lia).
    assert (k / 7 < 3)%nat by (apply Nat.Div0.div_lt_upper_bound; lia).
    lia. }
  split_and!.
  - by apply gridOk_setCell.
  - intros idx Hidx. rewrite (getCharacter_write n) by done.
    case_decide as Hd.
    + pose proof (f_equal row Hd) as Hr. pose proof (f_equal col Hd) as Hc.
      cbn [row col] in Hr, Hc.
      assert (idx = k) as ->; [|done].
      rewrite (Nat.div_mod_eq idx 7), (Nat.div_mod_eq k 7). lia.
    + apply Hin. destruct (decide (idx = k)) as [->|]; [done|lia].
  - intros q Hq. rewrite (getCharacter_write n) by done.
    rewrite decide_False by (intros <-; by apply (Hq k); [lia|]).
    apply Hout. intros idx Hidx. apply Hq. lia.
Qed.

Lemma cellAt_empty_grid (rows cols r c : nat) :
  cellAt (replicate rows (replicate cols None)) r c = None.
Proof.
  unfold cellAt.
  destruct (replicate rows _ !! r) as [cells|] eqn:Hr; [|done].
  apply lookup_replicate in Hr as [-> _].
  destruct (replicate cols _ !! c) as [x|] eqn:Hc; [|done].
  by apply lookup_replicate in Hc as [-> _].
Qed.

Lemma cellOk_team n (first len : nat) (positions : list nat) (idx : nat) :
  (first + len ≤ n)%nat →
  cellOk n (positions !! idx ≫= fun charIdx => seq first len !! charIdx) = true.
Proof.
  intros Hn. destruct (positions !! idx) as [k|]; simpl; [|done].
  destruct (seq first len !! k) as [r|] eqn:Hr; simpl; [|done].
  apply lookup_seq in Hr as [-> ?]. apply Nat.ltb_lt. lia.
Qed.
End Setup.

(** [shuffle] only permutes its array, whatever the random draws: the
    result holds the same values the same number of times, so it has the
    same length and no duplicate if the array had none. *)
Theorem shuffle_permutes (rnd : nat → nat) (array : list nat) :
  shuffle rnd array ≡ₚ array
  ∧ length (shuffle rnd array) = length array
  ∧ (∀ x, x ∈ shuffle rnd array ↔ x ∈ array)
  ∧ (NoDup array → NoDup (shuffle rnd array)).
Proof.
  pose proof (shuffle_Permutation rnd array) as Hp.
  split_and!; [done|by rewrite Hp|intros x; by rewrite Hp|by rewrite Hp].
Qed.

Lemma setupBoard_cells (h : Heap) (rndAi rndPl : nat → nat) :
  let h' := fst (GameBoard_new h) in
  let b' := setupBoard rndAi rndPl None (snd (GameBoard_new h)) in
  let ai := shuffle rndAi (seq 0 21) in
  let pl := shuffle rndPl (seq 0 21) in
  ai ≡ₚ seq 0 21 ∧ pl ≡ₚ seq 0 21
  ∧ boardOk h' b' = true
  ∧ (∀ idx k : nat, ai !! idx = Some k →
       getCharacter b' (mkPosition (Z.of_nat (idx / 7)) (Z.of_nat (idx mod 7)))
         = Some (length h + k)%nat
       ∧ h' !! (length h + k)%nat = createFullTeam 0 !! k)
  ∧ (∀ idx k : nat, pl !! idx = Some k →
       getCharacter b'
         (mkPosition (6 + Z.of_nat (idx / 7)) (Z.of_nat (idx mod 7)))
         = Some (length h + 21 + k)%nat
       ∧ h' !! (length h + 21 + k)%nat = createFullTeam 1 !! k)
  ∧ (∀ q, 3 ≤ row q < 6 → getCharacter b' q = None).
Proof.
  cbv zeta.
  pose proof (shuffle_Permutation rndAi (seq 0 21)) as Hai.
  pose proof (shuffle_Permutation rndPl (seq 0 21)) as Hpl.
  set (ai := shuffle rndAi (seq 0 21)) in *.
  set (pl := shuffle rndPl (seq 0 21)) in *.
  set (n := (length h + 42)%nat).
  set (b0 := snd (GameBoard_new h)).
  assert (length (fst (GameBoard_new h)) = n) as Hlen.
  { unfold GameBoard_new. simpl. rewrite !length_app. simpl. lia. }
  assert (∀ idx k : nat, ai !! idx = Some k → (idx < 21 ∧ k < 21)%nat) as Hai_lt.
  { intros idx k Hk. split.
    - apply lookup_lt_Some in Hk. by rewrite Hai in Hk.
    - apply list_elem_of_lookup_2 in Hk. rewrite Hai in Hk.
      apply elem_of_seq in Hk. lia. }
  assert (∀ idx k : nat, pl !! idx = Some k → (idx < 21 ∧ k < 21)%nat) as Hpl_lt.
  { intros idx k Hk. split.
    - apply lookup_lt_Some in Hk. by rewrite Hpl in Hk.
    - apply list_elem_of_lookup_2 in Hk. rewrite Hpl in Hk.
      apply elem_of_seq in Hk. lia. }
  assert (fst (GameBoard_new h) = h ++ createFullTeam 0 ++ createFullTeam 1)
    as Hstore by done.
  assert (length (createFullTeam 0) = 21%nat) as Hteam_len by done.
  assert (aiTeam b0 = seq (length h) 21) as Hteam0 by done.
  assert (playerTeam b0 = seq (length h + 21) 21) as Hteam1 by done.
  (* the AI's rows *)
  destruct (fill_cells n b0 0
              (fun idx => ai !! idx ≫= fun charIdx => aiTeam b0 !! charIdx)
              21 (board b0)) as (Hg1 & Hin1 & Hout1);
    [lia|done|intros idx; apply cellOk_team; simpl; lia|lia|].
  rewrite <-placeTeam_fold in Hg1, Hin1, Hout1.
  set (g1 := placeTeam (board b0) 0 ai (aiTeam b0)) in *.
  (* the player's rows *)
  destruct (fill_cells n b0 6
              (fun idx => pl !! idx ≫= fun charIdx => playerTeam b0 !! charIdx)
              21 g1) as (Hg2 & Hin2 & Hout2);
    [lia|done|intros idx; apply cellOk_team; simpl; lia|lia|].
  rewrite <-placeTeam_fold in Hg2, Hin2, Hout2.
  set (g2 := placeTeam g1 6 pl (playerTeam b0)) in *.
  assert (∀ q, getCharacter
                 (setupBoard rndAi rndPl None (snd (GameBoard_new h))) q
               = getCharacter (set_board g2 b0) q) as Hread by done.
  split_and!; try done.
  - unfold boardOk. by rewrite Hlen.
  - intros idx k Hk. destruct (Hai_lt idx k Hk) as [Hidx Hklt]. split.
    + rewrite Hread, Hout2.
      * replace (Z.of_nat (idx / 7)) with (0 + Z.of_nat (idx / 7)) by lia.
        rewrite Hin1 by done. rewrite Hk. cbn [mbind option_bind].
        by rewrite Hteam0, lookup_seq_lt.
      * intros idx' _ Heq. pose proof (f_equal row Heq) as Hr.
        cbn [row] in Hr.
        assert (idx / 7 < 3)%nat by (apply Nat.Div0.div_lt_upper_bound; lia).
        lia.
    + rewrite Hstore, lookup_app_r by lia.
      replace (length h + k - length h)%nat with k by lia.
      rewrite lookup_app_l; [done|]. by rewrite Hteam_len.
  - intros idx k Hk. destruct (Hpl_lt idx k Hk) as [Hidx Hklt]. split.
    + rewrite Hread. rewrite Hin2 by done. rewrite Hk.
      cbn [mbind option_bind]. by rewrite Hteam1, lookup_seq_lt.
    + rewrite Hstore, lookup_app_r by lia.
      replace (length h + 21 + k - length h)%nat with (21 + k)%nat by lia.
      rewrite lookup_app_r by (rewrite Hteam_len; lia).
      rewrite Hteam_len. by replace (21 + k - 21)%nat with k by lia.
  - intros q Hq. rewrite Hread, Hout2, Hout1.
    + unfold getCharacter. destruct (isValidPosition q); [|done].
      apply (cellAt_empty_grid 9 7).
    + intros idx Hidx ->. cbn [row] in Hq.
      assert (idx / 7 < 3)%nat by (apply Nat.Div0.div_lt_upper_bound; lia).
      lia.
    + intros idx Hidx ->. cbn [row] in Hq. lia.
Qed.

(** A new game: after [new GameBoard()] and [setupBoard()], whatever the
    draws, rows 0-2 hold the AI's 21 units and rows 6-8 the player's, cell
    by cell in row-major order the unit whose index in its team is the
    entry of a permutation of 0..20, so that every unit stands on exactly
    one cell; rows 3-5 are empty; and the board is well formed. *)
Theorem setupBoard_layout (h : Heap) (rndAi rndPl : nat → nat) :
  let h' := fst (GameBoard_new h) in
  let b' := setupBoard rndAi rndPl None (snd (GameBoard_new h)) in
  let ai := shuffle rndAi (seq 0 21) in
  let pl := shuffle rndPl (seq 0 21) in
  ai ≡ₚ seq 0 21 ∧ pl ≡ₚ seq 0 21
  ∧ boardOk h' b' = true
  ∧ (∀ idx k : nat, ai !! idx = Some k →
       getCharacter b' (mkPosition (Z.of_nat (idx / 7)) (Z.of_nat (idx mod 7)))
         = Some (length h + k)%nat
       ∧ h' !! (length h + k)%nat = createFullTeam 0 !! k)
  ∧ (∀ idx k : nat, pl !! idx = Some k →
       getCharacter b'
         (mkPosition (6 + Z.of_nat (idx / 7)) (Z.of_nat (idx mod 7)))
         = Some (length h + 21 + k)%nat
       ∧ h' !! (length h + 21 + k)%nat = createFullTeam 1 !! k)
  ∧ (∀ q, 3 ≤ row q < 6 → getCharacter b' q = None).
Proof.
  cbv zeta.
  destruct (setupBoard_cells h rndAi rndPl) as (Hai & Hpl & Hok & Hrows & Hrest).
  split; [exact Hai|]. split; [exact Hpl|]. split; [exact Hok|].
  split; [exact Hrows|]. exact Hrest.
Qed.

(** ** ai/basicAI.js: the move the agent returns *)

Section Agent.
Import BasicAI.
Implicit Types (h : Heap) (b : GameBoard) (allMoves : list (Position * Move)).

Lemma revealsOnly_refl h : revealsOnly h h.
Proof. split; [done|]. by intros x. Qed.

Lemma revealsOnly_trans h1 h2 h3 :
  revealsOnly h1 h2 → revealsOnly h2 h3 → revealsOnly h1 h3.
Proof.
  intros [Hl1 H1] [Hl2 H2]. split; [congruence|]. intros x.
  destruct (H1 x) as (? & ? & ? & ?), (H2 x) as (? & ? & ? & ?).
  split_and!; try congruence. auto.
Qed.

Lemma revealsOnly_resolveBattle h a t :
  revealsOnly h (fst (resolveBattle h a t)).
Proof.
  split; [apply resolveBattle_length|]. intros x.
  destruct (resolveBattle_frame h a t x) as (? & ? & ?).
  split_and!; try done. apply resolveBattle_revealed_mono.
Qed.

Lemma resolveBattle_no_police h a t :
  type (h !!! a) ≠ MP → type (h !!! t) ≠ MP → fst (resolveBattle h a t) = h.
Proof.
  intros Ha Ht. rewrite resolveBattle_store.
  unfold type_is. by rewrite !bool_decide_eq_false_2.
Qed.

(** Move generation reads kind, owner and [isAlive] only. *)
Lemma getValidMoves_revealsOnly h h' b pos :
  revealsOnly h h' → getValidMoves h' b pos = getValidMoves h b pos.
Proof.
  intros [_ Hr]. unfold getValidMoves.
  destruct (getCharacter b pos) as [r|]; [|done].
  destruct (Hr r) as (Hty & Hp & Ha & _).
  unfold canMove. rewrite Hty, Hp, Ha.
  repeat (case_match; [done|]).
  apply flat_map_ext. intros d. case_match; [done|].
  destruct (getCharacter b _) as [t|]; [|done].
  destruct (Hr t) as (_ & Hpt & _). by rewrite Hpt.
Qed.

Lemma randomChoice_nonempty {A : Type} (rnd : nat) (l : list A) :
  (0 <? length l)%nat = true → ∃ x, randomChoice rnd l = Some x ∧ x ∈ l.
Proof.
  intros Hl. apply Nat.ltb_lt in Hl. unfold randomChoice.
  destruct (lookup_lt_is_Some_2 l (rnd mod length l)) as [x Hx].
  { apply Nat.mod_upper_bound. lia. }
  exists x. split; [done|]. by eapply list_elem_of_lookup_2.
Qed.

Lemma findFlagCaptureMoves_elem h b allMoves m :
  m ∈ findFlagCaptureMoves h b allMoves ↔
    (∃ pos, (pos, m) ∈ allMoves)
    ∧ ∃ t, getCharacter b (toPos m) = Some t ∧ type (h !!! t) = FLAG.
Proof.
  unfold findFlagCaptureMoves. rewrite list_elem_of_In, in_flat_map. split.
  - intros ([pos m'] & Hin & Hm). simpl in Hm.
    destruct (getCharacter b (toPos m')) as [t|] eqn:Ht; [|done].
    destruct (type_is (type (h !!! t)) FLAG) eqn:Hf; [|done].
    destruct Hm as [<-|[]]. split.
    + exists pos. by apply list_elem_of_In.
    + exists t. split; [done|]. by apply bool_decide_eq_true in Hf.
  - intros [(pos & Hin) (t & Ht & Hf)]. exists (pos, m).
    split; [by apply list_elem_of_In|]. simpl. rewrite Ht.
    unfold type_is. rewrite bool_decide_eq_true_2 by done. by left.
Qed.

Lemma findDefensiveMoves_elem self h b allMoves m :
  m ∈ findDefensiveMoves self h b allMoves ↔
    (∃ pos, (pos, m) ∈ allMoves)
    ∧ ∃ flagPos, findMyFlag self h b = Some flagPos
                 ∧ manhattan (toPos m) flagPos = 1.
Proof.
  unfold findDefensiveMoves.
  destruct (findMyFlag self h b) as [flagPos|].
  - rewrite list_elem_of_In, in_flat_map. unfold isAdjacent, manhattan. split.
    + intros ([pos m'] & Hin & Hm). simpl in Hm.
      destruct (_ =? 1) eqn:Hadj; [|done]. destruct Hm as [<-|[]].
      split; [exists pos; by apply list_elem_of_In|].
      exists flagPos. split; [done|]. by apply Z.eqb_eq.
    + intros [(pos & Hin) (flagPos' & [= <-] & Hadj)]. exists (pos, m).
      split; [by apply list_elem_of_In|]. simpl.
      apply Z.eqb_eq in Hadj. rewrite Hadj. by left.
  - split; [by intros ?%elem_of_nil|]. by intros [_ (? & ? & _)].
Qed.

Lemma findForwardMoves_elem self b allMoves m :
  m ∈ findForwardMoves self b allMoves → ∃ pos, (pos, m) ∈ allMoves.
Proof.
  unfold findForwardMoves. rewrite list_elem_of_In, in_flat_map.
  intros ([pos m'] & Hin & Hm). simpl in Hm.
  destruct (getCharacter b (toPos m')); [done|].
  destruct (_ >? 0); [|done]. destruct Hm as [<-|[]].
  exists pos. by apply list_elem_of_In.
Qed.

(** The scan of the guaranteed wins only reveals. *)
Lemma findWinningBattles_store h b allMoves :
  revealsOnly h (fst (findWinningBattles h b allMoves))
  ∧ ((∀ pos r, getCharacter b pos = Some r → type (h !!! r) ≠ MP) →
     fst (findWinningBattles h b allMoves) = h).
Proof.
  unfold findWinningBattles.
  assert (∀ h' acc,
    revealsOnly h h' →
    revealsOnly h (fst (fold_left (winningStep b) allMoves (h', acc)))
    ∧ ((∀ pos r, getCharacter b pos = Some r → type (h !!! r) ≠ MP) →
       h' = h → fst (fold_left (winningStep b) allMoves (h', acc)) = h))
    as Hfold.
  { induction allMoves as [|[pos move] items IH]; intros h' acc Hr;
      [done|]. cbn [fold_left].
    assert (∃ h1 acc1, winningStep b (h', acc) (pos, move) = (h1, acc1)
              ∧ revealsOnly h h1
              ∧ ((∀ pos r, getCharacter b pos = Some r → type (h !!! r) ≠ MP)
                 → h' = h → h1 = h)) as (h1 & acc1 & -> & Hr1 & Hsame).
    { unfold winningStep.
      destruct (getCharacter b pos) as [a|] eqn:Ha; [|by eauto].
      destruct (getCharacter b (toPos move)) as [t|] eqn:Ht; [|by eauto].
      pose proof (revealsOnly_resolveBattle h' a t) as Hstep.
      pose proof (resolveBattle_no_police h' a t) as Hno.
      destruct (resolveBattle h' a t) as [h1 res]. simpl in *.
      assert (revealsOnly h h1) by by eapply revealsOnly_trans.
      destruct (attackerWins res); eexists _, _; (split; [done|]);
        (split; [done|]); intros Hmp ->; apply Hno; eauto. }
    destruct (IH h1 acc1 Hr1) as [Hr2 Hsame2]. split; [done|].
    intros Hmp Heq. apply Hsame2; [done|]. by apply Hsame. }
  destruct (Hfold h [] (revealsOnly_refl h)) as [Hr Hsame].
  split; [done|]. intros Hmp. by apply Hsame.
Qed.

Lemma findWinningBattles_moves h b allMoves e :
  e ∈ snd (findWinningBattles h b allMoves) → ∃ pos, (pos, fst e) ∈ allMoves.
Proof.
  intros (pos & _ & _ & Hin & _)%findWinningBattles_entries. by exists pos.
Qed.

(** So does the scan of the safe attacks, and its moves are listed. *)
Lemma findSafeAttacks_spec h b allMoves :
  revealsOnly h (fst (findSafeAttacks h b allMoves))
  ∧ (∀ m, m ∈ snd (findSafeAttacks h b allMoves) → ∃ pos, (pos, m) ∈ allMoves)
  ∧ ((∀ pos r, getCharacter b pos = Some r → type (h !!! r) ≠ MP) →
     fst (findSafeAttacks h b allMoves) = h).
Proof.
  unfold findSafeAttacks.
  assert (∀ items h' acc,
    (∀ i, i ∈ items → i ∈ allMoves) →
    revealsOnly h h' →
    (∀ m, m ∈ acc → ∃ pos, (pos, m) ∈ allMoves) →
    revealsOnly h (fst (fold_left (safeStep b) items (h', acc)))
    ∧ (∀ m, m ∈ snd (fold_left (safeStep b) items (h', acc)) →
            ∃ pos, (pos, m) ∈ allMoves)
    ∧ ((∀ pos r, getCharacter b pos = Some r → type (h !!! r) ≠ MP) →
       h' = h → fst (fold_left (safeStep b) items (h', acc)) = h))
    as Hfold.
  { induction items as [|[pos move] items IH]; intros h' acc Hsub Hr Hacc;
      [done|]. cbn [fold_left].
    assert (∃ h1 acc1, safeStep b (h', acc) (pos, move) = (h1, acc1)
              ∧ revealsOnly h h1
              ∧ (∀ m, m ∈ acc1 → ∃ pos, (pos, m) ∈ allMoves)
              ∧ ((∀ pos r, getCharacter b pos = Some r → type (h !!! r) ≠ MP)
                 → h' = h → h1 = h)) as (h1 & acc1 & -> & Hr1 & Hacc1 & Hsame).
    { assert (∀ m, m ∈ acc ++ [move] → ∃ pos, (pos, m) ∈ allMoves) as Hacc'.
      { intros m [Hm|Hm]%elem_of_app; [by apply Hacc|].
        apply list_elem_of_singleton in Hm as ->. exists pos.
        apply Hsub. left. }
      unfold safeStep.
      destruct (getCharacter b pos) as [a|] eqn:Ha; [|by eauto 10].
      destruct (getCharacter b (toPos move)) as [t|] eqn:Ht; [|by eauto 10].
      destruct (negb (isRevealed (h' !!! t))).
      { destruct (priority (h' !!! a) <=? 8); eauto 10. }
      pose proof (revealsOnly_resolveBattle h' a t) as Hstep.
      pose proof (resolveBattle_no_police h' a t) as Hno.
      destruct (resolveBattle h' a t) as [h1 res]. simpl in *.
      assert (revealsOnly h h1) by by eapply revealsOnly_trans.
      destruct (negb (defenderWins res)); eexists _, _; (split; [done|]);
        (split; [done|]); (split; [done|]); intros Hmp ->; apply Hno; eauto. }
    destruct (IH h1 acc1) as (Hr2 & Hacc2 & Hsame2); [|done|done|].
    { intros i Hi. apply Hsub. by right. }
    split_and!; try done. intros Hmp Heq. apply Hsame2; [done|].
    by apply Hsame. }
  destruct (Hfold allMoves h []) as (Hr & Hacc & Hsame);
    [done|apply revealsOnly_refl|by intros ? ?%elem_of_nil|].
  split_and!; try done. intros Hmp. by apply Hsame.
Qed.

(** Whenever the player has a move, [getMove] returns one of the listed
    moves, and at most reveals units on the way. *)
Lemma getMove_listed self rnd h b :
  getAllValidMoves h b self ≠ [] →
  ∃ h' m, getMove self rnd h b = (h', Some m)
          ∧ revealsOnly h h'
          ∧ (∃ pos, (pos, m) ∈ getAllValidMoves h b self)
          ∧ ((∀ pos r, getCharacter b pos = Some r → type (h !!! r) ≠ MP) →
             h' = h).
Proof.
  intros Hall. unfold getMove.
  destruct (getAllValidMoves h b self) as [|item items] eqn:Heq; [done|].
  rewrite <-Heq in *. clear Hall.
  assert ((length (getAllValidMoves h b self) =? 0)%nat = false) as ->
    by by rewrite Heq.
  set (allMoves := getAllValidMoves h b self) in *.
  destruct (0 <? length (findFlagCaptureMoves h b allMoves))%nat eqn:H1.
  { destruct (randomChoice_nonempty rnd _ H1) as (m & -> & Hm).
    apply findFlagCaptureMoves_elem in Hm as [Hm _].
    exists h, m. split_and!; first [done | apply revealsOnly_refl]. }
  destruct (findWinningBattles_store h b allMoves) as [Hr2 Hs2].
  pose proof (findWinningBattles_moves h b allMoves) as Hm2.
  destruct (findWinningBattles h b allMoves) as [h2 wins]. simpl in *.
  destruct (0 <? length wins)%nat eqn:H2.
  { destruct (head_sortByPriority_is_Some wins) as [[m v] Hhead].
    { intros ->. done. }
    destruct (head_sortByPriority _ _ Hhead) as (l1 & l2 & -> & _).
    rewrite Hhead. exists h2, m. split_and!; try done.
    apply (Hm2 (m, v)). apply elem_of_app. right. left. }
  destruct (0 <? length (findDefensiveMoves self h2 b allMoves))%nat eqn:H3.
  { destruct (randomChoice_nonempty rnd _ H3) as (m & -> & Hm).
    apply findDefensiveMoves_elem in Hm as [Hm _].
    exists h2, m. split_and!; done. }
  destruct (findSafeAttacks_spec h2 b allMoves) as (Hr4 & Hm4 & Hs4).
  assert (revealsOnly h (fst (findSafeAttacks h2 b allMoves))) as Hr4'
    by by eapply revealsOnly_trans.
  assert ((∀ pos r, getCharacter b pos = Some r → type (h !!! r) ≠ MP) →
          fst (findSafeAttacks h2 b allMoves) = h) as Hs4'.
  { intros Hmp. rewrite (Hs2 Hmp) in *. by apply Hs4. }
  destruct (findSafeAttacks h2 b allMoves) as [h4 safe]. simpl in *.
  destruct (0 <? length safe)%nat eqn:H4.
  { destruct (randomChoice_nonempty rnd _ H4) as (m & -> & Hm).
    exists h4, m. split_and!; try done. by apply Hm4. }
  destruct (0 <? length (findForwardMoves self b allMoves))%nat eqn:H5.
  { destruct (randomChoice_nonempty rnd _ H5) as (m & -> & Hm).
    apply findForwardMoves_elem in Hm.
    exists h4, m. split_and!; done. }
  destruct (randomChoice_nonempty rnd (map snd allMoves)) as (m & -> & Hm).
  { rewrite length_map. by rewrite Heq. }
  exists h4, m. split_and!; try done.
  apply list_elem_of_In, in_map_iff in Hm as ([pos m'] & <- & Hin).
  exists pos. by apply list_elem_of_In.
Qed.
End Agent.

Section Flag.
Import BasicAI.
Implicit Types (h : Heap) (b : GameBoard).

Lemma findMyFlag_Some self h b (flagPos : Position) :
  findMyFlag self h b = Some flagPos →
  ∃ r, getCharacter b flagPos = Some r
       ∧ playerId (h !!! r) = self ∧ type (h !!! r) = FLAG.
Proof.
  unfold findMyFlag. intros Hhead.
  assert (flagPos ∈ filter (fun pos =>
            match getCharacter b pos with
            | Some r => (playerId (h !!! r) =? self)
                        && type_is (type (h !!! r)) FLAG
            | None => false
            end = true) allPositions) as Hin.
  { destruct (filter _ allPositions); simplify_eq/=. left. }
  apply list_elem_of_filter in Hin as [Hp _].
  destruct (getCharacter b flagPos) as [r|]; [|done].
  apply andb_true_iff in Hp as [Hid Hty]. exists r.
  split_and!; [done|by apply Z.eqb_eq|by apply bool_decide_eq_true in Hty].
Qed.

Lemma findMyFlag_None self h b :
  findMyFlag self h b = None ↔
    ∀ pos r, getCharacter b pos = Some r →
             playerId (h !!! r) = self → type (h !!! r) ≠ FLAG.
Proof.
  unfold findMyFlag. split.
  - intros Hhead pos r Hr Hid Hty.
    assert (pos ∈ filter (fun pos =>
              match getCharacter b pos with
              | Some r => (playerId (h !!! r) =? self)
                          && type_is (type (h !!! r)) FLAG
              | None => false
              end = true) allPositions) as Hin.
    { apply list_elem_of_filter. split.
      - rewrite Hr, Hid, Hty, Z.eqb_refl. done.
      - apply allPositions_valid. by eapply getCharacter_valid. }
    destruct (filter _ allPositions); [by apply elem_of_nil in Hin|done].
  - intros Hno.
    destruct (head _) as [pos|] eqn:Hhead; [|done].
    apply findMyFlag_Some in Hhead as (r & Hr & Hid & Hty).
    by destruct (Hno pos r Hr Hid).
Qed.
End Flag.

(** [getMove] returns [null] exactly when the agent's player has no move;
    otherwise it returns one of the moves [getAllValidMoves] lists for that
    player, whatever the random draw, and [makeMove] accepts that move on
    the board as the call left it. *)
Theorem getMove_returns_legal_move (self : Z) (rnd : nat) (h : Heap)
    (b : GameBoard) :
  let '(h', result) := BasicAI.getMove self rnd h b in
  (result = None ↔ getAllValidMoves h b self = [])
  ∧ (∀ m, result = Some m →
          (fromPos m, m) ∈ getAllValidMoves h b self
          ∧ snd (makeMove h' b m) = true).
Proof.
  destruct (getAllValidMoves h b self) as [|item items] eqn:Hall.
  { unfold BasicAI.getMove. rewrite Hall. simpl. by split. }
  destruct (getMove_listed self rnd h b) as (h' & m & -> & Hr & (pos & Hin) & _);
    [by rewrite Hall|].
  rewrite Hall in Hin. rewrite <-Hall in Hin.
  split; [by split|]. intros m' [= <-].
  pose proof Hin as Hin'.
  apply getAllValidMoves_elem in Hin' as [Hm _].
  pose proof (getValidMoves_fromPos h b pos m Hm) as Hfrom. subst pos.
  split; [by rewrite <-Hall|].
  apply makeMove_ok. by rewrite (getValidMoves_revealsOnly h h').
Qed.

(** Choosing a move never plays it: [getMove] leaves every unit's kind,
    owner and [isAlive] as they were, and the number of units; it can only
    reveal units, through the battles it resolves in simulation, and
    reveals none when no military police stands on the board. *)
Theorem getMove_only_reveals (self : Z) (rnd : nat) (h : Heap) (b : GameBoard) :
  revealsOnly h (fst (BasicAI.getMove self rnd h b))
  ∧ ((∀ pos r, getCharacter b pos = Some r → type (h !!! r) ≠ MP) →
     fst (BasicAI.getMove self rnd h b) = h).
Proof.
  destruct (getAllValidMoves h b self) as [|item items] eqn:Hall.
  { unfold BasicAI.getMove. rewrite Hall. simpl.
    split; [apply revealsOnly_refl|done]. }
  destruct (getMove_listed self rnd h b) as (h' & m & -> & Hr & _ & Hsame);
    [by rewrite Hall|].
  by split.
Qed.

(** When a flag is in reach the agent takes it: if some listed move ends
    on a flag, [getMove] leaves the store alone and returns such a move,
    and playing it ends the game with the agent's player as winner. *)
Theorem getMove_captures_flag (self : Z) (rnd : nat) (h : Heap) (b : GameBoard) :
  BasicAI.findFlagCaptureMoves h b (getAllValidMoves h b self) ≠ [] →
  ∃ move t,
    BasicAI.getMove self rnd h b = (h, Some move)
    ∧ getCharacter b (toPos move) = Some t
    ∧ type (h !!! t) = FLAG
    ∧ let '(h', b', ok) := makeMove h b move in
      ok = true ∧ isAlive (h' !!! t) = false
      ∧ gameOver b' = true ∧ winner b' = Some self.
Proof.
  intros Hflag.
  assert ((0 <? length (BasicAI.findFlagCaptureMoves h b
                          (getAllValidMoves h b self)))%nat = true) as Hlen.
  { apply Nat.ltb_lt. destruct (BasicAI.findFlagCaptureMoves _ _ _); [done|].
    simpl. lia. }
  destruct (randomChoice_nonempty rnd _ Hlen) as (move & Hchoice & Hm).
  pose proof Hm as Hm'.
  apply findFlagCaptureMoves_elem in Hm' as [(pos & Hin) (t & Ht & Hty)].
  exists move, t. split_and!; try done.
  - unfold BasicAI.getMove. rewrite Hlen, Hchoice.
    destruct (getAllValidMoves h b self); [by apply elem_of_nil in Hin|done].
  - apply getAllValidMoves_elem in Hin as [Hvalid (r & Hr & Hid)].
    pose proof (getValidMoves_fromPos h b pos move Hvalid) as Hfrom.
    subst pos.
    assert (snd (makeMove h b move) = true) as Hok by by apply makeMove_ok.
    rewrite (makeMove_battle h b move r t Hr Ht Hok).
    destruct (applyBattle_flag h b move r t Hty) as (Hdead & Hover & Hwin).
    split_and!; try done. by rewrite <-Hid.
Qed.

(** The player's sergeant below the AI's flag: an agent playing for the
    player takes the flag. *)
Lemma getMove_captures_flag_sergeant :
  BasicAI.findFlagCaptureMoves (fst Positions.flagInReach)
    (snd Positions.flagInReach)
    (getAllValidMoves (fst Positions.flagInReach) (snd Positions.flagInReach) 1)
  ≠ []
  ∧ ∃ move t,
      BasicAI.getMove 1 0 (fst Positions.flagInReach) (snd Positions.flagInReach)
        = (fst Positions.flagInReach, Some move)
      ∧ getCharacter (snd Positions.flagInReach) (toPos move) = Some t
      ∧ type (fst Positions.flagInReach !!! t) = FLAG
      ∧ let '(h', b', ok) :=
          makeMove (fst Positions.flagInReach) (snd Positions.flagInReach) move in
        ok = true ∧ isAlive (h' !!! t) = false
        ∧ gameOver b' = true ∧ winner b' = Some 1.
Proof.
  assert (BasicAI.findFlagCaptureMoves (fst Positions.flagInReach)
            (snd Positions.flagInReach)
            (getAllValidMoves (fst Positions.flagInReach)
               (snd Positions.flagInReach) 1) ≠ []) as Hne.
  { vm_compute. discriminate. }
  split; [exact Hne|].
  apply (getMove_captures_flag 1 0 (fst Positions.flagInReach)
           (snd Positions.flagInReach) Hne).
Defined.

(** The defensive class: [findDefensiveMoves] keeps exactly the listed
    moves that end next to the cell of the agent's own flag, the first cell
    in row-major order holding a flag of its player; it is empty when that
    flag is no longer on the board. *)
Theorem findDefensiveMoves_guard_flag (self : Z) (h : Heap) (b : GameBoard)
    (allMoves : list (Position * Move)) (m : Move) :
  (m ∈ BasicAI.findDefensiveMoves self h b allMoves ↔
     (∃ pos, (pos, m) ∈ allMoves)
     ∧ ∃ flagPos r,
         BasicAI.findMyFlag self h b = Some flagPos
         ∧ getCharacter b flagPos = Some r
         ∧ playerId (h !!! r) = self ∧ type (h !!! r) = FLAG
         ∧ manhattan (toPos m) flagPos = 1)
  ∧ ((∀ pos r, getCharacter b pos = Some r →
               playerId (h !!! r) = self → type (h !!! r) ≠ FLAG) →
     BasicAI.findDefensiveMoves self h b allMoves = []).
Proof.
  split.
  - rewrite findDefensiveMoves_elem. split.
    + intros [Hin (flagPos & Hflag & Hadj)]. split; [done|].
      destruct (findMyFlag_Some self h b flagPos Hflag) as (r & Hr & Hid & Hty).
      by exists flagPos, r.
    + intros [Hin (flagPos & r & Hflag & _ & _ & _ & Hadj)].
      split; [done|]. by exists flagPos.
  - intros Hno. apply findMyFlag_None in Hno.
    unfold BasicAI.findDefensiveMoves. by rewrite Hno.
Qed.

(** *** C6: the guaranteed wins and their values *)

Section Scan.
Variables (self : Z) (h : Heap) (b : GameBoard).
Hypothesis Hok : boardOk h b = true.

Lemma policeScouted_snoc (scanned : list (Position * Move))
    (item : Position * Move) (x : ref) :
  policeScouted h b (scanned ++ [item]) x
  = policeScouted h b scanned x
    || match getCharacter b (fst item), getCharacter b (toPos (snd item)) with
       | Some a, Some t => type_is (type (h !!! a)) MP && (t =? x)%nat
       | _, _ => false
       end.
Proof.
  unfold policeScouted. rewrite existsb_app. cbn [existsb].
  by rewrite orb_false_r.
Qed.

Lemma scanStore_nil : scanStore self h b [] h.
Proof.
  split; [apply revealsOnly_refl|]. intros x _ _. cbn. by rewrite orb_false_r.
Qed.

(** One turn of the loop adds the entry of [winningList]. *)
Lemma winningStep_scan (scanned : list (Position * Move)) (h' : Heap)
    (acc : list BasicAI.WinningMove) (item : Position * Move) :
  item ∈ getAllValidMoves h b self →
  scanStore self h b scanned h' →
  scanStore self h b (scanned ++ [item]) (fst (BasicAI.winningStep b (h', acc) item))
  ∧ snd (BasicAI.winningStep b (h', acc) item)
    = acc ++ match getCharacter b (fst item),
                   getCharacter b (toPos (snd item)) with
             | Some attacker, Some target =>
               if attackerWins (snd (resolveBattle h attacker target))
               then [(snd item,
                      winningValue h b (scanned ++ [item]) target)]
               else []
             | _, _ => []
             end.
Proof.
  intros Hin [Hrev Hshown]. destruct item as [pos move].
  apply getAllValidMoves_elem in Hin as [Hmove (a & Ha & Hself)].
  destruct (getValidMoves_target h b pos move Hmove) as (_ & _ & Hother).
  unfold BasicAI.winningStep. cbn [fst snd]. rewrite Ha.
  destruct (getCharacter b (toPos move)) as [t|] eqn:Ht.
  2: { cbn [fst snd]. rewrite app_nil_r. split; [|done].
       split; [done|]. intros x Hx Hp.
       rewrite policeScouted_snoc. cbn [fst snd]. rewrite Ha, Ht.
       rewrite orb_false_r. by apply Hshown. }
  specialize (Hother a t Ha eq_refl). rewrite Hself in Hother.
  pose proof (boardOk_getCharacter h b _ t Hok Ht) as Hlt.
  assert (a ≠ t) as Hat by (intros ->; congruence).
  destruct Hrev as [Hlen Hunits].
  assert (∀ x, type (h' !!! x) = type (h !!! x)) as Hty
    by (intros x; apply Hunits).
  assert (snd (resolveBattle h' a t) = snd (resolveBattle h a t)) as Hres.
  { rewrite !resolveBattle_result. unfold resolveGeneralBattle,
      resolveSpecialBattle, priority. by rewrite !Hty. }
  pose proof (resolveBattle_store h' a t) as Hstore.
  pose proof (revealsOnly_resolveBattle h' a t) as Hrev1.
  destruct (resolveBattle h' a t) as [h1 res]. cbn [fst snd] in *. subst res.
  rewrite !Hty in Hstore.
  assert (∀ x, (x < length h)%nat → playerId (h !!! x) ≠ self →
            isRevealed (h1 !!! x)
            = isRevealed (h !!! x)
              || policeScouted h b (scanned ++ [(pos, move)]) x) as Hshown1.
  { intros x Hx Hp. rewrite policeScouted_snoc. cbn [fst snd].
    rewrite Ha, Ht, orb_assoc, <-(Hshown x Hx Hp), Hstore.
    destruct (type_is (type (h !!! a)) MP); cbn [andb].
    - destruct (decide (t = x)) as [->|Hne].
      + rewrite Nat.eqb_refl, orb_true_r.
        apply isRevealed_reveal_eq. lia.
      + rewrite reveal_other by done.
        apply Nat.eqb_neq in Hne. by rewrite Hne, orb_false_r.
    - rewrite orb_false_r.
      destruct (type_is (type (h !!! t)) MP); [|done].
      rewrite reveal_other; [done|]. intros ->. by apply Hp. }
  assert (scanStore self h b (scanned ++ [(pos, move)]) h1) as Hscan1.
  { split; [|done].
    eapply revealsOnly_trans; [|exact Hrev1]. by split. }
  destruct (attackerWins (snd (resolveBattle h a t))); cbn [fst snd].
  - split; [done|]. do 3 f_equal. unfold winningValue.
    rewrite <-(Hshown1 t Hlt Hother).
    destruct Hscan1 as [[_ Hunits1] _]. unfold priority.
    by rewrite (proj1 (Hunits1 t)).
  - split; [done|]. by rewrite app_nil_r.
Qed.

Lemma fold_winningStep_scan (later scanned : list (Position * Move))
    (h' : Heap) (acc : list BasicAI.WinningMove) :
  (∀ item, item ∈ later → item ∈ getAllValidMoves h b self) →
  scanStore self h b scanned h' →
  snd (fold_left (BasicAI.winningStep b) later (h', acc))
  = acc ++ winningList h b scanned later.
Proof.
  revert scanned h' acc.
  induction later as [|item later IH]; intros scanned h' acc Hsub Hscan.
  { cbn. by rewrite app_nil_r. }
  cbn [fold_left winningList].
  destruct (winningStep_scan scanned h' acc item) as [Hscan1 Hacc];
    [apply Hsub; left|done|].
  destruct (BasicAI.winningStep b (h', acc) item) as [h1 acc1].
  cbn [fst snd] in Hscan1, Hacc.
  rewrite (IH (scanned ++ [item]) h1 acc1); [|intros ? ?; apply Hsub; by right|done].
  by rewrite Hacc, <-app_assoc.
Qed.

(** The scan lists the guaranteed wins, all of them and nothing else. *)
Lemma findWinningBattles_winningList :
  snd (BasicAI.findWinningBattles h b (getAllValidMoves h b self))
  = winningList h b [] (getAllValidMoves h b self).
Proof.
  unfold BasicAI.findWinningBattles.
  rewrite (fold_winningStep_scan _ []); [done|done|apply scanStore_nil].
Qed.
End Scan.

(** An entry of [winningList] is an attack of the list that the attacker
    wins, with the value it has when the scan reaches it. *)
Lemma winningList_entry (h : Heap) (b : GameBoard)
    (later earlier : list (Position * Move)) (before after : list BasicAI.WinningMove)
    (move : Move) (value : Z) :
  winningList h b earlier later = before ++ (move, value) :: after →
  ∃ first rest pos attacker target,
    later = first ++ (pos, move) :: rest
    ∧ winningList h b earlier first = before
    ∧ winningList h b (earlier ++ first ++ [(pos, move)]) rest = after
    ∧ getCharacter b pos = Some attacker
    ∧ getCharacter b (toPos move) = Some target
    ∧ attackerWins (snd (resolveBattle h attacker target)) = true
    ∧ value = winningValue h b (earlier ++ first ++ [(pos, move)]) target.
Proof.
  revert earlier before.
  induction later as [|[pos m] later IH]; intros earlier before Heq.
  { by destruct before. }
  cbn [winningList fst snd] in Heq.
  assert (∀ tail, winningList h b (earlier ++ [(pos, m)]) later
                  = tail ++ (move, value) :: after →
            ∃ first rest pos' attacker target,
              (pos, m) :: later = ((pos, m) :: first) ++ (pos', move) :: rest
              ∧ winningList h b (earlier ++ [(pos, m)]) first = tail
              ∧ winningList h b
                  (earlier ++ ((pos, m) :: first) ++ [(pos', move)]) rest
                = after
              ∧ getCharacter b pos' = Some attacker
              ∧ getCharacter b (toPos move) = Some target
              ∧ attackerWins (snd (resolveBattle h attacker target)) = true
              ∧ value = winningValue h b
                          (earlier ++ ((pos, m) :: first) ++ [(pos', move)])
                          target) as Hlater.
  { intros tail Htail.
    destruct (IH _ _ Htail)
      as (first & rest & pos' & a & t & -> & H1 & H2 & Ha & Ht & Hw & Hv).
    exists first, rest, pos', a, t.
    rewrite <-!app_assoc in H2, Hv. by split_and!. }
  destruct (getCharacter b pos) as [a|] eqn:Ha;
    [destruct (getCharacter b (toPos m)) as [t|] eqn:Ht;
     [destruct (attackerWins (snd (resolveBattle h a t))) eqn:Hw|]|].
  - destruct before as [|e before]; cbn [app] in Heq.
    + injection Heq as Hm Hv Hafter. subst m value after.
      exists [], later, pos, a, t. cbn [app winningList].
      by split_and!.
    + injection Heq as <- Htail.
      destruct (Hlater _ Htail)
        as (first & rest & pos' & a' & t' & Hl & H1 & H2 & ? & ? & ? & ?).
      exists ((pos, m) :: first), rest, pos', a', t'.
      cbn [winningList fst snd]. rewrite Ha, Ht, Hw, H1. by split_and!.
  - cbn [app] in Heq.
    destruct (Hlater _ Heq)
      as (first & rest & pos' & a' & t' & Hl & H1 & H2 & ? & ? & ? & ?).
    exists ((pos, m) :: first), rest, pos', a', t'.
    cbn [winningList fst snd]. rewrite Ha, Ht, Hw, H1. by split_and!.
  - cbn [app] in Heq.
    destruct (Hlater _ Heq)
      as (first & rest & pos' & a' & t' & Hl & H1 & H2 & ? & ? & ? & ?).
    exists ((pos, m) :: first), rest, pos', a', t'.
    cbn [winningList fst snd]. rewrite Ha, Ht, H1. by split_and!.
  - cbn [app] in Heq.
    destruct (Hlater _ Heq)
      as (first & rest & pos' & a' & t' & Hl & H1 & H2 & ? & ? & ? & ?).
    exists ((pos, m) :: first), rest, pos', a', t'.
    cbn [winningList fst snd]. rewrite Ha, H1. by split_and!.
Qed.

(** C6 (amended): whenever class 1 (flag capture) is empty and class 2
    is not, the agent returns, whatever the random draw [rnd], the first move
    in enumeration order among the class 2 moves of greatest value: every
    earlier class 2 move has a strictly smaller value and every later one
    a value at most equal.  Class 2 holds, in enumeration order, every
    listed attack whose simulated resolution is attacker survives,
    defender dies, and nothing else.  The value of an attack is the
    priority number of its target when the target is revealed as the scan
    reaches the attack, that is, revealed at the call or attacked by a
    military police of the agent in this or an earlier listed move (the
    simulated battle reveals it); it is 10 for any other target.  So the
    target of highest priority number is preferred, and a target still
    hidden counts as 10. *)
Theorem getMove_guaranteed_win (self : Z) (h : Heap) (b : GameBoard) :
  boardOk h b = true →
  BasicAI.findFlagCaptureMoves h b (getAllValidMoves h b self) = [] →
  snd (BasicAI.findWinningBattles h b (getAllValidMoves h b self)) ≠ [] →
  ∃ move value before after,
    (∀ rnd : nat,
       BasicAI.getMove self rnd h b
       = (fst (BasicAI.findWinningBattles h b (getAllValidMoves h b self)),
          Some move))
    ∧ snd (BasicAI.findWinningBattles h b (getAllValidMoves h b self))
      = winningList h b [] (getAllValidMoves h b self)
    ∧ winningList h b [] (getAllValidMoves h b self)
      = before ++ (move, value) :: after
    ∧ (∀ x, x ∈ before → snd x < value)
    ∧ (∀ x, x ∈ after → snd x ≤ value)
    ∧ ∃ first rest pos attacker target,
        getAllValidMoves h b self = first ++ (pos, move) :: rest
        ∧ winningList h b [] first = before
        ∧ getCharacter b pos = Some attacker
        ∧ getCharacter b (toPos move) = Some target
        ∧ attackerWins (snd (resolveBattle h attacker target)) = true
        ∧ value
          = if isRevealed (h !!! target)
               || policeScouted h b (first ++ [(pos, move)]) target
            then priority (h !!! target) else 10.
Proof.
  intros Hok Hflag Hwin.
  pose proof (findWinningBattles_winningList self h b Hok) as Hlist.
  destruct (head_sortByPriority_is_Some _ Hwin) as [[move value] Hhead].
  destruct (head_sortByPriority _ _ Hhead) as (before & after & Heq & Hb & Ha).
  exists move, value, before, after.
  split_and!; try done.
  - intros rnd. unfold BasicAI.getMove. rewrite Hflag.
    destruct (getAllValidMoves h b self) as [|item items] eqn:Hall.
    { exfalso. apply Hwin. done. }
    change (length (item :: items) =? 0)%nat with false. cbv iota.
    change (0 <? length ([] : list Move))%nat with false. cbv iota.
    destruct (BasicAI.findWinningBattles h b (item :: items)) as [h1 wins].
    simpl in *. destruct wins as [|w wins]; [done|].
    change (0 <? length (w :: wins))%nat with true. cbv iota.
    by rewrite Hhead.
  - by rewrite <-Hlist.
  - rewrite Hlist in Heq.
    destruct (winningList_entry h b _ [] before after move value Heq)
      as (first & rest & pos & a & t & Hall & H1 & _ & Hpos & Ht & Hw & Hv).
    exists first, rest, pos, a, t. by split_and!.
Qed.

(** The AI's military police and captain next to the hidden corporal:
    the police is scanned first and its simulated attack reveals the
    corporal, which then counts 14 for the captain, more than the hidden
    sergeant (10); the captain attacks the corporal. *)
Lemma getMove_police_scout :
  boardOk (fst Positions.policeScout) (snd Positions.policeScout) = true
  ∧ BasicAI.findFlagCaptureMoves (fst Positions.policeScout)
      (snd Positions.policeScout)
      (getAllValidMoves (fst Positions.policeScout)
         (snd Positions.policeScout) 0) = []
  ∧ snd (BasicAI.findWinningBattles (fst Positions.policeScout)
           (snd Positions.policeScout)
           (getAllValidMoves (fst Positions.policeScout)
              (snd Positions.policeScout) 0)) ≠ []
  ∧ (∃ move value before after,
       (∀ rnd : nat,
          BasicAI.getMove 0 rnd (fst Positions.policeScout)
            (snd Positions.policeScout)
          = (fst (BasicAI.findWinningBattles (fst Positions.policeScout)
                    (snd Positions.policeScout)
                    (getAllValidMoves (fst Positions.policeScout)
                       (snd Positions.policeScout) 0)),
             Some move))
       ∧ snd (BasicAI.findWinningBattles (fst Positions.policeScout)
                (snd Positions.policeScout)
                (getAllValidMoves (fst Positions.policeScout)
                   (snd Positions.policeScout) 0))
         = winningList (fst Positions.policeScout)
             (snd Positions.policeScout) []
             (getAllValidMoves (fst Positions.policeScout)
                (snd Positions.policeScout) 0)
       ∧ winningList (fst Positions.policeScout)
           (snd Positions.policeScout) []
           (getAllValidMoves (fst Positions.policeScout)
              (snd Positions.policeScout) 0)
         = before ++ (move, value) :: after
       ∧ (∀ x, x ∈ before → snd x < value)
       ∧ (∀ x, x ∈ after → snd x ≤ value)
       ∧ ∃ first rest pos attacker target,
           getAllValidMoves (fst Positions.policeScout)
             (snd Positions.policeScout) 0
           = first ++ (pos, move) :: rest
           ∧ winningList (fst Positions.policeScout)
               (snd Positions.policeScout) [] first = before
           ∧ getCharacter (snd Positions.policeScout) pos = Some attacker
           ∧ getCharacter (snd Positions.policeScout) (toPos move)
             = Some target
           ∧ attackerWins (snd (resolveBattle (fst Positions.policeScout)
                                  attacker target)) = true
           ∧ value
             = if isRevealed (fst Positions.policeScout !!! target)
                  || policeScouted (fst Positions.policeScout)
                       (snd Positions.policeScout)
                       (first ++ [(pos, move)]) target
               then priority (fst Positions.policeScout !!! target) else 10)
  ∧ isRevealed (fst Positions.policeScout
                !!! Positions.playerUnit Positions.iCORPORAL) = false
  ∧ isRevealed (fst Positions.policeScout
                !!! Positions.playerUnit Positions.iSGT) = false
  ∧ snd (BasicAI.findWinningBattles (fst Positions.policeScout)
           (snd Positions.policeScout)
           (getAllValidMoves (fst Positions.policeScout)
              (snd Positions.policeScout) 0))
    = [(mkMove (mkPosition 4 2) (mkPosition 5 2), 10);
       (mkMove (mkPosition 4 2) (mkPosition 4 3), 14)]
  ∧ snd (BasicAI.getMove 0 0 (fst Positions.policeScout)
           (snd Positions.policeScout))
    = Some (mkMove (mkPosition 4 2) (mkPosition 4 3)).
Proof.
  assert (snd (BasicAI.findWinningBattles (fst Positions.policeScout)
                 (snd Positions.policeScout)
                 (getAllValidMoves (fst Positions.policeScout)
                    (snd Positions.policeScout) 0)) ≠ []) as Hne.
  { vm_compute. discriminate. }
  split; [reflexivity|]. split; [reflexivity|]. split; [exact Hne|].
  split; [apply (getMove_guaranteed_win 0 (fst Positions.policeScout)
                   (snd Positions.policeScout));
          [reflexivity|reflexivity|exact Hne]|].
  split; [reflexivity|]. split; [reflexivity|]. split; reflexivity.
Defined.

(** ** board.js: the clone, read right after [clone()] *)

Section SameUnits.
Implicit Types (h : Heap) (b : GameBoard).

(** Queries on a well-formed board read the units on the board only. *)
Lemma getValidMoves_same_units h h' b pos :
  boardOk h b = true → (∀ r, (r < length h)%nat → h' !!! r = h !!! r) →
  getValidMoves h' b pos = getValidMoves h b pos.
Proof.
  intros Hok Hsame. unfold getValidMoves.
  destruct (getCharacter b pos) as [r|] eqn:Hr; [|done].
  rewrite (Hsame r) by by eapply boardOk_getCharacter.
  repeat (case_match; [done|]).
  apply flat_map_ext. intros d. case_match; [done|].
  destruct (getCharacter b (mkPosition _ _)) as [t|] eqn:Ht; [|done].
  by rewrite (Hsame t) by by eapply boardOk_getCharacter.
Qed.

Lemma getAllValidMoves_same_units h h' b pid :
  boardOk h b = true → (∀ r, (r < length h)%nat → h' !!! r = h !!! r) →
  getAllValidMoves h' b pid = getAllValidMoves h b pid.
Proof.
  intros Hok Hsame. unfold getAllValidMoves.
  apply flat_map_ext. intros pos.
  destruct (getCharacter b pos) as [r|] eqn:Hr; [|done].
  rewrite (Hsame r) by by eapply boardOk_getCharacter.
  by rewrite (getValidMoves_same_units h h').
Qed.

Lemma getBoardState_same_units h h' b forPlayer :
  boardOk h b = true → (∀ r, (r < length h)%nat → h' !!! r = h !!! r) →
  getBoardState h' b forPlayer = getBoardState h b forPlayer.
Proof.
  intros Hok Hsame. unfold getBoardState.
  apply map_ext. intros r. apply map_ext. intros c. unfold viewCell.
  destruct (cellAt (board b) r c) as [u|] eqn:Hu; [|done].
  by rewrite (Hsame u) by by eapply gridOk_cellAt.
Qed.

Lemma findFlagCaptureMoves_same_units h h' b allMoves :
  boardOk h b = true → (∀ r, (r < length h)%nat → h' !!! r = h !!! r) →
  BasicAI.findFlagCaptureMoves h' b allMoves
  = BasicAI.findFlagCaptureMoves h b allMoves.
Proof.
  intros Hok Hsame. unfold BasicAI.findFlagCaptureMoves.
  apply flat_map_ext. intros [pos move]. simpl.
  destruct (getCharacter b (toPos move)) as [t|] eqn:Ht; [|done].
  by rewrite (Hsame t) by by eapply boardOk_getCharacter.
Qed.
End SameUnits.

(** Right after [clone()] the copy answers as the original: the store
    still holds every unit as it was (42 fresh units are added and belong to
    no board), the copy is well formed and has the fields of the original,
    and [getValidMoves], [getAllValidMoves] and [getBoardState] give the
    same answers on both. *)
Theorem clone_answers_alike (h : Heap) (b : GameBoard) :
  boardOk h b = true →
  let '(h', copy) := clone h b in
  length h' = (length h + 42)%nat
  ∧ (∀ r, (r < length h)%nat → h' !!! r = h !!! r)
  ∧ boardOk h' copy = true
  ∧ board copy = board b ∧ currentPlayer copy = currentPlayer b
  ∧ gameOver copy = gameOver b ∧ winner copy = winner b
  ∧ lastBattle copy = lastBattle b
  ∧ (∀ pos, getValidMoves h' copy pos = getValidMoves h b pos)
  ∧ (∀ pid, getAllValidMoves h' copy pid = getAllValidMoves h b pid)
  ∧ (∀ forPlayer, getBoardState h' copy forPlayer = getBoardState h b forPlayer).
Proof.
  intros Hok. pose proof (boardOk_clone h b Hok) as Hok'.
  rewrite clone_spec in *. simpl in Hok'.
  assert (∀ r, (r < length h)%nat →
               (h ++ createFullTeam 0 ++ createFullTeam 1) !!! r = h !!! r)
    as Hsame by (intros r Hr; by rewrite lookup_total_app_l).
  split_and!; try done.
  - rewrite !length_app. simpl. lia.
  - intros pos. by apply getValidMoves_same_units.
  - intros pid. by apply getAllValidMoves_same_units.
  - intros fp. by apply getBoardState_same_units.
Qed.

(** The position with the flag in reach, cloned. *)
Lemma clone_answers_alike_flagInReach :
  boardOk (fst Positions.flagInReach) (snd Positions.flagInReach) = true
  ∧ let '(h', copy) :=
      clone (fst Positions.flagInReach) (snd Positions.flagInReach) in
    length h' = (length (fst Positions.flagInReach) + 42)%nat
    ∧ (∀ r, (r < length (fst Positions.flagInReach))%nat →
            h' !!! r = fst Positions.flagInReach !!! r)
    ∧ boardOk h' copy = true
    ∧ board copy = board (snd Positions.flagInReach)
    ∧ currentPlayer copy = currentPlayer (snd Positions.flagInReach)
    ∧ gameOver copy = gameOver (snd Positions.flagInReach)
    ∧ winner copy = winner (snd Positions.flagInReach)
    ∧ lastBattle copy = lastBattle (snd Positions.flagInReach)
    ∧ (∀ pos, getValidMoves h' copy pos
              = getValidMoves (fst Positions.flagInReach)
                  (snd Positions.flagInReach) pos)
    ∧ (∀ pid, getAllValidMoves h' copy pid
              = getAllValidMoves (fst Positions.flagInReach)
                  (snd Positions.flagInReach) pid)
    ∧ (∀ forPlayer, getBoardState h' copy forPlayer
                    = getBoardState (fst Positions.flagInReach)
                        (snd Positions.flagInReach) forPlayer).
Proof.
  split; [reflexivity|].
  apply (clone_answers_alike (fst Positions.flagInReach)
           (snd Positions.flagInReach)). reflexivity.
Defined.

(** ** ai/mctsAI.js: a playout takes a flag in reach *)

Section PlayoutFlag.
Import MCTSAI.
Implicit Types (h : Heap) (b : GameBoard).

Lemma simulateLoop_over rnd (remaining moves : nat) h b :
  gameOver b = true → simulateLoop rnd remaining moves h b = (h, b, moves).
Proof.
  intros Hover. destruct remaining; cbn [simulateLoop]; [done|].
  unfold isGameOver. by rewrite Hover.
Qed.
End PlayoutFlag.

(** When the game is not over and the player to move has a move onto a
    flag, every playout with a positive cap, whatever its random draws,
    plays such a move first and reports that player as the winner. *)
Theorem simulate_takes_flag (rnd : nat → nat) (h : Heap) (b : GameBoard)
    (maxMoves : option nat) :
  boardOk h b = true →
  gameOver b = false →
  BasicAI.findFlagCaptureMoves h b (getAllValidMoves h b (currentPlayer b)) ≠ [] →
  (0 < default 100%nat maxMoves)%nat →
  snd (MCTSAI.simulate rnd h b maxMoves) = Some (currentPlayer b).
Proof.
  intros Hok Hover Hflag Hcap. unfold MCTSAI.simulate.
  rewrite clone_spec. cbv zeta.
  set (h0 := h ++ createFullTeam 0 ++ createFullTeam 1).
  assert (∀ r, (r < length h)%nat → h0 !!! r = h !!! r) as Hsame
    by (intros r Hr; subst h0; by rewrite lookup_total_app_l).
  destruct (default 100%nat maxMoves) as [|k]; [lia|].
  cbn [MCTSAI.simulateLoop]. unfold isGameOver. rewrite Hover.
  rewrite (getAllValidMoves_same_units h h0) by done.
  unfold MCTSAI.selectSimulationMove.
  rewrite (findFlagCaptureMoves_same_units h h0) by done.
  destruct (BasicAI.findFlagCaptureMoves h b _) as [|move rest] eqn:Hmoves;
    [done|].
  assert (move ∈ BasicAI.findFlagCaptureMoves h b
                   (getAllValidMoves h b (currentPlayer b))) as Hin
    by (rewrite Hmoves; left).
  apply findFlagCaptureMoves_elem in Hin as [(pos & Hin) (t & Ht & Hty)].
  destruct (getAllValidMoves h b (currentPlayer b)) as [|i l] eqn:Hall;
    [by apply elem_of_nil in Hin|].
  rewrite <-Hall in Hin. change (length (i :: l) =? 0)%nat with false.
  cbv iota.
  apply getAllValidMoves_elem in Hin as [Hvalid (r & Hr & Hid)].
  pose proof (getValidMoves_fromPos h b pos move Hvalid) as Hfrom. subst pos.
  assert (snd (makeMove h0 b move) = true) as Hacc.
  { apply makeMove_ok. by rewrite (getValidMoves_same_units h h0). }
  assert (type (h0 !!! t) = FLAG) as Hty0.
  { rewrite Hsame; [done|]. by eapply boardOk_getCharacter. }
  rewrite (makeMove_battle h0 b move r t Hr Ht Hacc). cbn [fst snd].
  destruct (applyBattle_flag h0 b move r t Hty0) as (_ & Hg & Hw).
  rewrite simulateLoop_over by done.
  unfold MCTSAI.outcome, isGameOver, getWinner. simpl. rewrite Hg, Hw.
  rewrite Hsame; [by rewrite Hid|]. by eapply boardOk_getCharacter.
Qed.

(** The player's sergeant below the AI's flag. *)
Lemma simulate_takes_flag_sergeant :
  boardOk (fst Positions.flagInReach) (snd Positions.flagInReach) = true
  ∧ gameOver (snd Positions.flagInReach) = false
  ∧ BasicAI.findFlagCaptureMoves (fst Positions.flagInReach)
      (snd Positions.flagInReach)
      (getAllValidMoves (fst Positions.flagInReach) (snd Positions.flagInReach)
         (currentPlayer (snd Positions.flagInReach))) ≠ []
  ∧ (0 < default 100%nat None)%nat
  ∧ snd (MCTSAI.simulate (fun _ => 0%nat) (fst Positions.flagInReach)
           (snd Positions.flagInReach) None)
    = Some (currentPlayer (snd Positions.flagInReach)).
Proof.
  assert (BasicAI.findFlagCaptureMoves (fst Positions.flagInReach)
            (snd Positions.flagInReach)
            (getAllValidMoves (fst Positions.flagInReach)
               (snd Positions.flagInReach)
               (currentPlayer (snd Positions.flagInReach))) ≠ []) as Hne.
  { vm_compute. discriminate. }
  assert (0 < default 100%nat None)%nat as Hcap by (simpl; lia).
  split; [reflexivity|]. split; [reflexivity|]. split; [exact Hne|].
  split; [exact Hcap|].
  apply (simulate_takes_flag (fun _ => 0%nat) (fst Positions.flagInReach)
           (snd Positions.flagInReach) None eq_refl eq_refl Hne Hcap).
Defined.

(** ** App.jsx and components/Board.jsx: the screen *)

Section Screen.
Implicit Types (h : Heap) (b : GameBoard).

(** The cell of the projection that a click reads. *)
Lemma getBoardState_lookup h b forPlayer (r c : nat) :
  match getBoardState h b forPlayer !! r with
  | Some cells => match cells !! c with Some x => x | None => None end
  | None => None
  end
  = if decide (r < 9 ∧ c < 7)%nat
    then viewCell h forPlayer (cellAt (board b) r c) else None.
Proof.
  unfold getBoardState. rewrite lookup_map.
  change (Z.to_nat ROWS) with 9%nat. change (Z.to_nat COLS) with 7%nat.
  destruct (decide (r < 9)%nat) as [Hr|Hr].
  - rewrite lookup_seq_lt by done. cbn [fmap option_fmap option_map].
    rewrite lookup_map.
    destruct (decide (c < 7)%nat) as [Hc|Hc].
    + rewrite lookup_seq_lt by done. rewrite decide_True by done. done.
    + rewrite lookup_seq_ge by lia. rewrite decide_False by lia. done.
  - rewrite lookup_seq_ge by lia. rewrite decide_False by lia. done.
Qed.

Lemma getCharacter_screen b (r c : nat) :
  (r < 9)%nat → (c < 7)%nat →
  getCharacter b (mkPosition (Z.of_nat r) (Z.of_nat c)) = cellAt (board b) r c.
Proof.
  intros Hr Hc. unfold getCharacter, isValidPosition, ROWS, COLS. cbn [row col].
  rewrite !Nat2Z.id.
  replace (_ && _ && _ && _) with true; [done|].
  symmetry. rewrite !andb_true_iff, !Z.leb_le, !Z.ltb_lt. lia.
Qed.

(** A cell shown as a living unit of the player holds one. *)
Lemma viewCell_own h (x : Cell) v :
  viewCell h 1 x = Some v →
  (view_player_id v =? 1) && view_is_alive v = true →
  ∃ u, x = Some u ∧ playerId (h !!! u) = 1 ∧ isAlive (h !!! u) = true.
Proof.
  unfold viewCell. destruct x as [u|]; [|done].
  intros Hv Hown. exists u. split; [done|].
  apply andb_true_iff in Hown as [Hp Ha]. apply Z.eqb_eq in Hp.
  destruct (_ || _); simplify_eq/=; done.
Qed.

Lemma isValidMove_fetched h b (sr sc r c : nat) :
  isValidMove (fetchValidMoves h b sr sc) r c = true →
  mkMove (mkPosition (Z.of_nat sr) (Z.of_nat sc))
         (mkPosition (Z.of_nat r) (Z.of_nat c))
  ∈ getValidMoves h b (mkPosition (Z.of_nat sr) (Z.of_nat sc)).
Proof.
  unfold isValidMove, fetchValidMoves. rewrite existsb_exists.
  intros (d & Hd & Heq). apply in_map_iff in Hd as (m & <- & Hm).
  apply list_elem_of_In in Hm. simpl in Heq.
  apply andb_true_iff in Heq as [Hr Hc]. apply Z.eqb_eq in Hr, Hc.
  pose proof (getValidMoves_fromPos h b _ m Hm) as Hfrom.
  destruct m as [from [tr tc]]. simpl in *. by subst.
Qed.

Lemma typeNameOf_not_hidden (t : CharacterType) :
  String.eqb (typeNameOf t) "HIDDEN" = false.
Proof. by destruct t. Qed.

Lemma name_shown (t : CharacterType) :
  CharacterType_name t ≠ "???" ∧ CharacterType_name t ≠ "".
Proof. by destruct t. Qed.
End Screen.

(** [updateGameState] offers the player exactly the moves the engine
    accepts: a move is in [gameState.valid_moves] if and only if the game is
    not over, it is player 1's turn and [makeMove] accepts the move; so the
    list is empty once the game is over or while the AI is to move. *)
Theorem updateGameState_offers_legal_moves (h : Heap) (b : GameBoard)
    (fr fc tr tc : Z) :
  (mkMoveView fr fc tr tc ∈ gs_valid_moves (updateGameState h b) ↔
     gameOver b = false ∧ currentPlayer b = 1
     ∧ snd (makeMove h b (mkMove (mkPosition fr fc) (mkPosition tr tc))) = true)
  ∧ (gameOver b = true ∨ currentPlayer b ≠ 1 →
     gs_valid_moves (updateGameState h b) = [])
  ∧ gs_board (updateGameState h b) = getBoardState h b 1
  ∧ gs_game_over (updateGameState h b) = gameOver b
  ∧ gs_winner (updateGameState h b) = winner b.
Proof.
  split_and!; try done.
  - unfold updateGameState. cbn [gs_valid_moves].
    destruct (currentPlayer b =? 1) eqn:Hcp; simpl.
    2: { split; [by intros ?%elem_of_nil|]. intros (_ & Hone & _).
         apply Z.eqb_neq in Hcp. done. }
    apply Z.eqb_eq in Hcp.
    destruct (gameOver b) eqn:Hover; simpl.
    { split; [by intros ?%elem_of_nil|]. by intros (? & _). }
    rewrite list_elem_of_In, in_map_iff, makeMove_ok. split.
    + intros ([pos move] & Heq & Hin). simpl in Heq.
      apply list_elem_of_In, getAllValidMoves_elem in Hin as [Hm _].
      pose proof (getValidMoves_fromPos h b pos move Hm) as Hfrom.
      destruct move as [[a1 a2] [a3 a4]]. simpl in *. simplify_eq.
      by split_and!.
    + intros (_ & _ & Hm).
      exists (mkPosition fr fc, mkMove (mkPosition fr fc) (mkPosition tr tc)).
      split; [done|]. apply list_elem_of_In, getAllValidMoves_elem.
      split; [done|].
      destruct (getValidMoves_mover h b _ _ Hm) as (r & Hr & _ & _ & Hp).
      exists r. split; [done|]. simpl in Hr. congruence.
  - unfold updateGameState. cbn [gs_valid_moves].
    intros [-> | Hne]; [by rewrite andb_false_r|].
    apply Z.eqb_neq in Hne. by rewrite Hne.
Qed.

(** A click never submits a move the engine rejects.  With the game state
    and the highlighted destinations computed from the current board, a
    click that calls [makeMove] does so from the selected cell to the
    clicked one and the engine accepts that move; a click that selects a
    cell selects a living unit of the player; and a click is ignored only
    when the game is over, it is not the player's turn or a move is being
    processed. *)
Theorem handleCellClick_sound (h : Heap) (b : GameBoard)
    (selectedCell : option (nat * nat)) (loading : bool) (r c : nat) :
  let validMoves :=
    match selectedCell with
    | Some (sr, sc) => fetchValidMoves h b sr sc
    | None => []
    end in
  match handleCellClick (Some (updateGameState h b)) selectedCell validMoves
          loading r c with
  | ClickMove fromRow fromCol toRow toCol =>
    selectedCell = Some (fromRow, fromCol) ∧ toRow = r ∧ toCol = c
    ∧ snd (makeMove h b
             (mkMove (mkPosition (Z.of_nat fromRow) (Z.of_nat fromCol))
                     (mkPosition (Z.of_nat toRow) (Z.of_nat toCol)))) = true
  | ClickSelect r' c' =>
    r' = r ∧ c' = c
    ∧ ∃ u, getCharacter b (mkPosition (Z.of_nat r) (Z.of_nat c)) = Some u
           ∧ playerId (h !!! u) = 1 ∧ isAlive (h !!! u) = true
  | ClickIgnored =>
    gameOver b = true ∨ currentPlayer b ≠ 1 ∨ loading = true
  | ClickDeselect => True
  end.
Proof.
  cbv zeta. unfold handleCellClick.
  cbn [gs_game_over gs_current_player gs_board updateGameState].
  destruct (gameOver b) eqn:Hover; [by left|].
  destruct (currentPlayer b =? 1) eqn:Hcp;
    [|right; left; by apply Z.eqb_neq].
  destruct loading; [right; by right|]. cbn [orb negb].
  rewrite getBoardState_lookup.
  assert (∀ v, (if decide (r < 9 ∧ c < 7)%nat
                then viewCell h 1 (cellAt (board b) r c) else None) = Some v →
               (view_player_id v =? 1) && view_is_alive v = true →
               ∃ u, getCharacter b (mkPosition (Z.of_nat r) (Z.of_nat c)) = Some u
                    ∧ playerId (h !!! u) = 1 ∧ isAlive (h !!! u) = true)
    as Hsel.
  { intros v Hv Hown. case_decide as Hrc; [|done]. destruct Hrc as [Hr Hc].
    destruct (viewCell_own h _ v Hv Hown) as (u & Hu & Hp & Ha).
    exists u. by rewrite getCharacter_screen. }
  destruct (isSelected selectedCell r c); [done|].
  destruct selectedCell as [[sr sc]|].
  - destruct (isValidMove _ r c) eqn:Hvalid.
    + split_and!; try done.
      apply makeMove_ok. by apply isValidMove_fetched.
    + destruct (if decide _ then _ else _) as [v|] eqn:Hv; [|done].
      destruct (_ && _) eqn:Hown; [|done]. split_and!; try done. eauto.
  - destruct (if decide _ then _ else _) as [v|] eqn:Hv; [|done].
    destruct (_ && _) eqn:Hown; [|done]. split_and!; try done. eauto.
Qed.

(** The screen names a unit exactly when the viewer may know it: for a
    cell of [getBoardState(forPlayer)], [getCharacterDisplay] is empty for
    an empty cell, the unit's name when [forPlayer] owns the unit or the
    unit is revealed, and [???] otherwise; no unit is named [???] or has an
    empty name. *)
Theorem getCharacterDisplay_hides_names (h : Heap) (forPlayer : Z) (x : Cell) :
  getCharacterDisplay (viewCell h forPlayer x)
  = match x with
    | None => ""
    | Some u =>
      if (playerId (h !!! u) =? forPlayer) || isRevealed (h !!! u)
      then name (h !!! u) else "???"
    end
  ∧ (∀ c : Character, name c ≠ "???" ∧ name c ≠ "").
Proof.
  split; [|intros c; apply name_shown].
  unfold getCharacterDisplay, viewCell. destruct x as [u|]; [|done].
  destruct (_ || _); cbn [view_type view_name]; [|done].
  unfold typeName. by rewrite typeNameOf_not_hidden.
Qed.

(** ** board.js: units on the grid *)

Section Placed.
Implicit Types (h : Heap) (b : GameBoard) (p q : Position) (move : Move).

Lemma placedOk_spec h b :
  placedOk h b = true ↔
    (∀ p u, getCharacter b p = Some u → isAlive (h !!! u) = true)
    ∧ (∀ p q u, getCharacter b p = Some u → getCharacter b q = Some u → p = q).
Proof.
  unfold placedOk. rewrite forallb_forall. split.
  - intros Hall.
    assert (∀ p u, getCharacter b p = Some u →
              isAlive (h !!! u) = true
              ∧ ∀ q, getCharacter b q = Some u → p = q) as Hboth.
    { intros p u Hu.
      assert (In p allPositions) as Hin.
      { apply list_elem_of_In, allPositions_valid. by eapply getCharacter_valid. }
      specialize (Hall p Hin). rewrite Hu in Hall.
      apply andb_true_iff in Hall as [Ha Hq]. split; [done|].
      intros q Hqu. rewrite forallb_forall in Hq.
      assert (In q allPositions) as Hinq.
      { apply list_elem_of_In, allPositions_valid. by eapply getCharacter_valid. }
      specialize (Hq q Hinq).
      rewrite (bool_decide_eq_true_2 _ Hqu) in Hq. simpl in Hq.
      by apply bool_decide_eq_true in Hq. }
    split.
    + intros p u Hu. by apply (Hboth p u).
    + intros p q u Hp Hq. by apply (Hboth p u).
  - intros [Halive Huniq] p _.
    destruct (getCharacter b p) as [u|] eqn:Hu; [|done].
    apply andb_true_iff. split; [by eapply Halive|].
    apply forallb_forall. intros q _.
    destruct (decide (getCharacter b q = Some u)) as [Hq|Hq].
    + rewrite (bool_decide_eq_true_2 (p = q)); [by rewrite orb_true_r|].
      by eapply Huniq.
    + by rewrite (bool_decide_eq_false_2 _ Hq).
Qed.

(** The grid and the participants after an accepted move. *)
Lemma makeMove_read h b move :
  boardOk h b = true →
  snd (makeMove h b move) = true →
  ∃ c, getCharacter b (fromPos move) = Some c
    ∧ fromPos move ≠ toPos move
    ∧ isAlive (h !!! c) = true
    ∧ match getCharacter b (toPos move) with
      | None =>
        fst (fst (makeMove h b move)) = h
        ∧ ∀ q, getCharacter (snd (fst (makeMove h b move))) q
               = if decide (fromPos move = q) then None
                 else if decide (toPos move = q) then Some c
                      else getCharacter b q
      | Some t =>
        let result := snd (resolveBattle h c t) in
        c ≠ t
        ∧ isAlive (fst (fst (makeMove h b move)) !!! c)
          = attackerSurvives result
        ∧ isAlive (fst (fst (makeMove h b move)) !!! t)
          = isAlive (h !!! t) && defenderSurvives result
        ∧ (∀ x, x ≠ c → x ≠ t → fst (fst (makeMove h b move)) !!! x = h !!! x)
        ∧ ∀ q, getCharacter (snd (fst (makeMove h b move))) q
               = if decide (fromPos move = q) then None
                 else if decide (toPos move = q)
                      then (if attackerSurvives result then Some c
                            else if defenderSurvives result then Some t
                                 else None)
                      else getCharacter b q
      end.
Proof.
  intros Hok Hacc.
  destruct (makeMove_cases h b move)
    as [Hrej | [(c & Hc & Ht & Hin & Heq) | (c & t & Hc & Ht & Hin & Heq)]];
    [by rewrite Hrej in Hacc| |].
  - destruct (getValidMoves_moves_away h b move Hin) as [Hfrom Hne].
    destruct (getValidMoves_target h b _ move Hin) as (Hto & _ & _).
    destruct (getValidMoves_mover h b _ move Hin) as (r & Hr & Halive & _).
    rewrite Hc in Hr. simplify_eq.
    apply not_true_iff_false in Hne. rewrite Position_equals_eq in Hne.
    pose proof (boardOk_getCharacter h b _ r Hok Hc) as Hlt.
    unfold boardOk in Hok.
    assert (gridOk (length h) (setCell (board b) (toPos move) (Some r)) = true)
      as Hok1 by (apply gridOk_setCell; [by apply Nat.ltb_lt|done]).
    exists r. rewrite Ht, Heq. cbn [fst snd]. split_and!; try done.
    intros q.
    rewrite (getCharacter_board _
               (set_board (setCell (setCell (board b) (toPos move) (Some r))
                             (fromPos move) None) b)) by done.
    rewrite (getCharacter_write (length h)) by done.
    rewrite (getCharacter_write (length h)) by done.
    repeat case_decide; done.
  - destruct (getValidMoves_moves_away h b move Hin) as [Hfrom Hne].
    destruct (getValidMoves_target h b _ move Hin) as (Hto & _ & Hother).
    destruct (getValidMoves_mover h b _ move Hin) as (r & Hr & Halive & _).
    rewrite Hc in Hr. simplify_eq.
    specialize (Hother _ _ Hc Ht).
    assert (r ≠ t) as Hdiff by congruence.
    pose proof (boardOk_getCharacter h b _ r Hok Hc) as Hlr.
    pose proof (boardOk_getCharacter h b _ t Hok Ht) as Hlt.
    destruct (applyBattle_alive h b move r t Hdiff Hlr Hlt) as [Har Hat].
    rewrite Halive in Har.
    assert (fromPos move ≠ toPos move) as Hne'.
    { intros Heq'. apply not_true_iff_false in Hne. apply Hne.
      by apply Position_equals_eq. }
    exists r. rewrite Ht, Heq. cbn [fst snd]. cbv zeta.
    split; [done|]. split; [done|]. split; [done|]. split; [done|].
    split; [by rewrite Har|]. split; [done|].
    split; [intros x Hx1 Hx2; by apply applyBattle_units|].
    intros q. unfold boardOk in Hok.
    assert (cellOk (length h) (Some r) = true) as Hcr by by apply Nat.ltb_lt.
    rewrite (getCharacter_board _
               (set_board (board (snd (applyBattle h b move r t))) b)) by done.
    rewrite applyBattle_board. cbv zeta. rewrite Hne.
    assert (getCharacter (set_board (board b) b) q = getCharacter b q) as Hsame
      by by apply getCharacter_board.
    destruct (attackerSurvives _), (defenderSurvives _);
      repeat (rewrite (getCharacter_write (length h))
                by auto using gridOk_setCell);
      rewrite ?Hsame;
      repeat case_decide; subst; try done; try congruence.
Qed.

Lemma placed_makeMove h b move :
  boardOk h b = true → placedOk h b = true →
  placedOk (fst (fst (makeMove h b move))) (snd (fst (makeMove h b move)))
  = true.
Proof.
  intros Hok Hplaced.
  destruct (snd (makeMove h b move)) eqn:Hacc;
    [|by rewrite (makeMove_rejected h b move Hacc)].
  destruct (makeMove_read h b move Hok Hacc) as (c & Hc & Hne & Hca & Hcase).
  apply placedOk_spec in Hplaced as [Halive Huniq].
  apply placedOk_spec.
  destruct (getCharacter b (toPos move)) as [t|] eqn:Ht.
  - cbv zeta in Hcase.
    destruct Hcase as (Hdiff & Hac & Hat & Hsame & Hread).
    set (res := snd (resolveBattle h c t)) in *.
    assert (∀ q u, getCharacter (snd (fst (makeMove h b move))) q = Some u →
              (q = toPos move
               ∧ ((u = c ∧ attackerSurvives res = true)
                  ∨ (u = t ∧ attackerSurvives res = false
                     ∧ defenderSurvives res = true)))
              ∨ (q ≠ fromPos move ∧ q ≠ toPos move
                 ∧ getCharacter b q = Some u ∧ u ≠ c ∧ u ≠ t)) as Hcell.
    { intros q u. rewrite Hread. repeat case_decide; subst; try done.
      - intros Hu. left. split; [done|].
        destruct (attackerSurvives res); [left; by simplify_eq|].
        destruct (defenderSurvives res); [right; by simplify_eq|done].
      - intros Hu. right. split_and!; try done.
        + intros ->. by apply H, (Huniq _ _ c).
        + intros ->. by apply H0, (Huniq _ _ t). }
    split.
    + intros p u Hu.
      destruct (Hcell p u Hu) as [[_ [[-> Hs]|(-> & Hs1 & Hs2)]]|(_ & _ & Hb & ? & ?)].
      * by rewrite Hac.
      * rewrite Hat, Hs2, (Halive _ _ Ht). done.
      * rewrite Hsame by done. by eapply Halive.
    + intros p q u Hp Hq.
      destruct (Hcell p u Hp) as [[-> Hu1]|(? & ? & Hbp & ? & ?)],
               (Hcell q u Hq) as [[-> Hu2]|(? & ? & Hbq & ? & ?)];
        try done.
      * destruct Hu1 as [[-> _]|[-> _]]; done.
      * destruct Hu2 as [[-> _]|[-> _]]; done.
      * by eapply Huniq.
  - destruct Hcase as [Hstore Hread]. rewrite Hstore.
    assert (∀ q u, getCharacter (snd (fst (makeMove h b move))) q = Some u →
              (q = toPos move ∧ u = c)
              ∨ (q ≠ fromPos move ∧ q ≠ toPos move
                 ∧ getCharacter b q = Some u ∧ u ≠ c)) as Hcell.
    { intros q u. rewrite Hread. repeat case_decide; subst; try done.
      - intros [= <-]. by left.
      - intros Hu. right. split_and!; try done.
        intros ->. by apply H, (Huniq _ _ c). }
    split.
    + intros p u Hu.
      destruct (Hcell p u Hu) as [[_ ->]|(_ & _ & Hb & _)]; [done|].
      by eapply Halive.
    + intros p q u Hp Hq.
      destruct (Hcell p u Hp) as [[Hp1 Hu1]|(? & ? & Hbp & ?)],
               (Hcell q u Hq) as [[Hq1 Hu2]|(? & ? & Hbq & ?)];
        [congruence|done|done|by eapply Huniq].
Qed.

Lemma turn_does_not_repeat h b move (move' : Move) u :
  snd (makeMove h b move) = true →
  getCharacter (snd (fst (makeMove h b move))) (fromPos move') = Some u →
  playerId (fst (fst (makeMove h b move)) !!! u) = currentPlayer b →
  makeMove (fst (fst (makeMove h b move)))
    (snd (fst (makeMove h b move))) move'
  = (fst (fst (makeMove h b move)), snd (fst (makeMove h b move)), false).
Proof.
  intros Hacc Hu Hp. apply makeMove_rejected, not_true_iff_false.
  intros Hacc'.
  apply makeMove_ok, getValidMoves_mover in Hacc' as (u' & Hu' & _ & _ & Hcp).
  rewrite Hu in Hu'. simplify_eq.
  rewrite (makeMove_turn h b move Hacc) in Hcp. lia.
Qed.
End Placed.

(** *** C2: [makeMove] on the moves its callers pass *)

Section Objects.
Implicit Types (h : Heap) (b : GameBoard) (to : Dyn.PositionObject).

Lemma Position_equals_refl (p : Position) : Position_equals p p = true.
Proof. by apply Position_equals_eq. Qed.

(** On an instance the scan is the test on coordinates. *)
Lemma Dyn_isValidIn_instance (f : Position) to (l : list Move) :
  (∀ m, m ∈ l → fromPos m = f) →
  Dyn.isValidIn
    (map (fun m : Move =>
            match m with
            | mkMove _ newPos =>
              Dyn.mkMoveObject (Dyn.Instance f) (Dyn.Instance newPos)
            end) l)
    (Dyn.mkMoveObject (Dyn.Instance f) to)
  = Dyn.Returns (isValidIn l (mkMove f (Dyn.coords to))).
Proof.
  induction l as [|[mf mt] l IH]; intros Hfrom; [done|].
  cbn [map Dyn.isValidIn Dyn.fromPos Dyn.toPos Dyn.equals Dyn.coords].
  rewrite Position_equals_refl.
  unfold isValidIn. cbn [existsb fromPos toPos].
  assert (mf = f) as -> by (apply (Hfrom (mkMove mf mt)); left).
  rewrite Position_equals_refl. cbn [andb].
  destruct (Position_equals mt (Dyn.coords to)); [done|].
  cbn [orb]. apply IH. intros m Hm. apply Hfrom. by right.
Qed.

(** On a plain object the first move of the scan throws. *)
Lemma Dyn_isValidIn_plain (r c : Z) to (l : list Move) :
  Dyn.isValidIn
    (map (fun m : Move =>
            match m with
            | mkMove _ newPos =>
              Dyn.mkMoveObject (Dyn.Plain r c) (Dyn.Instance newPos)
            end) l)
    (Dyn.mkMoveObject (Dyn.Plain r c) to)
  = match l with [] => Dyn.Returns false | _ :: _ => Dyn.Throws Dyn.TypeError end.
Proof. by destruct l as [|[mf mt] l]. Qed.

(** With instances, the method is [makeMove] above. *)
Lemma Dyn_makeMove_instance h b (f : Position) to :
  Dyn.makeMove h b (Dyn.mkMoveObject (Dyn.Instance f) to)
  = (fst (makeMove h b (mkMove f (Dyn.coords to))),
     Dyn.Returns (snd (makeMove h b (mkMove f (Dyn.coords to))))).
Proof.
  unfold Dyn.makeMove, makeMove, Dyn.getValidMoves.
  cbn [Dyn.fromPos Dyn.toPos Dyn.coords fromPos toPos].
  destruct (getCharacter b f) as [c|]; [|done].
  rewrite Dyn_isValidIn_instance
    by (intros m Hm; by apply (getValidMoves_fromPos h b)).
  destruct (isValidIn _ _); cbn [negb]; [|done].
  by destruct (getCharacter b (Dyn.coords to)) as [t|];
    [destruct (applyBattle _ _ _ _ _)|].
Qed.

Lemma Dyn_makeMove_plain h b (r c : Z) to :
  Dyn.makeMove h b (Dyn.mkMoveObject (Dyn.Plain r c) to)
  = (h, b,
     match getValidMoves h b (mkPosition r c) with
     | [] => Dyn.Returns false
     | _ :: _ => Dyn.Throws Dyn.TypeError
     end).
Proof.
  unfold Dyn.makeMove, Dyn.getValidMoves.
  cbn [Dyn.fromPos Dyn.toPos Dyn.coords].
  rewrite Dyn_isValidIn_plain.
  destruct (getCharacter b (mkPosition r c)) as [u|] eqn:Hu.
  - by destruct (getValidMoves h b (mkPosition r c)).
  - unfold getValidMoves. by rewrite Hu.
Qed.

(** What an accepted move leaves, on a well-formed board. *)
Lemma makeMove_applied h b (move : Move) :
  boardOk h b = true →
  snd (makeMove h b move) = true →
  ∃ c, getCharacter b (fromPos move) = Some c
    ∧ fromPos move ≠ toPos move
    ∧ currentPlayer (snd (fst (makeMove h b move))) = 1 - currentPlayer b
    ∧ match getCharacter b (toPos move) with
      | None =>
        fst (fst (makeMove h b move)) = h
        ∧ lastBattle (snd (fst (makeMove h b move))) = None
        ∧ ∀ q, getCharacter (snd (fst (makeMove h b move))) q
               = if decide (fromPos move = q) then None
                 else if decide (toPos move = q) then Some c
                      else getCharacter b q
      | Some t =>
        let result := snd (resolveBattle h c t) in
        isAlive (fst (fst (makeMove h b move)) !!! c)
          = attackerSurvives result
        ∧ isAlive (fst (fst (makeMove h b move)) !!! t)
          = isAlive (h !!! t) && defenderSurvives result
        ∧ (∀ x, x ≠ c → x ≠ t → fst (fst (makeMove h b move)) !!! x = h !!! x)
        ∧ ∀ q, getCharacter (snd (fst (makeMove h b move))) q
               = if decide (fromPos move = q) then None
                 else if decide (toPos move = q)
                      then (if attackerSurvives result then Some c
                            else if defenderSurvives result then Some t
                                 else None)
                      else getCharacter b q
      end.
Proof.
  intros Hok Hacc.
  destruct (makeMove_read h b move Hok Hacc) as (c & Hc & Hne & _ & Hcase).
  exists c. split; [done|]. split; [done|].
  split; [by apply makeMove_turn|].
  destruct (getCharacter b (toPos move)) as [t|] eqn:Ht.
  - cbv zeta in Hcase |- *. by destruct Hcase as (_ & ? & ? & ? & ?).
  - destruct Hcase as [Hstore Hread]. split; [done|]. split; [|done].
    destruct (makeMove_cases h b move)
      as [Hrej | [(c' & _ & _ & _ & Heq) | (c' & t & _ & Ht' & _)]].
    + by rewrite Hrej in Hacc.
    + by rewrite Heq.
    + by rewrite Ht in Ht'.
Qed.
End Objects.

(** C2: the claim fails on the moves of the advanced agent.  On the board
    where the AI's captain stands above the player's corporal, the move
    from (4,3) to (5,3) is one of [getValidMoves]; passed with positions
    built by [new Position] it is accepted and played (the corporal dies
    and the captain takes its cell), but passed as
    [{ fromPos: { row: 4, col: 3 }, toPos: { row: 5, col: 3 } }], as
    [MCTSAI.getMove] returns it, [makeMove] throws a [TypeError] and
    leaves the game as it was.  In general: [makeMove] throws exactly when
    [move.fromPos] is a plain object and the unit there has a move; it
    returns [true] exactly when [move.fromPos] is an instance and the
    coordinates are those of a move of [getValidMoves(move.fromPos)], and
    then the move is played (an empty destination receives the unit; an
    occupied one is fought for as [resolveBattle] says; the origin is
    vacated, no other cell changes and the turn passes); in every other
    case the store of units and the whole board record are unchanged. *)
Theorem makeMove_throws_on_plain_positions :
  (let '(h, b) := Positions.twoPreys in
   let captain := Positions.aiUnit Positions.iCAPTAIN in
   let corporal := Positions.playerUnit Positions.iCORPORAL in
   let built :=
     Dyn.mkMoveObject (Dyn.Instance (mkPosition 4 3))
                      (Dyn.Instance (mkPosition 5 3)) in
   let plain := Dyn.mkMoveObject (Dyn.Plain 4 3) (Dyn.Plain 5 3) in
   let '(h1, b1, r1) := Dyn.makeMove h b built in
   getCharacter b (mkPosition 4 3) = Some captain
   ∧ getCharacter b (mkPosition 5 3) = Some corporal
   ∧ isValidIn (getValidMoves h b (mkPosition 4 3))
       (mkMove (mkPosition 4 3) (mkPosition 5 3)) = true
   ∧ r1 = Dyn.Returns true
   ∧ getCharacter b1 (mkPosition 4 3) = None
   ∧ getCharacter b1 (mkPosition 5 3) = Some captain
   ∧ isAlive (h1 !!! corporal) = false
   ∧ currentPlayer b = 0 ∧ currentPlayer b1 = 1
   ∧ Dyn.makeMove h b plain = (h, b, Dyn.Throws Dyn.TypeError))
  ∧ ∀ (h : Heap) (b : GameBoard) (move : Dyn.MoveObject),
      let from := Dyn.coords (Dyn.fromPos move) in
      let to := Dyn.coords (Dyn.toPos move) in
      let isInstance :=
        match Dyn.fromPos move with
        | Dyn.Instance _ => true
        | Dyn.Plain _ _ => false
        end in
      let '(h', b', res) := Dyn.makeMove h b move in
      (res = Dyn.Throws Dyn.TypeError ↔
         isInstance = false ∧ getValidMoves h b from ≠ [])
      ∧ (res = Dyn.Returns true ↔
           isInstance = true ∧ mkMove from to ∈ getValidMoves h b from)
      ∧ (res ≠ Dyn.Returns true → h' = h ∧ b' = b)
      ∧ (res = Dyn.Returns true → boardOk h b = true →
           ∃ c, getCharacter b from = Some c
             ∧ from ≠ to
             ∧ currentPlayer b' = 1 - currentPlayer b
             ∧ match getCharacter b to with
               | None =>
                 h' = h ∧ lastBattle b' = None
                 ∧ ∀ q, getCharacter b' q
                        = if decide (from = q) then None
                          else if decide (to = q) then Some c
                               else getCharacter b q
               | Some t =>
                 let result := snd (resolveBattle h c t) in
                 isAlive (h' !!! c) = attackerSurvives result
                 ∧ isAlive (h' !!! t)
                   = isAlive (h !!! t) && defenderSurvives result
                 ∧ (∀ x, x ≠ c → x ≠ t → h' !!! x = h !!! x)
                 ∧ ∀ q, getCharacter b' q
                        = if decide (from = q) then None
                          else if decide (to = q)
                               then (if attackerSurvives result then Some c
                                     else if defenderSurvives result
                                          then Some t else None)
                               else getCharacter b q
               end).
Proof.
  split; [vm_compute; by split_and!|].
  intros h b [[f|r c] to]; cbn [Dyn.fromPos Dyn.toPos Dyn.coords]; cbv zeta.
  - rewrite Dyn_makeMove_instance.
    pose proof (makeMove_ok h b (mkMove f (Dyn.coords to))) as Hok.
    pose proof (makeMove_rejected h b (mkMove f (Dyn.coords to))) as Hrej.
    pose proof (makeMove_applied h b (mkMove f (Dyn.coords to))) as Happ.
    cbn [fromPos toPos] in Hok, Happ.
    destruct (makeMove h b (mkMove f (Dyn.coords to))) as [[h' b'] ok].
    cbn [fst snd] in *. split_and!.
    + split; [done|]. by intros [? _].
    + rewrite <-Hok. split; [by intros [= ->]|]. by intros [_ ->].
    + intros Hres. destruct ok; [done|]. specialize (Hrej eq_refl).
      by simplify_eq.
    + intros [= ->] Hwf. by apply Happ.
  - rewrite Dyn_makeMove_plain.
    destruct (getValidMoves h b (mkPosition r c)) as [|m l]; split_and!;
      try done.
    + split; [done|]. by intros [_ ?].
    + split; [done|]. by intros [? _].
    + split; [done|]. by intros [? _].
Qed.

(** Play keeps the units in place: on a well-formed board where every
    unit on the grid is alive and stands on one cell only, the same holds
    after any call of [makeMove]; so a unit that a battle kills is on no
    cell afterwards. *)
Theorem makeMove_keeps_units_placed (h : Heap) (b : GameBoard) (move : Move) :
  boardOk h b = true →
  placedOk h b = true →
  let '(h', b', _) := makeMove h b move in
  placedOk h' b' = true
  ∧ (∀ p u, getCharacter b' p = Some u → isAlive (h' !!! u) = true)
  ∧ (∀ p q u, getCharacter b' p = Some u → getCharacter b' q = Some u → p = q).
Proof.
  intros Hok Hplaced.
  pose proof (placed_makeMove h b move Hok Hplaced) as Hplaced'.
  destruct (makeMove h b move) as [[h' b'] ok]. cbn [fst snd] in Hplaced'.
  split; [done|]. by apply placedOk_spec.
Qed.

(** The military police attacks the captain and dies. *)
Lemma makeMove_keeps_units_placed_police :
  boardOk (fst Positions.policeDuel) (snd Positions.policeDuel) = true
  ∧ placedOk (fst Positions.policeDuel) (snd Positions.policeDuel) = true
  ∧ let '(h', b', _) :=
      makeMove (fst Positions.policeDuel) (snd Positions.policeDuel)
        Positions.policeAttack in
    placedOk h' b' = true
    ∧ (∀ p u, getCharacter b' p = Some u → isAlive (h' !!! u) = true)
    ∧ (∀ p q u, getCharacter b' p = Some u → getCharacter b' q = Some u →
                p = q).
Proof.
  split; [reflexivity|]. split; [reflexivity|].
  apply (makeMove_keeps_units_placed (fst Positions.policeDuel)
           (snd Positions.policeDuel) Positions.policeAttack); reflexivity.
Defined.

(** No player moves twice in a row: after an accepted move, [makeMove]
    rejects every move of a unit owned by the player who just moved. *)
Theorem makeMove_alternates (h : Heap) (b : GameBoard) (move move' : Move)
    (u : nat) :
  snd (makeMove h b move) = true →
  let '(h', b', _) := makeMove h b move in
  getCharacter b' (fromPos move') = Some u →
  playerId (h' !!! u) = currentPlayer b →
  makeMove h' b' move' = (h', b', false).
Proof.
  intros Hacc.
  pose proof (turn_does_not_repeat h b move move' u Hacc) as Hrep.
  destruct (makeMove h b move) as [[h' b'] ok]. exact Hrep.
Qed.

(** After the sergeant stepped aside, the player's captain may not move. *)
Lemma makeMove_alternates_sergeant :
  snd (makeMove (fst Positions.flagInReach) (snd Positions.flagInReach)
         (mkMove (Positions.at_ 1 3) (Positions.at_ 1 4))) = true
  ∧ let '(h', b', _) :=
      makeMove (fst Positions.flagInReach) (snd Positions.flagInReach)
        (mkMove (Positions.at_ 1 3) (Positions.at_ 1 4)) in
    getCharacter b' (fromPos (mkMove (Positions.at_ 7 0) (Positions.at_ 6 0)))
    = Some (Positions.playerUnit Positions.iCAPTAIN) →
    playerId (h' !!! Positions.playerUnit Positions.iCAPTAIN)
    = currentPlayer (snd Positions.flagInReach) →
    makeMove h' b' (mkMove (Positions.at_ 7 0) (Positions.at_ 6 0))
    = (h', b', false).
Proof.
  split; [reflexivity|].
  apply (makeMove_alternates (fst Positions.flagInReach)
           (snd Positions.flagInReach)
           (mkMove (Positions.at_ 1 3) (Positions.at_ 1 4))
           (mkMove (Positions.at_ 7 0) (Positions.at_ 6 0))
           (Positions.playerUnit Positions.iCAPTAIN)). reflexivity.
Defined.

(** ** A game from the first position *)

Lemma createFullTeam_alive (pid : Z) (k : nat) (c : Character) :
  createFullTeam pid !! k = Some c → isAlive c = true.
Proof.
  assert (Forall (fun c => isAlive c = true) (createFullTeam pid)) as Hall
    by (unfold createFullTeam; cbn [map]; repeat constructor).
  intros Hk. by eapply (proj1 (Forall_lookup _ _) Hall).
Qed.

Lemma shuffled_index (l : list nat) (k k' idx idx' : nat) :
  l ≡ₚ seq 0 21 → l !! idx = Some k → l !! idx' = Some k' →
  (k < 21)%nat ∧ (idx < 21)%nat ∧ (k = k' → idx = idx').
Proof.
  intros Hperm Hk Hk'.
  assert (NoDup l) as Hnd by (rewrite Hperm; apply NoDup_seq).
  pose proof (Permutation_length Hperm) as Hlen. rewrite length_seq in Hlen.
  split_and!.
  - assert (k ∈ seq 0 21) as Hin
      by (rewrite <-Hperm; by eapply list_elem_of_lookup_2).
    apply elem_of_seq in Hin. lia.
  - apply lookup_lt_Some in Hk. lia.
  - intros <-. by eapply NoDup_lookup.
Qed.

Lemma cell_index (p : Position) (r0 : Z) :
  isValidPosition p = true → r0 ≤ row p < r0 + 3 →
  let idx := Z.to_nat ((row p - r0) * 7 + col p) in
  (idx < 21)%nat
  ∧ p = mkPosition (r0 + Z.of_nat (idx / 7)) (Z.of_nat (idx mod 7)).
Proof.
  unfold isValidPosition, ROWS, COLS. intros Hv Hr. cbv zeta.
  destruct p as [r c]. cbn [row col] in *.
  assert (0 ≤ c < 7) as Hc by lia.
  split; [lia|]. f_equal.
  - rewrite Nat2Z.inj_div, Z2Nat.id by lia.
    change (Z.of_nat 7) with 7.
    rewrite Z.div_add_l by lia. rewrite Z.div_small by lia. lia.
  - rewrite Nat2Z.inj_mod, Z2Nat.id by lia.
    change (Z.of_nat 7) with 7.
    rewrite Z.add_comm, Z.mod_add by lia. by rewrite Z.mod_small by lia.
Qed.

Lemma setupBoard_placed (h : Heap) (rndAi rndPl : nat → nat) :
  placedOk (fst (GameBoard_new h))
    (setupBoard rndAi rndPl None (snd (GameBoard_new h))) = true.
Proof.
  destruct (setupBoard_cells h rndAi rndPl)
    as (Hai & Hpl & _ & Hrows & Hrows' & Hmid).
  set (h' := fst (GameBoard_new h)) in *.
  set (b' := setupBoard rndAi rndPl None (snd (GameBoard_new h))) in *.
  set (ai := shuffle rndAi (seq 0 21)) in *.
  set (pl := shuffle rndPl (seq 0 21)) in *.
  assert (∀ p u, getCharacter b' p = Some u →
            (∃ idx k, ai !! idx = Some k
               ∧ p = mkPosition (Z.of_nat (idx / 7)) (Z.of_nat (idx mod 7))
               ∧ u = (length h + k)%nat)
            ∨ (∃ idx k, pl !! idx = Some k
               ∧ p = mkPosition (6 + Z.of_nat (idx / 7)) (Z.of_nat (idx mod 7))
               ∧ u = (length h + 21 + k)%nat)) as Hcell.
  { intros p u Hu.
    pose proof (getCharacter_valid _ _ _ Hu) as Hv.
    assert (0 ≤ row p < 9) as Hr by (unfold isValidPosition, ROWS in Hv; lia).
    destruct (decide (row p < 3)) as [Hlow|Hlow].
    - left. destruct (cell_index p 0 Hv) as [Hidx Hp]; [lia|].
      set (idx := Z.to_nat ((row p - 0) * 7 + col p)) in *.
      destruct (ai !! idx) as [k|] eqn:Hk.
      + exists idx, k. split_and!; try done.
        destruct (Hrows idx k Hk) as [Hget _].
        rewrite Z.add_0_l in Hp. rewrite <-Hp, Hu in Hget. by simplify_eq.
      + apply lookup_ge_None in Hk.
        pose proof (Permutation_length Hai) as Hlen.
        rewrite length_seq in Hlen. lia.
    - destruct (decide (row p < 6)) as [Hmidrow|Hhigh].
      { rewrite Hmid in Hu by lia. done. }
      right. destruct (cell_index p 6 Hv) as [Hidx Hp]; [lia|].
      set (idx := Z.to_nat ((row p - 6) * 7 + col p)) in *.
      destruct (pl !! idx) as [k|] eqn:Hk.
      + exists idx, k. split_and!; try done.
        destruct (Hrows' idx k Hk) as [Hget _].
        rewrite <-Hp, Hu in Hget. by simplify_eq.
      + apply lookup_ge_None in Hk.
        pose proof (Permutation_length Hpl) as Hlen.
        rewrite length_seq in Hlen. lia. }
  apply placedOk_spec. split.
  - intros p u Hu.
    destruct (Hcell p u Hu) as [(idx & k & Hk & _ & ->)|(idx & k & Hk & _ & ->)].
    + destruct (Hrows idx k Hk) as [_ Hstore].
      destruct (shuffled_index ai k k idx idx Hai Hk Hk) as (Hlt & _ & _).
      destruct (createFullTeam 0 !! k) as [c|] eqn:Hc.
      * rewrite (list_lookup_total_correct _ _ _ Hstore).
        by eapply createFullTeam_alive.
      * apply lookup_ge_None in Hc. unfold createFullTeam in Hc.
        rewrite length_map in Hc. cbn [length] in Hc. lia.
    + destruct (Hrows' idx k Hk) as [_ Hstore].
      destruct (shuffled_index pl k k idx idx Hpl Hk Hk) as (Hlt & _ & _).
      destruct (createFullTeam 1 !! k) as [c|] eqn:Hc.
      * rewrite (list_lookup_total_correct _ _ _ Hstore).
        by eapply createFullTeam_alive.
      * apply lookup_ge_None in Hc. unfold createFullTeam in Hc.
        rewrite length_map in Hc. cbn [length] in Hc. lia.
  - intros p q u Hp Hq.
    destruct (Hcell p u Hp) as [(i & k & Hk & Hpi & Hu)|(i & k & Hk & Hpi & Hu)],
             (Hcell q u Hq) as [(j & l & Hl & Hqj & Hu')|(j & l & Hl & Hqj & Hu')].
    + destruct (shuffled_index ai k l i j Hai Hk Hl) as (_ & _ & Hij).
      rewrite Hpi, Hqj, (Hij ltac:(lia)). done.
    + destruct (shuffled_index ai k k i i Hai Hk Hk) as (Hlt & _ & _). lia.
    + destruct (shuffled_index ai l l j j Hai Hl Hl) as (Hlt & _ & _). lia.
    + destruct (shuffled_index pl k l i j Hpl Hk Hl) as (_ & _ & Hij).
      rewrite Hpi, Hqj, (Hij ltac:(lia)). done.
Qed.

Lemma revealsOnly_placed (h h' : Heap) (b : GameBoard) :
  revealsOnly h h' →
  boardOk h b = true → placedOk h b = true →
  boardOk h' b = true ∧ placedOk h' b = true.
Proof.
  intros [Hlen Hunits] Hok Hpl. split.
  - unfold boardOk in *. by rewrite Hlen.
  - apply placedOk_spec in Hpl as [Halive Huniq]. apply placedOk_spec.
    split; [|done]. intros p u Hu.
    destruct (Hunits u) as (_ & _ & -> & _). by eapply Halive.
Qed.

Lemma getMove_revealsOnly (self : Z) (rnd : nat) (h : Heap) (b : GameBoard) :
  revealsOnly h (fst (BasicAI.getMove self rnd h b)).
Proof.
  destruct (getAllValidMoves h b self) as [|item items] eqn:Hall.
  { unfold BasicAI.getMove. rewrite Hall. apply revealsOnly_refl. }
  destruct (getMove_listed self rnd h b) as (h' & m & -> & Hr & _);
    [by rewrite Hall|done].
Qed.

Section Game.
Implicit Types (h : Heap) (b : GameBoard).

Lemma makeAIMove_placed (rnd : nat) h b :
  boardOk h b = true → placedOk h b = true →
  boardOk (fst (App.makeAIMove rnd h b)) (snd (App.makeAIMove rnd h b)) = true
  ∧ placedOk (fst (App.makeAIMove rnd h b)) (snd (App.makeAIMove rnd h b))
    = true.
Proof.
  intros Hok Hpl. unfold App.makeAIMove.
  pose proof (getMove_revealsOnly 0 rnd h b) as Hrev.
  destruct (BasicAI.getMove 0 rnd h b) as [h1 aiMove]. cbn [fst] in Hrev.
  destruct (revealsOnly_placed h h1 b Hrev Hok Hpl) as [Hok1 Hpl1].
  destruct aiMove as [move|]; [|done].
  split; [by apply boardOk_makeMove|by apply placed_makeMove].
Qed.

Lemma App_makeMove_placed (rnd : nat) h b (fromRow fromCol toRow toCol : nat) :
  boardOk h b = true → placedOk h b = true →
  boardOk (fst (App.makeMove rnd h b fromRow fromCol toRow toCol))
    (snd (App.makeMove rnd h b fromRow fromCol toRow toCol)) = true
  ∧ placedOk (fst (App.makeMove rnd h b fromRow fromCol toRow toCol))
      (snd (App.makeMove rnd h b fromRow fromCol toRow toCol)) = true.
Proof.
  intros Hok Hpl. unfold App.makeMove. cbv zeta.
  set (move := mkMove _ _).
  pose proof (boardOk_makeMove h b move Hok) as Hok1.
  pose proof (placed_makeMove h b move Hok Hpl) as Hpl1.
  destruct (makeMove h b move) as [[h1 b1] success]. cbn [fst snd] in *.
  destruct success; [|done].
  destruct (_ && _); [|done]. by apply makeAIMove_placed.
Qed.

Lemma play_placed (calls : list App.Call) h b :
  boardOk h b = true → placedOk h b = true →
  boardOk (fst (App.play h b calls)) (snd (App.play h b calls)) = true
  ∧ placedOk (fst (App.play h b calls)) (snd (App.play h b calls)) = true.
Proof.
  revert h b. induction calls as [|c calls IH]; intros h b Hok Hpl; [done|].
  cbn [App.play].
  destruct (App_makeMove_placed (App.draw c) h b (App.fromRow c)
              (App.fromCol c) (App.toRow c) (App.toCol c) Hok Hpl)
    as [Hok1 Hpl1].
  destruct (App.makeMove _ _ _ _ _ _ _) as [h1 b1]. by apply IH.
Qed.
End Game.

(** A whole game against the basic agent: start with [new GameBoard()]
    and [setupBoard()] and make any sequence of calls of App's [makeMove],
    with legal or illegal coordinates, each followed by the reply that
    [makeAIMove] plays for [BasicAI(0)].  Whatever the draws, the board
    stays a 9x7 grid of references into the store, every unit on the grid
    is alive, and no unit is on two cells. *)
Theorem basic_game_keeps_units_placed (h : Heap) (rndAi rndPl : nat → nat)
    (calls : list App.Call) :
  let '(h0, b0) := GameBoard_new h in
  let '(h', b') := App.play h0 (setupBoard rndAi rndPl None b0) calls in
  boardOk h' b' = true
  ∧ placedOk h' b' = true
  ∧ (∀ p u, getCharacter b' p = Some u → isAlive (h' !!! u) = true)
  ∧ (∀ p q u, getCharacter b' p = Some u → getCharacter b' q = Some u → p = q).
Proof.
  pose proof (setupBoard_placed h rndAi rndPl) as Hpl.
  destruct (setupBoard_cells h rndAi rndPl) as (_ & _ & Hok & _).
  destruct (GameBoard_new h) as [h0 b0]. cbn [fst snd] in Hpl, Hok.
  destruct (play_placed calls h0 _ Hok Hpl) as [Hok' Hpl'].
  destruct (App.play h0 _ calls) as [h' b']. cbn [fst snd] in Hok', Hpl'.
  split; [done|]. split; [done|]. by apply placedOk_spec.
Qed.

(** ** board.js: what the projection tells *)

Lemma typeNameOf_inj (a b : CharacterType) :
  typeNameOf a = typeNameOf b → a = b.
Proof. destruct a, b; first [reflexivity | discriminate]. Qed.

Lemma typeNameOf_not_hidden_eq (t : CharacterType) :
  typeNameOf t = "HIDDEN" → False.
Proof. by destruct t. Qed.

Lemma viewCell_tells (forPlayer : Z) (h1 h2 : Heap) (x1 x2 : Cell) :
  viewCell h1 forPlayer x1 = viewCell h2 forPlayer x2 →
  cellsAgree forPlayer h1 h2 x1 x2 = true.
Proof.
  unfold viewCell, cellsAgree, sameToViewer, typeName, type_is.
  destruct x1 as [u1|], x2 as [u2|]; try done;
    try (destruct (_ || _); done).
  destruct (playerId (h1 !!! u1) =? forPlayer) eqn:Ho1,
           (isRevealed (h1 !!! u1)) eqn:Hr1,
           (playerId (h2 !!! u2) =? forPlayer) eqn:Ho2,
           (isRevealed (h2 !!! u2)) eqn:Hr2;
    cbn [orb]; intros Heq; apply (inj Some) in Heq;
    pose proof (f_equal view_type Heq) as Ht;
    pose proof (f_equal view_player_id Heq) as Hp;
    pose proof (f_equal view_is_alive Heq) as Ha;
    pose proof (f_equal view_is_revealed Heq) as Hrv;
    cbn [view_type view_player_id view_is_alive view_is_revealed] in Ht, Hp, Ha, Hrv;
    try discriminate Hrv;
    try (by apply typeNameOf_not_hidden_eq in Ht);
    try (symmetry in Ht; by apply typeNameOf_not_hidden_eq in Ht);
    rewrite Hp, Ha, Z.eqb_refl, eqb_reflx; cbn [andb eqb];
    try (apply typeNameOf_inj in Ht; rewrite Ht; by rewrite bool_decide_eq_true_2);
    done.
Qed.

(** The projection tells the viewer everything they may know: two boards
    with the same [getBoardState(forPlayer)] agree for [forPlayer] cell by
    cell, on which cells are empty, on the owner, [isAlive] and
    [isRevealed] of every unit and on the kind of every unit that
    [forPlayer] owns or that is revealed. *)
Theorem getBoardState_tells_known_kinds (forPlayer : Z) (h1 : Heap)
    (b1 : GameBoard) (h2 : Heap) (b2 : GameBoard) :
  getBoardState h1 b1 forPlayer = getBoardState h2 b2 forPlayer →
  agreeFor forPlayer h1 b1 h2 b2 = true.
Proof.
  intros Hsame. unfold agreeFor.
  apply forallb_forall. intros r Hr. apply forallb_forall. intros c Hc.
  apply in_seq in Hr, Hc. apply viewCell_tells.
  pose proof (getBoardState_cell h1 b1 forPlayer r c ltac:(lia) ltac:(lia))
    as H1.
  pose proof (getBoardState_cell h2 b2 forPlayer r c ltac:(lia) ltac:(lia))
    as H2.
  rewrite Hsame, H2 in H1. by simplify_eq.
Qed.

(** The two positions with a hidden colonel and a hidden engineer. *)
Lemma getBoardState_tells_known_kinds_hidden :
  getBoardState (fst Positions.hiddenColonel) (snd Positions.hiddenColonel) 1
  = getBoardState (fst Positions.hiddenEngineer) (snd Positions.hiddenEngineer) 1
  ∧ agreeFor 1 (fst Positions.hiddenColonel) (snd Positions.hiddenColonel)
      (fst Positions.hiddenEngineer) (snd Positions.hiddenEngineer) = true.
Proof.
  split; [reflexivity|].
  apply (getBoardState_tells_known_kinds 1); reflexivity.
Defined.

(** ** ai/basicAI.js: the advance *)

(** The forward class: among the moves of its player, [findForwardMoves]
    keeps exactly the steps onto an empty cell one row towards the other
    side, in the same column: one row down (row + 1) for the agent playing
    0, one row up (row - 1) for any other agent; it never keeps an attack
    or a sideways step. *)
Theorem findForwardMoves_advance (self : Z) (h : Heap) (b : GameBoard)
    (m : Move) :
  m ∈ BasicAI.findForwardMoves self b (getAllValidMoves h b self) ↔
    (fromPos m, m) ∈ getAllValidMoves h b self
    ∧ getCharacter b (toPos m) = None
    ∧ toPos m = mkPosition (row (fromPos m) + (if self =? 0 then 1 else -1))
                           (col (fromPos m)).
Proof.
  unfold BasicAI.findForwardMoves. cbv zeta.
  rewrite list_elem_of_In, in_flat_map. split.
  - intros ([pos m'] & Hin & Hm). cbn [snd] in Hm.
    destruct (getCharacter b (toPos m')) eqn:Ht; [done|].
    destruct (_ >? 0) eqn:Hdir; [|done]. destruct Hm as [<-|[]].
    apply list_elem_of_In in Hin. pose proof Hin as Hin'.
    apply getAllValidMoves_elem in Hin' as [Hv _].
    pose proof (getValidMoves_fromPos h b _ _ Hv) as <-.
    split; [done|]. split; [done|].
    destruct (getValidMoves_target h b _ _ Hv) as (_ & (d & Hd & Hto) & _).
    rewrite Hto in Hdir |- *. cbn [row col] in Hdir.
    unfold directions in Hd.
    repeat (apply elem_of_cons in Hd as [->|Hd]); [..|by apply elem_of_nil in Hd];
      cbn [fst snd] in *; destruct (self =? 0); f_equal; lia.
  - intros (Hin & Ht & Hto). exists (fromPos m, m).
    split; [by apply list_elem_of_In|]. cbn [snd]. rewrite Ht, Hto.
    cbn [row]. destruct (self =? 0);
      (destruct (_ >? 0) eqn:Hdir; [apply in_eq|lia]).
Qed.
